(** * Input buffering and adaptive render scheduling

    A shallow embedding of [prototypes/input-worker/input-buffer.mjs] and
    [prototypes/input-worker/adaptive-renderer.mjs], and the properties of
    the two classes.

    Conventions of the embedding.
    - [Date.now()] is an oracle: the world holds the sequence of readings
      the process will observe and a counter of the readings consumed so
      far.  Nothing is assumed about the readings.
    - [setTimeout]/[clearTimeout] act on the timer table of the world; a
      handle is the identifier of the timer, never reused.
    - client code (the [onDelayDetected] callback, the render functions) is
      not part of the two classes.  A call of it is recorded in a log of the
      world; a render function either returns or raises, the callback
      returns.  Client code does not call back into the object that runs it.
    - an exception leaves the object as the statements executed so far have
      mutated it, so every method returns the object and the world next to
      its result.
    - integers ([Date.now()] readings, counters) are [Z]; the quotients the
      code computes with [/] are exact rationals, with the three values
      [Infinity], [-Infinity] and [NaN] that a division by zero produces
      (rounding of doubles is not modelled). *)

From Stdlib Require Import List ZArith QArith String Ascii Bool Lia.
From Stdlib Require Import Permutation Sorted.
Import ListNotations.
Local Open Scope Z_scope.

(** ** JavaScript numbers produced by a division *)

Inductive JSNumber : Type :=
| Finite (q : Q)
| PosInfinity
| NegInfinity
| NaN.

(** [a / b] on two integers. *)
Definition js_div (a b : Z) : JSNumber :=
  if b =? 0 then
    if a =? 0 then NaN else if 0 <? a then PosInfinity else NegInfinity
  else Finite (Qred (Qdiv (inject_Z a) (inject_Z b))).

(** [x || 0]: the falsy numbers are [0] and [NaN]. *)
Definition js_or_zero (x : JSNumber) : JSNumber :=
  match x with
  | NaN => Finite 0
  | Finite q => if Qeq_bool q 0 then Finite 0 else x
  | PosInfinity | NegInfinity => x
  end.

(** ** The world: clock, timers, client code *)

Inductive TimerKind : Type :=
| TypingModeOff     (* InputBuffer.push: () => { this.typingMode = false } *)
| IdleElapsed       (* AdaptiveRenderer.onInput: isTyping = false; flushDeferred() *)
| MaxDeferElapsed.  (* AdaptiveRenderer.deferRender: flushDeferred() *)

Definition TimerKind_eqb (a b : TimerKind) : bool :=
  match a, b with
  | TypingModeOff, TypingModeOff => true
  | IdleElapsed, IdleElapsed => true
  | MaxDeferElapsed, MaxDeferElapsed => true
  | _, _ => false
  end.

Record Timer : Type := mkTimer {
  tid : nat;
  kind : TimerKind;
  delayMs : Z
}.

(** The argument of [onDelayDetected]. *)
Record DelayInfo : Type := mkDelayInfo {
  info_delay : Z;
  info_bufferedChars : Z;
  info_timestamp : Z
}.

(** A render function, as far as the scheduler can tell: which one it is,
    and whether the call raises. *)
Record RenderFn : Type := mkRenderFn {
  label : nat;
  raises : bool
}.

Record World : Type := mkWorld {
  clock : nat -> Z;          (* the readings of Date.now(), in order *)
  ticks : nat;               (* readings consumed so far *)
  timers : list Timer;       (* pending timers *)
  nextTimer : nat;           (* next fresh handle *)
  delayLog : list DelayInfo; (* calls of onDelayDetected, oldest first *)
  renderLog : list nat       (* render functions called, oldest first *)
}.

Definition world_tick (w : World) : World :=
  mkWorld (clock w) (S (ticks w)) (timers w) (nextTimer w) (delayLog w) (renderLog w).

Definition world_arm (k : TimerKind) (d : Z) (w : World) : World :=
  mkWorld (clock w) (ticks w) (timers w ++ [mkTimer (nextTimer w) k d])
          (S (nextTimer w)) (delayLog w) (renderLog w).

Definition world_cancel (h : nat) (w : World) : World :=
  mkWorld (clock w) (ticks w)
          (filter (fun t => negb (Nat.eqb (tid t) h)) (timers w))
          (nextTimer w) (delayLog w) (renderLog w).

Definition world_notify (i : DelayInfo) (w : World) : World :=
  mkWorld (clock w) (ticks w) (timers w) (nextTimer w) (delayLog w ++ [i]) (renderLog w).

Definition world_render (f : RenderFn) (w : World) : World :=
  mkWorld (clock w) (ticks w) (timers w) (nextTimer w) (delayLog w)
          (renderLog w ++ [label f]).

(** The pending timers of one kind. *)
Definition pending (k : TimerKind) (w : World) : list Timer :=
  filter (fun t => TimerKind_eqb (kind t) k) (timers w).

(** [n] more readings of the clock. *)
Definition advance (n : nat) (w : World) : World :=
  mkWorld (clock w) (n + ticks w) (timers w) (nextTimer w) (delayLog w) (renderLog w).

(** ** Methods: state of [this], the world, and exceptions *)

Inductive result (A : Type) : Type :=
| Ok (a : A)
| Throw (e : nat).   (* the exception raised by render function [e] *)
Arguments Ok {A} a.
Arguments Throw {A} e.

Definition M (T A : Type) : Type := T -> World -> result A * T * World.

Definition ret {T A} (a : A) : M T A := fun t w => (Ok a, t, w).

Definition bind {T A B} (c : M T A) (k : A -> M T B) : M T B :=
  fun t w =>
    match c t w with
    | (Ok a, t', w') => k a t' w'
    | (Throw e, t', w') => (Throw e, t', w')
    end.

Declare Scope method_scope.
Delimit Scope method_scope with method.
Notation "x <- c ;; k" := (bind c (fun x => k))
  (at level 61, c at next level, right associativity) : method_scope.
Notation "c ;; k" := (bind c (fun _ => k))
  (at level 61, right associativity) : method_scope.
Local Open Scope method_scope.

(** [try { c } finally { f }] *)
Definition try_finally {T A} (c : M T A) (f : M T unit) : M T A :=
  fun t w =>
    match c t w with
    | (r, t', w') =>
        match f t' w' with
        | (Ok _, t'', w'') => (r, t'', w'')
        | (Throw e, t'', w'') => (Throw e, t'', w'')
        end
    end.

Definition this {T} : M T T := fun t w => (Ok t, t, w).
Definition modify {T} (f : T -> T) : M T unit := fun t w => (Ok tt, f t, w).
Definition when {T} (b : bool) (c : M T unit) : M T unit := if b then c else ret tt.

Definition Date_now {T} : M T Z :=
  fun t w => (Ok (clock w (ticks w)), t, world_tick w).

Definition setTimeout {T} (k : TimerKind) (d : Z) : M T nat :=
  fun t w => (Ok (nextTimer w), t, world_arm k d w).

Definition clearTimeout {T} (h : nat) : M T unit :=
  fun t w => (Ok tt, t, world_cancel h w).

(** [for (const x of xs) { body(x) }] *)
Fixpoint for_of {T A} (xs : list A) (body : A -> M T unit) : M T unit :=
  match xs with
  | [] => ret tt
  | x :: xs' => body x ;; for_of xs' body
  end.

(** [options.field ?? dflt] *)
Definition nullish {A} (o : option A) (dflt : A) : A :=
  match o with Some a => a | None => dflt end.

(** A timer handle is [option nat]: [Some h] is what [setTimeout] returned
    (truthy), [None] is [null] or [undefined] (falsy). *)

(** ** input-buffer.mjs *)

Module InputBuffer.

Record Unit : Type := mkUnit {
  char : string;
  receivedAt : Z;
  queuedAt : Z
}.

Record Metrics : Type := mkMetrics {
  totalInputs : Z;
  delayEvents : Z;
  maxDelay : Z;
  avgProcessingTime : JSNumber;
  totalProcessingTime : Z
}.

Definition zeroMetrics : Metrics := mkMetrics 0 0 0 (Finite 0) 0.

Record t : Type := mk {
  buffer : list Unit;
  lastProcessTime : Z;
  delayThresholdMs : Z;
  metrics : Metrics;
  typingMode : bool;
  lastInputTime : Z;
  typingModeTimeout : option nat;
  typingModeDelayMs : Z
}.

Record Options : Type := mkOptions {
  opt_delayThresholdMs : option Z;
  opt_typingModeDelayMs : option Z
}.

Definition noOptions : Options := mkOptions None None.

Definition set_buffer (v : list Unit) (b : t) : t :=
  mk v (lastProcessTime b) (delayThresholdMs b) (metrics b) (typingMode b)
     (lastInputTime b) (typingModeTimeout b) (typingModeDelayMs b).

Definition set_lastProcessTime (v : Z) (b : t) : t :=
  mk (buffer b) v (delayThresholdMs b) (metrics b) (typingMode b)
     (lastInputTime b) (typingModeTimeout b) (typingModeDelayMs b).

Definition set_metrics (v : Metrics) (b : t) : t :=
  mk (buffer b) (lastProcessTime b) (delayThresholdMs b) v (typingMode b)
     (lastInputTime b) (typingModeTimeout b) (typingModeDelayMs b).

Definition set_typingMode (v : bool) (b : t) : t :=
  mk (buffer b) (lastProcessTime b) (delayThresholdMs b) (metrics b) v
     (lastInputTime b) (typingModeTimeout b) (typingModeDelayMs b).

Definition set_lastInputTime (v : Z) (b : t) : t :=
  mk (buffer b) (lastProcessTime b) (delayThresholdMs b) (metrics b) (typingMode b)
     v (typingModeTimeout b) (typingModeDelayMs b).

Definition set_typingModeTimeout (v : option nat) (b : t) : t :=
  mk (buffer b) (lastProcessTime b) (delayThresholdMs b) (metrics b) (typingMode b)
     (lastInputTime b) v (typingModeDelayMs b).

Definition add_totalInputs (n : Z) (m : Metrics) : Metrics :=
  mkMetrics (totalInputs m + n) (delayEvents m) (maxDelay m)
            (avgProcessingTime m) (totalProcessingTime m).

Definition record_delay (delay : Z) (m : Metrics) : Metrics :=
  mkMetrics (totalInputs m) (delayEvents m + 1) (Z.max (maxDelay m) delay)
            (avgProcessingTime m) (totalProcessingTime m).

Definition add_processingTime (p : Z) (m : Metrics) : Metrics :=
  mkMetrics (totalInputs m) (delayEvents m) (maxDelay m)
            (avgProcessingTime m) (totalProcessingTime m + p).

Definition update_avgProcessingTime (m : Metrics) : Metrics :=
  mkMetrics (totalInputs m) (delayEvents m) (maxDelay m)
            (js_or_zero (js_div (totalProcessingTime m) (totalInputs m)))
            (totalProcessingTime m).

(** The argument of [push]: a string, split into its characters, or any
    other value, kept as one unit; [repr] is what [join] makes of it. *)
Inductive Data : Type :=
| Str (s : string)
| Other (repr : string).

(** [typeof data === 'string' ? data.split('') : [data]] *)
Definition split_chars (d : Data) : list string :=
  match d with
  | Str s => map (fun a => String a EmptyString) (list_ascii_of_string s)
  | Other r => [r]
  end.

(** [xs.join('')] *)
Definition join (xs : list string) : string :=
  fold_right String.append EmptyString xs.

(** The callback configured as [onDelayDetected]. *)
Definition onDelayDetected (i : DelayInfo) : M t unit :=
  fun b w => (Ok tt, b, world_notify i w).

(** [constructor(options = {})] *)
Definition new (options : Options) (w : World) : result t * World :=
  (Ok (mk [] (clock w (ticks w))
          (nullish (opt_delayThresholdMs options) 50)
          zeroMetrics false 0 None
          (nullish (opt_typingModeDelayMs options) 100)),
   world_tick w).

(** [push(data, timestamp = Date.now())] *)
Definition push (data : Data) (timestamp : option Z) : M t unit :=
  timestamp <- match timestamp with Some ts => ret ts | None => Date_now end ;;
  let chars := split_chars data in
  for_of chars (fun c =>
    q <- Date_now ;;
    modify (fun b => set_buffer (buffer b ++ [mkUnit c timestamp q]) b)) ;;
  now <- Date_now ;;
  modify (set_lastInputTime now) ;;
  modify (fun b => set_metrics (add_totalInputs (Z.of_nat (List.length chars)) (metrics b)) b) ;;
  b <- this ;;
  when (negb (typingMode b)) (modify (set_typingMode true)) ;;
  b <- this ;;
  match typingModeTimeout b with
  | Some h => clearTimeout h
  | None => ret tt
  end ;;
  h <- setTimeout TypingModeOff (typingModeDelayMs b) ;;
  modify (set_typingModeTimeout (Some h)).

(** One element of the array given to [pushBatch]. *)
Record Input : Type := mkInput {
  input_char : Data;
  input_timestamp : option Z
}.

(** [pushBatch(inputs)] *)
Definition pushBatch (inputs : list Input) : M t unit :=
  for_of inputs (fun i => push (input_char i) (input_timestamp i)).

(** [isTyping()] *)
Definition isTyping : M t bool := b <- this ;; ret (typingMode b).

(** [size()] *)
Definition size : M t Z := b <- this ;; ret (Z.of_nat (List.length (buffer b))).

Record FlushResult : Type := mkFlushResult {
  chars : string;
  delay : Z;
  avgQueueTime : JSNumber;
  count : Z
}.

(** [flush()] *)
Definition flush : M t FlushResult :=
  now <- Date_now ;;
  let processStart := now in
  b <- this ;;
  let delay := now - lastProcessTime b in
  when ((delayThresholdMs b <? delay) && (0 <? Z.of_nat (List.length (buffer b))))
    (modify (fun b => set_metrics (record_delay delay (metrics b)) b) ;;
     onDelayDetected (mkDelayInfo delay (Z.of_nat (List.length (buffer b))) now)) ;;
  b <- this ;;
  let chars := join (map char (buffer b)) in
  let queueTimes := map (fun u => queuedAt u - receivedAt u) (buffer b) in
  let avgQueueTime :=
    if 0 <? Z.of_nat (List.length queueTimes)
    then js_div (fold_left Z.add queueTimes 0) (Z.of_nat (List.length queueTimes))
    else Finite 0 in
  modify (set_buffer []) ;;
  modify (set_lastProcessTime now) ;;
  finish <- Date_now ;;
  let processingTime := finish - processStart in
  modify (fun b => set_metrics (add_processingTime processingTime (metrics b)) b) ;;
  modify (fun b => set_metrics (update_avgProcessingTime (metrics b)) b) ;;
  ret (mkFlushResult chars delay avgQueueTime (Z.of_nat (String.length chars))).

(** [peek()] *)
Definition peek : M t string := b <- this ;; ret (join (map char (buffer b))).

(** [getMetrics()] *)
Definition getMetrics : M t Metrics := b <- this ;; ret (metrics b).

(** [resetMetrics()] *)
Definition resetMetrics : M t unit := modify (set_metrics zeroMetrics).

(** The callback of the timer armed by [push]. *)
Definition typingModeOff : M t unit := modify (set_typingMode false).

End InputBuffer.

(** ** The two mutators of the queue, statement by statement

    The object, the world and the value that [push] and [flush] leave, written
    out; [BufferFacts.push_eq] and [BufferFacts.flush_eq] prove that the
    methods compute them. *)

Module BufferSteps.
Import InputBuffer.

(** The units [push] appends for the characters [cs]: one clock reading each. *)
Fixpoint stamped (ts : Z) (cs : list string) (clk : nat -> Z) (n : nat) : list Unit :=
  match cs with
  | [] => []
  | c :: cs' => mkUnit c ts (clk n) :: stamped ts cs' clk (S n)
  end.

(** What [push] does, statement by statement. *)
Definition push_world (d : Data) (ts : option Z) (b : t) (w : World) : World :=
  let w1 := match ts with Some _ => w | None => world_tick w end in
  let w3 := world_tick (advance (List.length (split_chars d)) w1) in
  world_arm TypingModeOff (typingModeDelayMs b)
    (match typingModeTimeout b with Some h => world_cancel h w3 | None => w3 end).

Definition push_this (d : Data) (ts : option Z) (b : t) (w : World) : t :=
  let w1 := match ts with Some _ => w | None => world_tick w end in
  let stamp := match ts with Some v => v | None => clock w (ticks w) end in
  let cs := split_chars d in
  mk (buffer b ++ stamped stamp cs (clock w) (ticks w1))
     (lastProcessTime b) (delayThresholdMs b)
     (add_totalInputs (Z.of_nat (List.length cs)) (metrics b))
     true
     (clock w (List.length cs + ticks w1))
     (Some (nextTimer w))
     (typingModeDelayMs b).

(** The test of [flush] for a delay event, at clock reading [now]. *)
Definition delayed (b : t) (now : Z) : bool :=
  (delayThresholdMs b <? now - lastProcessTime b)
  && (0 <? Z.of_nat (List.length (buffer b))).

Definition flush_info (b : t) (now : Z) : DelayInfo :=
  mkDelayInfo (now - lastProcessTime b) (Z.of_nat (List.length (buffer b))) now.

Definition flush_metrics (b : t) (now finish : Z) : Metrics :=
  update_avgProcessingTime
    (add_processingTime (finish - now)
       (if delayed b now then record_delay (now - lastProcessTime b) (metrics b)
        else metrics b)).

Definition flush_this (b : t) (w : World) : t :=
  let now := clock w (ticks w) in
  mk [] now (delayThresholdMs b)
     (flush_metrics b now (clock w (S (ticks w))))
     (typingMode b) (lastInputTime b) (typingModeTimeout b) (typingModeDelayMs b).

Definition flush_world (b : t) (w : World) : World :=
  let now := clock w (ticks w) in
  mkWorld (clock w) (S (S (ticks w))) (timers w) (nextTimer w)
          (if delayed b now then delayLog w ++ [flush_info b now] else delayLog w)
          (renderLog w).

Definition flush_value (b : t) (w : World) : FlushResult :=
  let queueTimes := map (fun u => queuedAt u - receivedAt u) (buffer b) in
  mkFlushResult
    (join (map char (buffer b)))
    (clock w (ticks w) - lastProcessTime b)
    (if 0 <? Z.of_nat (List.length queueTimes)
     then js_div (fold_left Z.add queueTimes 0) (Z.of_nat (List.length queueTimes))
     else Finite 0)
    (Z.of_nat (String.length (join (map char (buffer b))))).

(** What the metrics say about the delay events notified so far: their
    number, and the largest of their delays. *)
Definition delays_accounted (b : t) (w : World) : Prop :=
  delayEvents (metrics b) = Z.of_nat (List.length (delayLog w))
  /\ maxDelay (metrics b) = fold_right Z.max 0 (map info_delay (delayLog w)).

End BufferSteps.

(** ** adaptive-renderer.mjs *)

Module AdaptiveRenderer.

Inductive Priority : Type := high | normal | low.

Record Entry : Type := mkEntry {
  renderFn : RenderFn;
  priority : Priority;
  queuedAt : Z
}.

Record Metrics : Type := mkMetrics {
  totalRenders : nat;
  deferredRenders : nat;
  immediateRenders : nat;
  avgRenderTime : Q;
  maxRenderTime : Z
}.

Record t : Type := mk {
  idleThresholdMs : Z;
  maxDeferMs : Z;
  minRenderIntervalMs : Z;
  lastInputTime : Z;
  lastRenderTime : Z;
  deferredRender : option nat;
  renderQueue : list Entry;
  isTyping : bool;
  typingTimeout : option nat;
  metrics : Metrics
}.

Record Options : Type := mkOptions {
  opt_idleThresholdMs : option Z;
  opt_maxDeferMs : option Z;
  opt_minRenderIntervalMs : option Z
}.

Definition noOptions : Options := mkOptions None None None.

Definition set_lastInputTime (v : Z) (r : t) : t :=
  mk (idleThresholdMs r) (maxDeferMs r) (minRenderIntervalMs r) v (lastRenderTime r)
     (deferredRender r) (renderQueue r) (isTyping r) (typingTimeout r) (metrics r).

Definition set_lastRenderTime (v : Z) (r : t) : t :=
  mk (idleThresholdMs r) (maxDeferMs r) (minRenderIntervalMs r) (lastInputTime r) v
     (deferredRender r) (renderQueue r) (isTyping r) (typingTimeout r) (metrics r).

Definition set_deferredRender (v : option nat) (r : t) : t :=
  mk (idleThresholdMs r) (maxDeferMs r) (minRenderIntervalMs r) (lastInputTime r)
     (lastRenderTime r) v (renderQueue r) (isTyping r) (typingTimeout r) (metrics r).

Definition set_renderQueue (v : list Entry) (r : t) : t :=
  mk (idleThresholdMs r) (maxDeferMs r) (minRenderIntervalMs r) (lastInputTime r)
     (lastRenderTime r) (deferredRender r) v (isTyping r) (typingTimeout r) (metrics r).

Definition set_isTyping (v : bool) (r : t) : t :=
  mk (idleThresholdMs r) (maxDeferMs r) (minRenderIntervalMs r) (lastInputTime r)
     (lastRenderTime r) (deferredRender r) (renderQueue r) v (typingTimeout r) (metrics r).

Definition set_typingTimeout (v : option nat) (r : t) : t :=
  mk (idleThresholdMs r) (maxDeferMs r) (minRenderIntervalMs r) (lastInputTime r)
     (lastRenderTime r) (deferredRender r) (renderQueue r) (isTyping r) v (metrics r).

Definition set_metrics (v : Metrics) (r : t) : t :=
  mk (idleThresholdMs r) (maxDeferMs r) (minRenderIntervalMs r) (lastInputTime r)
     (lastRenderTime r) (deferredRender r) (renderQueue r) (isTyping r)
     (typingTimeout r) v.

(** [this.metrics.deferredRenders++] *)
Definition incr_deferredRenders (m : Metrics) : Metrics :=
  mkMetrics (totalRenders m) (S (deferredRenders m)) (immediateRenders m)
            (avgRenderTime m) (maxRenderTime m).

(** [(avgRenderTime * (totalRenders - 1) + duration) / totalRenders], read
    after [totalRenders++]: the divisor is at least 1. *)
Definition running_average (avg : Q) (total : nat) (duration : Z) : Q :=
  Qred (Qdiv (Qplus (Qmult avg (inject_Z (Z.of_nat (total - 1)))) (inject_Z duration))
             (inject_Z (Z.of_nat total))).

(** The four metric statements of the [finally] block of [executeRender]. *)
Definition record_render (duration : Z) (m : Metrics) : Metrics :=
  let total := S (totalRenders m) in
  mkMetrics total (deferredRenders m) (S (immediateRenders m))
            (running_average (avgRenderTime m) total duration)
            (Z.max (maxRenderTime m) duration).

(** [constructor(options = {})]; [typingTimeout] is not assigned. *)
Definition new (options : Options) (w : World) : result t * World :=
  (Ok (mk (nullish (opt_idleThresholdMs options) 50)
          (nullish (opt_maxDeferMs options) 200)
          (nullish (opt_minRenderIntervalMs options) 100)
          0 0 None [] false None
          (mkMetrics 0 0 0 (inject_Z 0) 0)),
   w).

(** [renderFn()] *)
Definition call (f : RenderFn) : M t unit :=
  fun r w => (if raises f then Throw (label f) else Ok tt, r, world_render f w).

(** [executeRender(renderFn)] *)
Definition executeRender (f : RenderFn) : M t unit :=
  start <- Date_now ;;
  try_finally (call f)
    (finish <- Date_now ;;
     let duration := finish - start in
     now <- Date_now ;;
     modify (set_lastRenderTime now) ;;
     modify (fun r => set_metrics (record_render duration (metrics r)) r)).

(** [deferRender(renderFn, priority)] *)
Definition deferRender (f : RenderFn) (p : Priority) : M t unit :=
  now <- Date_now ;;
  modify (fun r => set_renderQueue (renderQueue r ++ [mkEntry f p now]) r) ;;
  modify (fun r => set_metrics (incr_deferredRenders (metrics r)) r) ;;
  r <- this ;;
  match deferredRender r with
  | Some _ => ret tt
  | None =>
      h <- setTimeout MaxDeferElapsed (maxDeferMs r) ;;
      modify (set_deferredRender (Some h))
  end.

(** [requestRender(renderFn, options = {})], [options.priority] given or not. *)
Definition requestRender (f : RenderFn) (opt_priority : option Priority) : M t unit :=
  let priority := nullish opt_priority normal in
  now <- Date_now ;;
  match priority with
  | high => executeRender f
  | _ =>
      r <- this ;;
      let timeSinceInput := now - lastInputTime r in
      let timeSinceRender := now - lastRenderTime r in
      if isTyping r && (timeSinceInput <? idleThresholdMs r)
      then deferRender f priority
      else executeRender f
  end.

(** [{ high: 0, normal: 1, low: 2 }] *)
Definition priorityOrder (p : Priority) : Z :=
  match p with high => 0 | normal => 1 | low => 2 end.

(** The comparator given to [sort]. *)
Definition compare (a b : Entry) : Z :=
  let priorityDiff := priorityOrder (priority a) - priorityOrder (priority b) in
  if negb (priorityDiff =? 0) then priorityDiff
  else queuedAt a - queuedAt b.

(** [Array.prototype.sort] is stable: with a comparator that is a total
    preorder its result is the one of a stable insertion sort. *)
Fixpoint insert (cmp : Entry -> Entry -> Z) (x : Entry) (l : list Entry) : list Entry :=
  match l with
  | [] => [x]
  | y :: l' => if cmp x y <=? 0 then x :: y :: l' else y :: insert cmp x l'
  end.

Fixpoint sort (cmp : Entry -> Entry -> Z) (l : list Entry) : list Entry :=
  match l with
  | [] => []
  | x :: l' => insert cmp x (sort cmp l')
  end.

(** [flushDeferred()] *)
Definition flushDeferred : M t unit :=
  r <- this ;;
  match deferredRender r with
  | Some h => clearTimeout h ;; modify (set_deferredRender None)
  | None => ret tt
  end ;;
  r <- this ;;
  if Nat.eqb (List.length (renderQueue r)) 0 then ret tt
  else
    modify (fun r => set_renderQueue (sort compare (renderQueue r)) r) ;;
    r <- this ;;
    for_of (renderQueue r) (fun e => executeRender (renderFn e)) ;;
    modify (set_renderQueue []).

(** [onInput()] *)
Definition onInput : M t unit :=
  now <- Date_now ;;
  modify (set_lastInputTime now) ;;
  modify (set_isTyping true) ;;
  r <- this ;;
  match typingTimeout r with
  | Some h => clearTimeout h
  | None => ret tt
  end ;;
  h <- setTimeout IdleElapsed (idleThresholdMs r) ;;
  modify (set_typingTimeout (Some h)).

(** [isDeferred()] *)
Definition isDeferred : M t bool :=
  r <- this ;; ret (isTyping r && (0 <? Z.of_nat (List.length (renderQueue r)))).

Record MetricsSnapshot : Type := mkSnapshot {
  snap_metrics : Metrics;
  queueLength : Z;
  snap_isTyping : bool
}.

(** [getMetrics()] *)
Definition getMetrics : M t MetricsSnapshot :=
  r <- this ;;
  ret (mkSnapshot (metrics r) (Z.of_nat (List.length (renderQueue r))) (isTyping r)).

(** The callback of the timer armed by [onInput]. *)
Definition idleElapsed : M t unit :=
  modify (set_isTyping false) ;; flushDeferred.

(** The callback of the timer armed by [deferRender]. *)
Definition maxDeferElapsed : M t unit := flushDeferred.

End AdaptiveRenderer.

(** ** The scheduler's methods, statement by statement

    What [executeRender], the loop of [flushDeferred] and [flushDeferred]
    itself leave; [SchedulerFacts] proves that the methods compute them. *)

Module SchedulerSteps.
Import AdaptiveRenderer.

(** [executeRender] reads the clock three times: [start], the end of the
    call, and [lastRenderTime]. *)
Definition render_duration (w : World) : Z :=
  clock w (S (ticks w)) - clock w (ticks w).

Definition execute_this (r : t) (w : World) : t :=
  set_metrics (record_render (render_duration w) (metrics r))
    (set_lastRenderTime (clock w (S (S (ticks w)))) r).

Definition execute_world (f : RenderFn) (w : World) : World :=
  mkWorld (clock w) (S (S (S (ticks w)))) (timers w) (nextTimer w) (delayLog w)
          (renderLog w ++ [label f]).

Definition outcome (f : RenderFn) : result unit :=
  if raises f then Throw (label f) else Ok tt.

(** The loop of [flushDeferred]: it stops at the first call that raises. *)
Fixpoint render_all (es : list Entry) (r : t) (w : World) : result unit * t * World :=
  match es with
  | [] => (Ok tt, r, w)
  | e :: es' =>
      if raises (renderFn e)
      then (Throw (label (renderFn e)), execute_this r w, execute_world (renderFn e) w)
      else render_all es' (execute_this r w) (execute_world (renderFn e) w)
  end.

(** The entries the loop reaches: all of them up to the first that raises,
    that one included. *)
Fixpoint reached (es : list Entry) : list Entry :=
  match es with
  | [] => []
  | e :: es' => if raises (renderFn e) then [e] else e :: reached es'
  end.

Definition flush_cancel (r : t) (w : World) : World :=
  match deferredRender r with Some h => world_cancel h w | None => w end.

Definition flushDeferred_steps (r : t) (w : World) : result unit * t * World :=
  let r1 := set_deferredRender None r in
  let w1 := flush_cancel r w in
  match renderQueue r with
  | [] => (Ok tt, r1, w1)
  | _ :: _ =>
      let q := sort compare (renderQueue r) in
      match render_all q (set_renderQueue q r1) w1 with
      | (Ok _, r2, w2) => (Ok tt, set_renderQueue [] r2, w2)
      | (Throw e, r2, w2) => (Throw e, r2, w2)
      end
  end.

Definition defer_this (f : RenderFn) (p : Priority) (r : t) (w : World) : t :=
  mk (idleThresholdMs r) (maxDeferMs r) (minRenderIntervalMs r) (lastInputTime r)
     (lastRenderTime r)
     (match deferredRender r with Some h => Some h | None => Some (nextTimer w) end)
     (renderQueue r ++ [mkEntry f p (clock w (ticks w))])
     (isTyping r) (typingTimeout r) (incr_deferredRenders (metrics r)).

Definition defer_world (r : t) (w : World) : World :=
  match deferredRender r with
  | Some _ => world_tick w
  | None => world_arm MaxDeferElapsed (maxDeferMs r) (world_tick w)
  end.

(** The test of [requestRender] for deferring, at clock reading [now]. *)
Definition typing (r : t) (now : Z) : bool :=
  isTyping r && (now - lastInputTime r <? idleThresholdMs r).

Definition onInput_this (r : t) (w : World) : t :=
  mk (idleThresholdMs r) (maxDeferMs r) (minRenderIntervalMs r) (clock w (ticks w))
     (lastRenderTime r) (deferredRender r) (renderQueue r) true
     (Some (nextTimer w)) (metrics r).

Definition onInput_world (r : t) (w : World) : World :=
  world_arm IdleElapsed (idleThresholdMs r)
    (match typingTimeout r with
     | Some h => world_cancel h (world_tick w)
     | None => world_tick w
     end).

(** The order the comparator stands for: priority first, [high] before
    [normal] before [low], then [queuedAt]. *)
Definition entry_le (a b : Entry) : Prop :=
  priorityOrder (priority a) < priorityOrder (priority b)
  \/ (priority a = priority b /\ queuedAt a <= queuedAt b).

(** Same priority and same [queuedAt] as [p] and [q]. *)
Definition tied (p : Priority) (q : Z) (e : Entry) : bool :=
  (priorityOrder (priority e) =? priorityOrder p) && (queuedAt e =? q).

End SchedulerSteps.

(** ** One buffer, one scheduler, one event loop *)

Module System.

Record Sys : Type := mkSys {
  buf : InputBuffer.t;
  rend : AdaptiveRenderer.t;
  world : World
}.

(** What the program around the two objects, or the event loop, can do. *)
Inductive Action : Type :=
| Push (data : InputBuffer.Data) (timestamp : option Z)
| PushBatch (inputs : list InputBuffer.Input)
| Flush
| Peek
| Size
| IsTyping
| BufferMetrics
| ResetMetrics
| OnInput
| RequestRender (f : RenderFn) (p : option AdaptiveRenderer.Priority)
| DeferRender (f : RenderFn) (p : AdaptiveRenderer.Priority)
| ExecuteRender (f : RenderFn)
| FlushDeferred
| IsDeferred
| RenderMetrics
| Fire (h : nat).   (* the event loop runs the callback of pending timer [h] *)

Definition on_buf {A} (m : M InputBuffer.t A) (s : Sys) : Sys :=
  match m (buf s) (world s) with
  | (_, b, w) => mkSys b (rend s) w
  end.

Definition on_rend {A} (m : M AdaptiveRenderer.t A) (s : Sys) : Sys :=
  match m (rend s) (world s) with
  | (_, r, w) => mkSys (buf s) r w
  end.

(** A timer that fires leaves the table before its callback runs.  Any
    pending timer may fire at any point between two calls, whatever its
    delay: the states reached this way include those of every schedule. *)
Definition fire (h : nat) (s : Sys) : Sys :=
  match find (fun t => Nat.eqb (tid t) h) (timers (world s)) with
  | None => s
  | Some t =>
      let s' := mkSys (buf s) (rend s) (world_cancel h (world s)) in
      match kind t with
      | TypingModeOff => on_buf InputBuffer.typingModeOff s'
      | IdleElapsed => on_rend AdaptiveRenderer.idleElapsed s'
      | MaxDeferElapsed => on_rend AdaptiveRenderer.maxDeferElapsed s'
      end
  end.

Definition step (a : Action) (s : Sys) : Sys :=
  match a with
  | Push d ts => on_buf (InputBuffer.push d ts) s
  | PushBatch i => on_buf (InputBuffer.pushBatch i) s
  | Flush => on_buf InputBuffer.flush s
  | Peek => on_buf InputBuffer.peek s
  | Size => on_buf InputBuffer.size s
  | IsTyping => on_buf InputBuffer.isTyping s
  | BufferMetrics => on_buf InputBuffer.getMetrics s
  | ResetMetrics => on_buf InputBuffer.resetMetrics s
  | OnInput => on_rend AdaptiveRenderer.onInput s
  | RequestRender f p => on_rend (AdaptiveRenderer.requestRender f p) s
  | DeferRender f p => on_rend (AdaptiveRenderer.deferRender f p) s
  | ExecuteRender f => on_rend (AdaptiveRenderer.executeRender f) s
  | FlushDeferred => on_rend AdaptiveRenderer.flushDeferred s
  | IsDeferred => on_rend AdaptiveRenderer.isDeferred s
  | RenderMetrics => on_rend AdaptiveRenderer.getMetrics s
  | Fire h => fire h s
  end.

Definition run (acts : list Action) (s : Sys) : Sys :=
  fold_left (fun s a => step a s) acts s.

(** The state after the two constructors, in a world with no timer pending. *)
Definition boot (bo : InputBuffer.Options) (ro : AdaptiveRenderer.Options)
  (clk : nat -> Z) : option Sys :=
  let w0 := mkWorld clk 0 [] 0 [] [] in
  match InputBuffer.new bo w0 with
  | (Ok b, w1) =>
      match AdaptiveRenderer.new ro w1 with
      | (Ok r, w2) => Some (mkSys b r w2)
      | (Throw _, _) => None
      end
  | (Throw _, _) => None
  end.

(** The characters an action adds to the queue. *)
Definition pushed (a : Action) : list string :=
  match a with
  | Push d _ => InputBuffer.split_chars d
  | PushBatch inputs =>
      flat_map (fun i => InputBuffer.split_chars (InputBuffer.input_char i)) inputs
  | _ => []
  end.

Definition queued (s : Sys) : list string :=
  map InputBuffer.char (InputBuffer.buffer (buf s)).

(** The handle an object keeps for the timer of each kind:
    [this.typingModeTimeout] of the buffer, [this.typingTimeout] and
    [this.deferredRender] of the scheduler. *)
Definition handle (k : TimerKind) (s : Sys) : option nat :=
  match k with
  | TypingModeOff => InputBuffer.typingModeTimeout (buf s)
  | IdleElapsed => AdaptiveRenderer.typingTimeout (rend s)
  | MaxDeferElapsed => AdaptiveRenderer.deferredRender (rend s)
  end.

(** The handles [h] account for the timer table [l]: every pending timer is
    the one its owner holds the handle of, handles are not shared between
    kinds, and the handles given out so far are below the next one [n]. *)
Definition tracked (h : TimerKind -> option nat) (l : list Timer) (n : nat) : Prop :=
  (forall t, In t l -> h (kind t) = Some (tid t))
  /\ NoDup (map tid l)
  /\ (forall k x, h k = Some x -> (x < n)%nat)
  /\ (forall k k' x, h k = Some x -> h k' = Some x -> k = k').

Definition tracked_sys (s : Sys) : Prop :=
  tracked (fun k => handle k s) (timers (world s)) (nextTimer (world s)).

(** [h] with the handle of kind [k] replaced by [v]. *)
Definition upd (h : TimerKind -> option nat) (k : TimerKind) (v : option nat)
  : TimerKind -> option nat :=
  fun k' => if TimerKind_eqb k' k then v else h k'.

Definition reachable (s : Sys) : Prop :=
  exists bo ro clk s0 acts, boot bo ro clk = Some s0 /\ s = run acts s0.

End System.

(** ** Runs of the system: what they return and what they contain *)

Module Runs.
Import System.

(** What [flush] returns as [chars], when an action is a flush. *)
Definition flushed_by (a : Action) (s : Sys) : list string :=
  match a with
  | Flush =>
      match InputBuffer.flush (buf s) (world s) with
      | (Ok r, _, _) => [InputBuffer.chars r]
      | (Throw _, _, _) => []
      end
  | _ => []
  end.

(** The strings the flushes of a run returned, oldest first. *)
Fixpoint flushed (acts : list Action) (s : Sys) : list string :=
  match acts with
  | [] => []
  | a :: acts' => flushed_by a s ++ flushed acts' (step a s)
  end.

(** [pushBatch(inputs)] written as the calls of [push] it makes. *)
Definition pushes_of (inputs : list InputBuffer.Input) : list Action :=
  map (fun i => Push (InputBuffer.input_char i) (InputBuffer.input_timestamp i)) inputs.

Definition is_string (d : InputBuffer.Data) : bool :=
  match d with InputBuffer.Str _ => true | InputBuffer.Other _ => false end.

(** The action pushes strings only, if it pushes. *)
Definition strings_only (a : Action) : bool :=
  match a with
  | Push d _ => is_string d
  | PushBatch inputs => forallb (fun i => is_string (InputBuffer.input_char i)) inputs
  | _ => true
  end.

(** The action defers no render function that raises. *)
Definition quiet (a : Action) : bool :=
  match a with
  | RequestRender f _ => negb (raises f)
  | DeferRender f _ => negb (raises f)
  | _ => true
  end.

(** The flag that the timer of a kind resets, for the two typing modes. *)
Definition typing_flag (k : TimerKind) (s : Sys) : bool :=
  match k with
  | TypingModeOff => InputBuffer.typingMode (buf s)
  | IdleElapsed => AdaptiveRenderer.isTyping (rend s)
  | MaxDeferElapsed => false
  end.

(** Each typing mode that is on has a pending timer of its kind. *)
Definition flags_armed (s : Sys) : Prop :=
  forall k, typing_flag k s = true -> pending k (world s) <> [].

(** No queued render function raises; a max-defer handle that is held is
    the handle of a pending timer; a queue that is not empty has its
    handle. *)
Definition queue_armed (s : Sys) : Prop :=
  Forall (fun e => raises (AdaptiveRenderer.renderFn e) = false)
         (AdaptiveRenderer.renderQueue (rend s))
  /\ (AdaptiveRenderer.deferredRender (rend s) <> None ->
      pending MaxDeferElapsed (world s) <> [])
  /\ (AdaptiveRenderer.renderQueue (rend s) <> [] ->
      AdaptiveRenderer.deferredRender (rend s) <> None).

(** [totalRenders] counts the calls of render functions, and
    [deferredRenders] is at least the length of the queue. *)
Definition renders_counted (s : Sys) : Prop :=
  AdaptiveRenderer.totalRenders (AdaptiveRenderer.metrics (rend s))
  = List.length (renderLog (world s))
  /\ (List.length (AdaptiveRenderer.renderQueue (rend s))
      <= AdaptiveRenderer.deferredRenders (AdaptiveRenderer.metrics (rend s)))%nat.

(** The action pushes with the default timestamp only, if it pushes. *)
Definition unstamped (a : Action) : bool :=
  match a with
  | Push _ ts => match ts with None => true | Some _ => false end
  | PushBatch inputs =>
      forallb (fun i => match InputBuffer.input_timestamp i with
                        | None => true
                        | Some _ => false
                        end) inputs
  | _ => true
  end.

(** The time a unit spent between arrival and the queue, as [flush]
    computes it. *)
Definition queueTime (u : InputBuffer.Unit) : Z :=
  InputBuffer.queuedAt u - InputBuffer.receivedAt u.

(** A clock that never goes back. *)
Definition monotone (clk : nat -> Z) : Prop :=
  forall i j, (i <= j)%nat -> clk i <= clk j.

End Runs.

(** ** input-worker.mjs: the capture thread

    The worker thread has its own event loop: its clock readings, its
    timers and the messages it posts to the main thread are kept with the
    three variables of the module. *)

From Stdlib Require Import DecimalString.

Module InputWorker.

Definition DELAY_WARNING_THRESHOLD_MS : Z := 50.

Record Input : Type := mkInput {
  char : string;
  timestamp : Z;
  sequence : bool
}.

(** What the worker posts on [parentPort]. *)
Inductive Message : Type :=
| Ready
| InputBatch (inputs : list Input) (batchTimestamp : Z)
| DelayWarning (gap : Z) (message : string).

Record t : Type := mk {
  lastInputTime : Z;
  inputBuffer : list Input;
  flushTimeout : option nat;
  (* the thread *)
  readings : nat -> Z;     (* the readings of Date.now(), in order *)
  consumed : nat;          (* readings consumed so far *)
  scheduled : list nat;    (* pending timers, all of them [flushBuffer] after 5ms *)
  nextHandle : nat;
  posted : list Message;   (* parentPort.postMessage, oldest first *)
  isTTY : bool;
  rawMode : bool;
  flowing : bool;          (* process.stdin.resume() / pause() *)
  exited : option Z        (* process.exit(code) *)
}.

Definition set_module (l : Z) (b : list Input) (f : option nat) (st : t) : t :=
  mk l b f (readings st) (consumed st) (scheduled st) (nextHandle st) (posted st)
     (isTTY st) (rawMode st) (flowing st) (exited st).

(** [Date.now()] *)
Definition now (st : t) : Z := readings st (consumed st).

Definition tick (st : t) : t :=
  mk (lastInputTime st) (inputBuffer st) (flushTimeout st) (readings st)
     (S (consumed st)) (scheduled st) (nextHandle st) (posted st)
     (isTTY st) (rawMode st) (flowing st) (exited st).

(** [parentPort.postMessage(m)] *)
Definition postMessage (m : Message) (st : t) : t :=
  mk (lastInputTime st) (inputBuffer st) (flushTimeout st) (readings st)
     (consumed st) (scheduled st) (nextHandle st) (posted st ++ [m])
     (isTTY st) (rawMode st) (flowing st) (exited st).

(** [`${n}`] for an integer. *)
Definition decimal (n : Z) : string := NilZero.string_of_int (Z.to_int n).

(** [flushBuffer()] *)
Definition flushBuffer (st : t) : t :=
  if Nat.eqb (List.length (inputBuffer st)) 0 then st
  else
    let st1 := postMessage (InputBatch (inputBuffer st) (now st)) (tick st) in
    set_module (lastInputTime st1) [] None st1.

(** [scheduleFlush()] *)
Definition scheduleFlush (st : t) : t :=
  match flushTimeout st with
  | None =>
      mk (lastInputTime st) (inputBuffer st) (Some (nextHandle st)) (readings st)
         (consumed st) (scheduled st ++ [nextHandle st]) (S (nextHandle st)) (posted st)
         (isTTY st) (rawMode st) (flowing st) (exited st)
  | Some _ => st
  end.

(** The characters of a chunk, as [for (const char of chunk)] yields them. *)
Definition chars_of (chunk : string) : list string :=
  map (fun a => String a EmptyString) (list_ascii_of_string chunk).

(** [process.stdin.on('data', (chunk) => ...)] *)
Definition onData (chunk : string) (st : t) : t :=
  let t0 := now st in
  let st1 := tick st in
  let st2 :=
    if 0 <? lastInputTime st1 then
      let gap := t0 - lastInputTime st1 in
      if (DELAY_WARNING_THRESHOLD_MS <? gap)
         && (0 <? Z.of_nat (List.length (inputBuffer st1)))
      then postMessage
             (DelayWarning gap
                ("Input processing delayed by " ++ decimal gap ++ "ms ("
                 ++ decimal (Z.of_nat (List.length (inputBuffer st1)))
                 ++ " chars buffered)")%string)
             st1
      else st1
    else st1 in
  let pushed :=
    map (fun c => mkInput c t0 (1 <? Z.of_nat (String.length chunk))) (chars_of chunk) in
  scheduleFlush (set_module t0 (inputBuffer st2 ++ pushed) (flushTimeout st2) st2).

(** [parentPort.on('message', (msg) => ...)], [msg.type] given. *)
Definition onMessage (type : string) (st : t) : t :=
  if String.eqb type "shutdown" then
    let st1 := flushBuffer st in
    mk (lastInputTime st1) (inputBuffer st1) (flushTimeout st1) (readings st1)
       (consumed st1) (scheduled st1) (nextHandle st1) (posted st1)
       (isTTY st1) (if isTTY st1 then false else rawMode st1) false (Some 0)
  else st.

(** The module body: raw mode, [resume], [setEncoding], then [ready]. *)
Definition start (tty : bool) (clk : nat -> Z) : t :=
  mk 0 [] None clk 0 [] 0 [Ready] tty (if tty then true else false) true None.

(** What the event loop of the thread delivers. *)
Inductive Event : Type :=
| Data (chunk : string)
| Message_ (type : string)
| Timer_ (h : nat).

(** One turn of the event loop; nothing runs after [process.exit]. *)
Definition handle (e : Event) (st : t) : t :=
  match exited st with
  | Some _ => st
  | None =>
      match e with
      | Data chunk => onData chunk st
      | Message_ type => onMessage type st
      | Timer_ h =>
          if existsb (Nat.eqb h) (scheduled st) then
            flushBuffer
              (mk (lastInputTime st) (inputBuffer st) (flushTimeout st) (readings st)
                  (consumed st)
                  (filter (fun x => negb (Nat.eqb x h)) (scheduled st))
                  (nextHandle st) (posted st)
                  (isTTY st) (rawMode st) (flowing st) (exited st))
          else st
      end
  end.

Definition run (evs : list Event) (st : t) : t :=
  fold_left (fun st e => handle e st) evs st.

(** The inputs handed to the main thread so far, in order. *)
Definition delivered (st : t) : list Input :=
  flat_map (fun m => match m with InputBatch inputs _ => inputs | _ => [] end)
           (posted st).

(** The characters of the chunks among some events. *)
Definition captured (evs : list Event) : list string :=
  flat_map (fun e => match e with Data chunk => chars_of chunk | _ => [] end) evs.

Definition is_shutdown (e : Event) : bool :=
  match e with Message_ type => String.eqb type "shutdown" | _ => false end.

(** No chunk among the events is the empty string. *)
Definition no_empty_chunk (e : Event) : bool :=
  match e with
  | Data chunk => negb (Nat.eqb (String.length chunk) 0)
  | _ => true
  end.

(** The pending timers are the one the module holds the handle of, if it
    holds one; it holds one exactly while input is buffered. *)
Definition flush_scheduled (st : t) : Prop :=
  scheduled st = match flushTimeout st with Some h => [h] | None => [] end
  /\ (inputBuffer st <> [] <-> flushTimeout st <> None).

(** A message the worker may post after [ready]: a batch that is not
    empty, or a warning about a gap above the threshold. *)
Definition well_formed (m : Message) : Prop :=
  match m with
  | Ready => False
  | InputBatch inputs _ => inputs <> []
  | DelayWarning gap _ => DELAY_WARNING_THRESHOLD_MS < gap
  end.

(** The text of the chunks among some events. *)
Definition typed (evs : list Event) : string :=
  fold_right (fun e acc => match e with Data chunk => (chunk ++ acc)%string | _ => acc end)
             EmptyString evs.

(** What the main thread does with a batch: [pushBatch(msg.inputs)], each
    input read as [push(input.char, input.timestamp)]. *)
Definition to_pushBatch (m : Message) : list System.Action :=
  match m with
  | InputBatch inputs _ =>
      [System.PushBatch
         (map (fun i => InputBuffer.mkInput (InputBuffer.Str (char i)) (Some (timestamp i)))
              inputs)]
  | _ => []
  end.

End InputWorker.

(** ** claude-wrapper.mjs: forwarding buffered input to the child *)

Module ClaudeWrapper.

Definition SKIP_FLAG : string := "--dangerously-skip-permissions".

(** [args], after the default flag is added or not: [argv] is
    [process.argv], [skipPerms] is [process.env.CLAUDE2_SKIP_PERMS]. *)
Definition childArgs (argv : list string) (skipPerms : option string) : list string :=
  let args := skipn 2 argv in
  if negb (existsb (String.eqb SKIP_FLAG) args) then
    if match skipPerms with Some v => String.eqb v "1" | None => false end
    then SKIP_FLAG :: args
    else args
  else args.

Record t : Type := mk {
  inputBuffer : InputBuffer.t;
  world : World;
  written : list string;   (* claude.stdin.write(chars), oldest first *)
  stderr : list string;    (* process.stderr.write(...), at close *)
  forwarding : bool;       (* the interval is set *)
  exited : option Z        (* process.exit(code) *)
}.

(** [new InputBuffer({ delayThresholdMs: 100, typingModeDelayMs: 150, ... })] *)
Definition options : InputBuffer.Options := InputBuffer.mkOptions (Some 100) (Some 150).

Definition start (w : World) : option t :=
  match InputBuffer.new options w with
  | (Ok b, w') => Some (mk b w' [] [] true None)
  | (Throw _, _) => None
  end.

(** [process.stdin.on('data', (chunk) => { inputBuffer.push(chunk); })] *)
Definition onData (chunk : string) (st : t) : t :=
  match InputBuffer.push (InputBuffer.Str chunk) None (inputBuffer st) (world st) with
  | (_, b, w) => mk b w (written st) (stderr st) (forwarding st) (exited st)
  end.

(** [if (chars && claude.stdin.writable) claude.stdin.write(chars)]: the
    call is recorded; what becomes of the write afterwards (an ['error'] of
    the stream) is outside the model. *)
Definition forwardChars (chars : string) (writable : bool) (out : list string)
  : list string :=
  if negb (Nat.eqb (String.length chars) 0) && writable then out ++ [chars] else out.

(** The callback of [setInterval(..., 10)]; [writable] is
    [claude.stdin.writable] at that moment. *)
Definition forward (writable : bool) (st : t) : t :=
  match InputBuffer.size (inputBuffer st) (world st) with
  | (Ok n, b1, w1) =>
      if 0 <? n then
        match InputBuffer.flush b1 w1 with
        | (Ok r, b2, w2) =>
            mk b2 w2 (forwardChars (InputBuffer.chars r) writable (written st))
               (stderr st) (forwarding st) (exited st)
        | (Throw _, b2, w2) =>
            mk b2 w2 (written st) (stderr st) (forwarding st) (exited st)
        end
      else mk b1 w1 (written st) (stderr st) (forwarding st) (exited st)
  | (Throw _, b1, w1) => mk b1 w1 (written st) (stderr st) (forwarding st) (exited st)
  end.

(** [claude.on('close', (code) => ...)]; [writable] is
    [claude.stdin.writable] at that moment, which is false once the child's
    streams are closed, and [debug] is whether [process.env.CLAUDE2_DEBUG]
    is set. *)
Definition onClose (code : option Z) (writable debug : bool) (st : t) : t :=
  match InputBuffer.flush (inputBuffer st) (world st) with
  | (Ok r, b, w) =>
      let out := forwardChars (InputBuffer.chars r) writable (written st) in
      let err :=
        if debug then
          match InputBuffer.getMetrics b w with
          | (Ok m, _, _) =>
              stderr st
              ++ [String "010" "[claude-wrapper] Session metrics:" ++ String "010" "";
                  "  Total inputs: " ++ InputWorker.decimal (InputBuffer.totalInputs m)
                  ++ String "010" "";
                  "  Delay events: " ++ InputWorker.decimal (InputBuffer.delayEvents m)
                  ++ String "010" "";
                  "  Max delay: " ++ InputWorker.decimal (InputBuffer.maxDelay m)
                  ++ "ms" ++ String "010" ""]%string
          | (Throw _, _, _) => stderr st
          end
        else stderr st in
      mk b w out err false (Some (nullish code 0))
  | (Throw _, b, w) => mk b w (written st) (stderr st) false (exited st)
  end.

(** What the event loop delivers. *)
Inductive Event : Type :=
| Data (chunk : string)
| Tick (writable : bool)
| Close (code : option Z) (writable debug : bool)
| TypingTimer (h : nat).

Definition handle (e : Event) (st : t) : t :=
  match exited st with
  | Some _ => st
  | None =>
      match e with
      | Data chunk => onData chunk st
      | Tick writable => if forwarding st then forward writable st else st
      | Close code writable debug => onClose code writable debug st
      | TypingTimer h =>
          match find (fun x => Nat.eqb (tid x) h) (timers (world st)) with
          | None => st
          | Some _ =>
              match InputBuffer.typingModeOff (inputBuffer st)
                                              (world_cancel h (world st)) with
              | (_, b, w) => mk b w (written st) (stderr st) (forwarding st) (exited st)
              end
          end
      end
  end.

Definition run (evs : list Event) (st : t) : t :=
  fold_left (fun st e => handle e st) evs st.

End ClaudeWrapper.

(** ** stress-test.mjs: the two loops that push and flush *)

Module StressTest.
Import System.

Definition TEST_STRING : string := "The quick brown fox jumps over the lazy dog. ".
Definition REPEAT_COUNT : nat := 10.

(** [s.repeat(n)] *)
Fixpoint repeat_string (s : string) (n : nat) : string :=
  match n with
  | O => EmptyString
  | S n' => (s ++ repeat_string s n')%string
  end.

(** One turn of the loop, at index [i] with [fullInput[i] = c]: the push,
    the pause every [pauseEvery] characters (not at 0), during which the
    timers [fires i] fire, and the flush every [flushEvery] characters. *)
Definition turn (flushEvery pauseEvery : nat) (fires : nat -> list nat)
  (i : nat) (c : ascii) : list Action :=
  [Push (InputBuffer.Str (String c EmptyString)) None]
  ++ (if Nat.eqb (Nat.modulo i pauseEvery) 0 && negb (Nat.eqb i 0)
      then map Fire (fires i) else [])
  ++ (if Nat.eqb (Nat.modulo i flushEvery) 0 then [Flush] else []).

(** [for (let i = 0; i < fullInput.length; i++) { ... }], from index [i]. *)
Fixpoint loop (flushEvery pauseEvery : nat) (fires : nat -> list nat)
  (cs : list ascii) (i : nat) : list Action :=
  match cs with
  | [] => []
  | c :: cs' =>
      turn flushEvery pauseEvery fires i c ++ loop flushEvery pauseEvery fires cs' (S i)
  end.

(** Test 1, [testBufferBehavior]: flush every 10 characters, pause every
    50, then the final flush. *)
Definition testBufferBehavior (fires : nat -> list nat) (fullInput : string)
  : list Action :=
  loop 10 50 fires (list_ascii_of_string fullInput) 0 ++ [Flush].

(** Test 4, [testComparison], scenario B: flush and pause every 20
    characters, then the final flush. *)
Definition testComparison (fires : nat -> list nat) (fullInput : string)
  : list Action :=
  loop 20 20 fires (list_ascii_of_string fullInput) 0 ++ [Flush].

(** [processedChars], the [chars] of every flush appended. *)
Definition processedChars (acts : list Action) (s0 : Sys) : string :=
  InputBuffer.join (Runs.flushed acts s0).

End StressTest.

(** * Properties *)

(** ** Reasoning about methods *)

Lemma bind_Ok {T A B} (c : M T A) (k : A -> M T B) t w a t' w' :
  c t w = (Ok a, t', w') -> bind c k t w = k a t' w'.
Proof. intros H. unfold bind. rewrite H. reflexivity. Qed.

Lemma bind_Throw {T A B} (c : M T A) (k : A -> M T B) t w e t' w' :
  c t w = (Throw e, t', w') -> bind c k t w = (Throw e, t', w').
Proof. intros H. unfold bind. rewrite H. reflexivity. Qed.

Lemma advance_tick n w : advance n (world_tick w) = advance (S n) w.
Proof. unfold advance, world_tick. simpl. f_equal. lia. Qed.

Lemma advance_0 w : advance 0 w = w.
Proof. destruct w. reflexivity. Qed.

(** ** The input buffer *)

Module BufferFacts.
Import InputBuffer BufferSteps.

Lemma stamped_chars ts cs clk n : map char (stamped ts cs clk n) = cs.
Proof.
  revert n. induction cs as [|c cs IH]; intros n; simpl; [reflexivity|].
  now rewrite IH.
Qed.

Lemma stamped_length ts cs clk n : List.length (stamped ts cs clk n) = List.length cs.
Proof. rewrite <- (stamped_chars ts cs clk n) at 2. now rewrite length_map. Qed.

Lemma push_loop ts cs : forall b w,
  for_of cs (fun c =>
    q <- Date_now ;;
    modify (fun b => set_buffer (buffer b ++ [mkUnit c ts q]) b)) b w
  = (Ok tt, set_buffer (buffer b ++ stamped ts cs (clock w) (ticks w)) b,
     advance (List.length cs) w).
Proof.
  induction cs as [|c cs IH]; intros b w.
  - simpl. unfold ret. rewrite app_nil_r, advance_0. destruct b; reflexivity.
  - cbn [for_of]. erewrite bind_Ok by reflexivity.
    rewrite IH. cbn [List.length]. rewrite advance_tick.
    destruct b; unfold set_buffer; cbn. now rewrite <- app_assoc.
Qed.

Lemma push_eq d ts b w :
  push d ts b w = (Ok tt, push_this d ts b w, push_world d ts b w).
Proof.
  unfold push, push_this, push_world.
  destruct ts as [v|].
  - erewrite bind_Ok by reflexivity.
    erewrite bind_Ok by apply push_loop.
    destruct b as [bf lp th m tm li [h|] td], tm; reflexivity.
  - erewrite bind_Ok by reflexivity.
    erewrite bind_Ok by apply push_loop.
    destruct b as [bf lp th m tm li [h|] td], tm; reflexivity.
Qed.

Lemma flush_eq b w :
  flush b w = (Ok (flush_value b w), flush_this b w, flush_world b w).
Proof.
  unfold flush, flush_value, flush_this, flush_world, flush_metrics, flush_info.
  erewrite bind_Ok by reflexivity.
  erewrite bind_Ok by reflexivity.
  unfold delayed.
  destruct ((delayThresholdMs b <? clock w (ticks w) - lastProcessTime b)
            && (0 <? Z.of_nat (List.length (buffer b)))); reflexivity.
Qed.

Lemma peek_eq b w : peek b w = (Ok (join (map char (buffer b))), b, w).
Proof. reflexivity. Qed.

Lemma join_app xs ys : join (xs ++ ys) = (join xs ++ join ys)%string.
Proof.
  induction xs as [|x xs IH]; simpl; [reflexivity|].
  rewrite IH. clear IH. induction x as [|a x IHx]; simpl; [reflexivity|].
  now rewrite IHx.
Qed.

Lemma pushBatch_chars inputs : forall b w,
  exists b' w',
    pushBatch inputs b w = (Ok tt, b', w')
    /\ map char (buffer b')
       = map char (buffer b) ++ flat_map (fun i => split_chars (input_char i)) inputs.
Proof.
  induction inputs as [|i inputs IH]; intros b w.
  - exists b, w. split; [reflexivity|]. simpl. now rewrite app_nil_r.
  - destruct (IH (push_this (input_char i) (input_timestamp i) b w)
                 (push_world (input_char i) (input_timestamp i) b w))
      as (b' & w' & E & C).
    exists b', w'. split.
    + unfold pushBatch in *. cbn [for_of].
      erewrite bind_Ok by apply push_eq. exact E.
    + rewrite C. cbn [push_this buffer flat_map].
      now rewrite map_app, stamped_chars, app_assoc.
Qed.

Lemma max_of_snoc l d :
  fold_right Z.max 0 (l ++ [d]) = Z.max (fold_right Z.max 0 l) d.
Proof.
  induction l as [|x l IH]; simpl.
  - apply Z.max_comm.
  - rewrite IH. now rewrite Z.max_assoc.
Qed.

Lemma delayed_true b now :
  delayed b now = true
  <-> buffer b <> [] /\ delayThresholdMs b < now - lastProcessTime b.
Proof.
  unfold delayed. rewrite andb_true_iff, Z.ltb_lt, Z.ltb_lt.
  destruct (buffer b) as [|u l]; simpl List.length.
  - split; [intros [_ H]; lia | intros [H _]; congruence].
  - split; [intros [H _]; split; [discriminate|exact H]
           | intros [_ H]; split; [exact H|lia]].
Qed.

Lemma flush_keeps_accounted b w :
  delays_accounted b w -> delays_accounted (flush_this b w) (flush_world b w).
Proof.
  unfold delays_accounted, flush_this, flush_world, flush_metrics, flush_info.
  cbv zeta. cbn [metrics delayLog].
  destruct (delayed b (clock w (ticks w))); cbn; [|tauto].
  intros [H1 H2]. rewrite H1, H2, length_app, map_app.
  cbn [map List.length info_delay]. rewrite max_of_snoc.
  split; [lia|reflexivity].
Qed.

(** C4. [flush] always reports [delay = now - lastProcessTime].  When the
    queue is not empty and the delay exceeds [delayThresholdMs] it adds one
    to [delayEvents], sets [maxDelay] to the larger of [maxDelay] and the
    delay, and calls [onDelayDetected] once, with the delay, the number of
    buffered units and the timestamp; otherwise, and so whenever the queue is
    empty, it leaves [delayEvents] and [maxDelay] alone and does not call the
    callback.  Either way, if [delayEvents] counted the notifications so far
    and [maxDelay] was the largest delay notified, they still are. *)
Theorem flush_delay_accounting (b : t) (w : World) :
  let now := clock w (ticks w) in
  let d := now - lastProcessTime b in
  exists r b' w',
    flush b w = (Ok r, b', w')
    /\ delay r = d
    /\ (buffer b <> [] /\ delayThresholdMs b < d ->
        delayEvents (metrics b') = delayEvents (metrics b) + 1
        /\ maxDelay (metrics b') = Z.max (maxDelay (metrics b)) d
        /\ delayLog w'
           = delayLog w ++ [mkDelayInfo d (Z.of_nat (List.length (buffer b))) now])
    /\ (~ (buffer b <> [] /\ delayThresholdMs b < d) ->
        delayEvents (metrics b') = delayEvents (metrics b)
        /\ maxDelay (metrics b') = maxDelay (metrics b)
        /\ delayLog w' = delayLog w)
    /\ (buffer b = [] ->
        delayEvents (metrics b') = delayEvents (metrics b) /\ delayLog w' = delayLog w)
    /\ (delays_accounted b w -> delays_accounted b' w').
Proof.
  cbv zeta. eexists _, _, _. rewrite flush_eq.
  split; [reflexivity|]. split; [reflexivity|].
  pose proof (delayed_true b (clock w (ticks w))) as D.
  unfold delays_accounted, flush_this, flush_world, flush_metrics, flush_info.
  cbv zeta. cbn [metrics delayLog].
  destruct (delayed b (clock w (ticks w))) eqn:E.
  - assert (H : buffer b <> [] /\ delayThresholdMs b < clock w (ticks w) - lastProcessTime b)
      by now apply D.
    cbn. split; [intros _; repeat split; reflexivity|].
    split; [tauto|]. split; [intros Hb; destruct H as [H _]; congruence|].
    intros A. pose proof (flush_keeps_accounted b w A) as K.
    unfold delays_accounted, flush_this, flush_world, flush_metrics, flush_info in K.
    cbv zeta in K. cbn [metrics delayLog] in K. rewrite E in K. exact K.
  - assert (H : ~ (buffer b <> [] /\ delayThresholdMs b < clock w (ticks w) - lastProcessTime b))
      by (intros H; apply D in H; congruence).
    cbn. split; [tauto|]. split; [intros _; repeat split; reflexivity|].
    split; [intros _; split; reflexivity|].
    intros A. pose proof (flush_keeps_accounted b w A) as K.
    unfold delays_accounted, flush_this, flush_world, flush_metrics, flush_info in K.
    cbv zeta in K. cbn [metrics delayLog] in K. rewrite E in K. exact K.
Qed.

(** A buffer constructed at 1000 holding one unit, flushed at 1100 with the
    default threshold of 50: one delay event of 100. *)
Lemma flush_delay_accounting_witness :
  exists r b' w',
    flush (mk [mkUnit "a" 1000 1000] 1000 50 zeroMetrics true 1000 None 100)
          (mkWorld (fun _ => 1100) 0 [] 0 [] []) = (Ok r, b', w')
    /\ delayEvents (metrics b') = 1
    /\ maxDelay (metrics b') = 100
    /\ delayLog w' = [mkDelayInfo 100 1 1100].
Proof.
  destruct (flush_delay_accounting
              (mk [mkUnit "a" 1000 1000] 1000 50 zeroMetrics true 1000 None 100)
              (mkWorld (fun _ => 1100) 0 [] 0 [] []))
    as (r & b' & w' & E & _ & H & _).
  exists r, b', w'. split; [exact E|].
  apply H. split; [discriminate|reflexivity].
Defined.

(** What [flush] leaves in [avgProcessingTime] when no input is counted:
    the guard [|| 0] catches [0 / 0] and nothing else. *)
Lemma flush_avgProcessingTime_no_inputs (b : t) (w : World) :
  totalInputs (metrics b) = 0 ->
  let p := totalProcessingTime (metrics b)
           + (clock w (S (ticks w)) - clock w (ticks w)) in
  avgProcessingTime (metrics (flush_this b w))
  = if p =? 0 then Finite 0 else if 0 <? p then PosInfinity else NegInfinity.
Proof.
  intros H. cbv zeta. unfold flush_this, flush_metrics. cbv zeta.
  destruct (delayed b (clock w (ticks w))); cbn; rewrite H; unfold js_div; cbn;
    destruct (_ =? 0); [reflexivity| |reflexivity|]; destruct (0 <? _); reflexivity.
Qed.

(** [flush] on an empty queue returns [avgQueueTime = 0]. *)
Lemma flush_empty_avgQueueTime (b : t) (w : World) :
  buffer b = [] -> avgQueueTime (flush_value b w) = Finite 0.
Proof. intros H. unfold flush_value. rewrite H. reflexivity. Qed.

(** C7, at the input where the code departs from it.  A unit is pushed,
    the metrics are reset, and 100ms later [flush] runs, the callback taking
    5ms: [totalInputs] is 0, [totalProcessingTime] becomes 5, and
    [5 / 0 || 0] is [Infinity], not 0. *)
Theorem avgProcessingTime_infinite_after_reset :
  let clk := fun n => if (n <? 4)%nat then 1000 else if (n =? 4)%nat then 1100 else 1105 in
  let w0 := mkWorld clk 1 [] 0 [] [] in
  let b0 := mk [] 1000 50 zeroMetrics false 0 None 100 in
  new noOptions (mkWorld clk 0 [] 0 [] []) = (Ok b0, w0)
  /\ exists b1 w1 b2 w2 r b3 w3,
       push (Str "a") None b0 w0 = (Ok tt, b1, w1)
       /\ resetMetrics b1 w1 = (Ok tt, b2, w2)
       /\ flush b2 w2 = (Ok r, b3, w3)
       /\ totalInputs (metrics b3) = 0
       /\ totalProcessingTime (metrics b3) = 5
       /\ avgProcessingTime (metrics b3) = PosInfinity.
Proof.
  cbv zeta. split; [reflexivity|].
  eexists _, _, _, _, _, _, _.
  split; [apply push_eq|]. split; [reflexivity|].
  split; [apply flush_eq|]. repeat split.
Qed.

(** C9, the scenario as the code runs it.  The buffer is constructed and
    ["abc"] pushed while the clock reads [T]; the clock reads [T + d] when
    [flush] runs.  The flush returns ["abc"], count 3 and delay [d], and an
    [avgQueueTime] of 0 whatever [d] is: [queuedAt] and [receivedAt] are both
    read inside [push]. *)
Theorem push_abc_wait_flush (T d : Z) :
  let clk := fun n => if (n <=? 5)%nat then T else T + d in
  exists b0 w0 b1 w1 r b2 w2,
    new noOptions (mkWorld clk 0 [] 0 [] []) = (Ok b0, w0)
    /\ push (Str "abc") None b0 w0 = (Ok tt, b1, w1)
    /\ flush b1 w1 = (Ok r, b2, w2)
    /\ chars r = "abc"%string
    /\ count r = 3
    /\ delay r = d
    /\ avgQueueTime r = Finite 0.
Proof.
  cbv zeta. eexists _, _, _, _, _, _, _.
  split; [reflexivity|]. split; [apply push_eq|]. split; [apply flush_eq|].
  cbn. rewrite !Z.sub_diag. repeat split. lia.
Qed.

End BufferFacts.

(** ** The render scheduler *)

Module SchedulerFacts.
Import AdaptiveRenderer SchedulerSteps.

Lemma executeRender_eq f r w :
  executeRender f r w = (outcome f, execute_this r w, execute_world f w).
Proof.
  unfold executeRender, outcome, execute_this, execute_world, render_duration.
  erewrite bind_Ok by reflexivity.
  unfold try_finally, call. destruct (raises f); reflexivity.
Qed.

Lemma render_loop es : forall r w,
  for_of es (fun e => executeRender (renderFn e)) r w = render_all es r w.
Proof.
  induction es as [|e es IH]; intros r w; [reflexivity|].
  cbn [for_of render_all]. unfold bind. rewrite executeRender_eq. unfold outcome.
  destruct (raises (renderFn e)); [reflexivity|]. apply IH.
Qed.

Lemma flushDeferred_eq r w : flushDeferred r w = flushDeferred_steps r w.
Proof.
  unfold flushDeferred, flushDeferred_steps, flush_cancel.
  erewrite bind_Ok by reflexivity.
  destruct r as [it md mr li lr [h|] q ty tm m]; cbn;
    (destruct q as [|e q]; [reflexivity|]);
    cbn [List.length Nat.eqb];
    erewrite bind_Ok by reflexivity;
    erewrite bind_Ok by reflexivity;
    unfold bind; cbn [renderQueue set_renderQueue set_deferredRender];
    rewrite render_loop;
    destruct (render_all _ _ _) as [[[u|x] r2] w2]; reflexivity.
Qed.

Lemma idleElapsed_eq r w :
  idleElapsed r w = flushDeferred (set_isTyping false r) w.
Proof. reflexivity. Qed.

Lemma deferRender_eq f p r w :
  deferRender f p r w = (Ok tt, defer_this f p r w, defer_world r w).
Proof.
  unfold deferRender, defer_this, defer_world.
  destruct r as [it md mr li lr [h|] q ty tm m]; reflexivity.
Qed.

Lemma onInput_eq r w : onInput r w = (Ok tt, onInput_this r w, onInput_world r w).
Proof.
  unfold onInput, onInput_this, onInput_world.
  destruct r as [it md mr li lr dr q ty [h|] m]; reflexivity.
Qed.

Lemma requestRender_eq f o r w :
  requestRender f o r w =
  match nullish o normal with
  | high => executeRender f r (world_tick w)
  | p => if typing r (clock w (ticks w))
         then deferRender f p r (world_tick w)
         else executeRender f r (world_tick w)
  end.
Proof.
  unfold requestRender, typing.
  destruct (nullish o normal); try reflexivity;
    (unfold bind at 1; cbn; unfold bind at 1; cbn;
     destruct (isTyping r && _); reflexivity).
Qed.

(** *** The comparator and the sort *)

Lemma priorityOrder_inj p q : priorityOrder p = priorityOrder q -> p = q.
Proof. destruct p, q; simpl; intros H; try reflexivity; discriminate. Qed.

Lemma compare_le a b : compare a b <= 0 <-> entry_le a b.
Proof.
  unfold compare, entry_le.
  destruct (priorityOrder (priority a) - priorityOrder (priority b) =? 0) eqn:E; simpl.
  - apply Z.eqb_eq in E.
    assert (P : priority a = priority b) by (apply priorityOrder_inj; lia).
    split; [intros H; right; split; [exact P|lia] | intros [H|[_ H]]; lia].
  - apply Z.eqb_neq in E.
    split; [intros H; left; lia | intros [H|[H _]]; [lia|rewrite H in E; lia]].
Qed.

Lemma compare_gt a b : 0 < compare a b -> entry_le b a.
Proof.
  unfold compare, entry_le.
  destruct (priorityOrder (priority a) - priorityOrder (priority b) =? 0) eqn:E; simpl.
  - apply Z.eqb_eq in E.
    assert (P : priority b = priority a) by (apply priorityOrder_inj; lia).
    intros H. right. split; [exact P|lia].
  - intros H. left. lia.
Qed.

Lemma entry_le_trans a b c : entry_le a b -> entry_le b c -> entry_le a c.
Proof.
  unfold entry_le. intros [H1|[H1 H1']] [H2|[H2 H2']].
  - left; lia.
  - left; rewrite <- H2; exact H1.
  - left; rewrite H1; exact H2.
  - right; split; [congruence|lia].
Qed.

Lemma insert_perm x l : Permutation (insert compare x l) (x :: l).
Proof.
  induction l as [|y l IH]; simpl; [reflexivity|].
  destruct (compare x y <=? 0); [reflexivity|].
  rewrite IH. apply perm_swap.
Qed.

Lemma sort_perm l : Permutation (sort compare l) l.
Proof.
  induction l as [|x l IH]; simpl; [reflexivity|].
  rewrite insert_perm. now constructor.
Qed.

Lemma insert_sorted x l :
  StronglySorted entry_le l -> StronglySorted entry_le (insert compare x l).
Proof.
  induction 1 as [|y l S IH F]; simpl.
  - constructor; constructor.
  - destruct (compare x y <=? 0) eqn:E.
    + apply Z.leb_le, compare_le in E.
      constructor; [constructor; assumption|].
      constructor; [exact E|].
      eapply Forall_impl; [|exact F]. intros z Hz. eapply entry_le_trans; eassumption.
    + apply Z.leb_gt, compare_gt in E.
      constructor; [exact IH|].
      eapply Permutation_Forall; [symmetry; apply insert_perm|].
      constructor; assumption.
Qed.

Lemma sort_sorted l : StronglySorted entry_le (sort compare l).
Proof.
  induction l as [|x l IH]; simpl; [constructor|]. now apply insert_sorted.
Qed.

Lemma tied_compare p q x y :
  tied p q x = true -> tied p q y = true -> compare x y = 0.
Proof.
  unfold tied, compare. rewrite !andb_true_iff, !Z.eqb_eq.
  intros [H1 H2] [H3 H4]. rewrite H1, H3, H2, H4, !Z.sub_diag. reflexivity.
Qed.

Lemma insert_tied p q x l :
  filter (tied p q) (insert compare x l)
  = if tied p q x then x :: filter (tied p q) l else filter (tied p q) l.
Proof.
  induction l as [|y l IH]; simpl; [reflexivity|].
  destruct (compare x y <=? 0) eqn:E; [reflexivity|].
  simpl. rewrite IH.
  destruct (tied p q x) eqn:Tx, (tied p q y) eqn:Ty; try reflexivity.
  apply Z.leb_gt in E. rewrite (tied_compare p q x y Tx Ty) in E. lia.
Qed.

Lemma sort_stable p q l : filter (tied p q) (sort compare l) = filter (tied p q) l.
Proof.
  induction l as [|x l IH]; simpl; [reflexivity|].
  rewrite insert_tied, IH. reflexivity.
Qed.

(** *** The loop of [flushDeferred] *)

Lemma reached_all es :
  Forall (fun e => raises (renderFn e) = false) es -> reached es = es.
Proof.
  induction 1 as [|e es H _ IH]; simpl; [reflexivity|]. now rewrite H, IH.
Qed.

Lemma render_all_preserves (P : t -> World -> Prop) :
  (forall f r w, P r w -> P (execute_this r w) (execute_world f w)) ->
  forall es r w, P r w ->
    P (snd (fst (render_all es r w))) (snd (render_all es r w)).
Proof.
  intros step es. induction es as [|e es IH]; intros r w H; simpl; [exact H|].
  destruct (raises (renderFn e)); simpl; [now apply step|].
  apply IH. now apply step.
Qed.

Lemma render_all_log es : forall r w,
  renderLog (snd (render_all es r w))
  = renderLog w ++ map (fun e => label (renderFn e)) (reached es).
Proof.
  induction es as [|e es IH]; intros r w; simpl; [now rewrite app_nil_r|].
  destruct (raises (renderFn e)); simpl; [reflexivity|].
  rewrite IH. simpl. now rewrite <- app_assoc.
Qed.

Lemma render_all_returns es : forall r w,
  Forall (fun e => raises (renderFn e) = false) es ->
  fst (fst (render_all es r w)) = Ok tt.
Proof.
  induction es as [|e es IH]; intros r w H; simpl; [reflexivity|].
  inversion H as [|? ? He Hes]; subst. rewrite He. now apply IH.
Qed.

Lemma render_all_queue es : forall r w,
  renderQueue (snd (fst (render_all es r w))) = renderQueue r
  /\ deferredRender (snd (fst (render_all es r w))) = deferredRender r.
Proof.
  intros r w.
  apply (render_all_preserves
           (fun r' _ => renderQueue r' = renderQueue r
                        /\ deferredRender r' = deferredRender r)); [|now split].
  intros f r0 w0 H. exact H.
Qed.

(** *** [flushDeferred] and [requestRender] *)

Lemma flush_cancel_log r w : renderLog (flush_cancel r w) = renderLog w.
Proof. unfold flush_cancel. destruct (deferredRender r); reflexivity. Qed.

Lemma flushDeferred_log r w :
  renderLog (snd (flushDeferred r w))
  = renderLog w
    ++ map (fun e => label (renderFn e)) (reached (sort compare (renderQueue r))).
Proof.
  rewrite flushDeferred_eq. unfold flushDeferred_steps.
  destruct (renderQueue r) as [|e q] eqn:Q.
  - simpl. now rewrite flush_cancel_log, app_nil_r.
  - rewrite <- (flush_cancel_log r w).
    rewrite <- (render_all_log (sort compare (e :: q))
                  (set_renderQueue (sort compare (e :: q)) (set_deferredRender None r))).
    destruct (render_all _ _ _) as [[[u|x] r2] w2]; reflexivity.
Qed.

Lemma flushDeferred_returns r w :
  Forall (fun e => raises (renderFn e) = false) (renderQueue r) ->
  exists r' w',
    flushDeferred r w = (Ok tt, r', w')
    /\ renderQueue r' = [] /\ deferredRender r' = None.
Proof.
  intros NR. rewrite flushDeferred_eq. unfold flushDeferred_steps.
  destruct (renderQueue r) as [|e q] eqn:Q.
  - eexists _, _. split; [reflexivity|]. destruct r; simpl in *. now split.
  - set (sq := sort compare (e :: q)).
    set (r1 := set_renderQueue sq (set_deferredRender None r)).
    set (w1 := flush_cancel r w).
    assert (NS : Forall (fun e => raises (renderFn e) = false) sq)
      by (eapply Permutation_Forall; [symmetry; apply sort_perm|exact NR]).
    pose proof (render_all_returns sq r1 w1 NS) as R.
    pose proof (render_all_queue sq r1 w1) as [_ D].
    destruct (render_all sq r1 w1) as [[res r2] w2]. simpl in R, D. subst res.
    eexists _, _. split; [reflexivity|]. split; [reflexivity|].
    simpl. rewrite D. reflexivity.
Qed.

(** C3, amended.  [sort] with the comparator of [flushDeferred] rearranges
    the queue by priority, [high] before [normal] before [low], and by
    [queuedAt] within a priority, entries that tie on both keeping their
    queue order.  [flushDeferred] calls the render functions in that order,
    up to the first that raises; when none raises it calls them all and
    leaves the queue empty.  [requestRender] with priority [normal] or [low] (or none
    given), while [isTyping] holds and less than [idleThresholdMs] passed
    since the last input, calls nothing and appends the entry to the queue.
    The queue [low@t0, high@t1, normal@t2] is flushed as
    [high@t1, normal@t2, low@t0]. *)
Theorem flushDeferred_priority_order (r : t) (w : World) :
  let q := renderQueue r in
  let called := map (fun e => label (renderFn e)) in
  Permutation (sort compare q) q
  /\ StronglySorted entry_le (sort compare q)
  /\ (forall p a, filter (tied p a) (sort compare q) = filter (tied p a) q)
  /\ renderLog (snd (flushDeferred r w))
     = renderLog w ++ called (reached (sort compare q))
  /\ (Forall (fun e => raises (renderFn e) = false) q ->
      exists r' w',
        flushDeferred r w = (Ok tt, r', w')
        /\ renderLog w' = renderLog w ++ called (sort compare q)
        /\ renderQueue r' = [])
  /\ (forall f o,
        nullish o normal <> high ->
        isTyping r = true ->
        clock w (ticks w) - lastInputTime r < idleThresholdMs r ->
        exists r' w',
          requestRender f o r w = (Ok tt, r', w')
          /\ renderLog w' = renderLog w
          /\ renderQueue r'
             = q ++ [mkEntry f (nullish o normal) (clock w (S (ticks w)))]
          /\ totalRenders (metrics r') = totalRenders (metrics r))
  /\ (forall fl fh fn t0 t1 t2,
        sort compare [mkEntry fl low t0; mkEntry fh high t1; mkEntry fn normal t2]
        = [mkEntry fh high t1; mkEntry fn normal t2; mkEntry fl low t0]).
Proof.
  cbv zeta.
  split; [apply sort_perm|]. split; [apply sort_sorted|].
  split; [intros p a; apply sort_stable|].
  split; [apply flushDeferred_log|]. split; [|split].
  - intros NR. destruct (flushDeferred_returns r w NR) as (r' & w' & E & Q & _).
    exists r', w'. split; [exact E|]. split; [|exact Q].
    pose proof (flushDeferred_log r w) as L. rewrite E in L. simpl in L.
    rewrite L, reached_all; [reflexivity|].
    eapply Permutation_Forall; [symmetry; apply sort_perm|exact NR].
  - intros f o NH T I.
    assert (Ty : typing r (clock w (ticks w)) = true)
      by (unfold typing; rewrite T; simpl; now apply Z.ltb_lt).
    rewrite requestRender_eq, Ty.
    destruct (nullish o normal) eqn:N; [congruence| |];
      rewrite deferRender_eq; eexists _, _; (split; [reflexivity|]);
      (split; [unfold defer_world; destruct (deferredRender r); reflexivity|]);
      split; reflexivity.
  - intros. reflexivity.
Qed.

(** Two entries queued in the order low, high: the flush calls the high one
    first; a [normal] request made 10ms after the last input is queued. *)
Lemma flushDeferred_priority_order_witness :
  let f1 := mkRenderFn 1 false in
  let f2 := mkRenderFn 2 false in
  let r := mk 50 200 100 1000 0 None [mkEntry f1 low 1000; mkEntry f2 high 1001]
              true None (mkMetrics 0 2 0 (inject_Z 0) 0) in
  let w := mkWorld (fun _ => 1010) 0 [] 0 [] [] in
  (exists r' w',
     flushDeferred r w = (Ok tt, r', w')
     /\ renderLog w' = [2%nat; 1%nat] /\ renderQueue r' = [])
  /\ (exists r' w',
        requestRender (mkRenderFn 3 false) None r w = (Ok tt, r', w')
        /\ renderLog w' = []
        /\ renderQueue r' = [mkEntry f1 low 1000; mkEntry f2 high 1001;
                              mkEntry (mkRenderFn 3 false) normal 1010]
        /\ totalRenders (metrics r') = 0%nat).
Proof.
  cbv zeta.
  destruct (flushDeferred_priority_order
              (mk 50 200 100 1000 0 None
                  [mkEntry (mkRenderFn 1 false) low 1000;
                   mkEntry (mkRenderFn 2 false) high 1001]
                  true None (mkMetrics 0 2 0 (inject_Z 0) 0))
              (mkWorld (fun _ => 1010) 0 [] 0 [] []))
    as (_ & _ & _ & _ & F & R & _).
  split.
  - apply F. repeat constructor.
  - apply (R (mkRenderFn 3 false) None); [discriminate|reflexivity|reflexivity].
Defined.

(** C3, at a queue with an entry that raises.  During typing a [low]
    render and two [normal] renders are deferred, the first [normal] one of
    which raises.  [flushDeferred] sorts the queue, calls that one, and
    leaves with its exception: the other two are not called and the queue is
    not emptied. *)
Lemma raising_entry_ends_the_flush :
  let fa := mkRenderFn 1 false in
  let fb := mkRenderFn 2 true in
  let fc := mkRenderFn 3 false in
  let r0 := mk 50 200 100 0 0 None [] false None (mkMetrics 0 0 0 (inject_Z 0) 0) in
  let w0 := mkWorld (fun _ => 1000) 0 [] 0 [] [] in
  new noOptions w0 = (Ok r0, w0)
  /\ exists r1 w1 r2 w2 r3 w3 r4 w4 r5 w5,
       onInput r0 w0 = (Ok tt, r1, w1)
       /\ requestRender fa (Some low) r1 w1 = (Ok tt, r2, w2)
       /\ requestRender fb (Some normal) r2 w2 = (Ok tt, r3, w3)
       /\ requestRender fc (Some normal) r3 w3 = (Ok tt, r4, w4)
       /\ renderLog w4 = []
       /\ renderQueue r4
          = [mkEntry fa low 1000; mkEntry fb normal 1000; mkEntry fc normal 1000]
       /\ flushDeferred r4 w4 = (Throw 2, r5, w5)
       /\ renderLog w5 = [2%nat]
       /\ renderQueue r5
          = [mkEntry fb normal 1000; mkEntry fc normal 1000; mkEntry fa low 1000].
Proof.
  cbv zeta. split; [reflexivity|].
  eexists _, _, _, _, _, _, _, _, _, _.
  repeat (split; [cbv; reflexivity|]). cbv; reflexivity.
Qed.

(** *** [executeRender] *)

(** C6. Whether the render function returns or raises, [executeRender]
    calls it once, then adds one to [totalRenders] and to
    [immediateRenders], raises [maxRenderTime] to the measured duration if
    that is larger, replaces [avgRenderTime] by
    [(avgRenderTime * (totalRenders - 1) + duration) / totalRenders] and sets
    [lastRenderTime]; an exception of the render function leaves
    [executeRender] as that exception, with the metrics updated. *)
Theorem executeRender_updates_metrics (f : RenderFn) (r : t) (w : World) :
  let duration := clock w (S (ticks w)) - clock w (ticks w) in
  exists r' w',
    executeRender f r w = ((if raises f then Throw (label f) else Ok tt), r', w')
    /\ renderLog w' = renderLog w ++ [label f]
    /\ totalRenders (metrics r') = S (totalRenders (metrics r))
    /\ immediateRenders (metrics r') = S (immediateRenders (metrics r))
    /\ maxRenderTime (metrics r') = Z.max (maxRenderTime (metrics r)) duration
    /\ Qeq (avgRenderTime (metrics r'))
           (Qdiv (Qplus (Qmult (avgRenderTime (metrics r))
                               (inject_Z (Z.of_nat (totalRenders (metrics r') - 1))))
                        (inject_Z duration))
                 (inject_Z (Z.of_nat (totalRenders (metrics r')))))
    /\ lastRenderTime r' = clock w (S (S (ticks w)))
    /\ deferredRenders (metrics r') = deferredRenders (metrics r)
    /\ renderQueue r' = renderQueue r.
Proof.
  cbv zeta. eexists _, _. rewrite executeRender_eq.
  split; [reflexivity|]. split; [reflexivity|].
  split; [reflexivity|]. split; [reflexivity|]. split; [reflexivity|].
  split; [|repeat split].
  unfold execute_this. cbn [metrics set_metrics record_render avgRenderTime totalRenders].
  unfold running_average. apply Qred_correct.
Qed.

(** *** Flushing twice *)

(** A flush that returns leaves nothing to flush: the next one changes
    neither the scheduler nor the world. *)
Lemma flushDeferred_twice r w r' w' :
  flushDeferred r w = (Ok tt, r', w') -> flushDeferred r' w' = (Ok tt, r', w').
Proof.
  intros E.
  assert (H : renderQueue r' = [] /\ deferredRender r' = None).
  { rewrite flushDeferred_eq in E. unfold flushDeferred_steps in E.
    destruct (renderQueue r) as [|e q] eqn:Q.
    - inversion E; subst. destruct r; simpl in *. now split.
    - pose proof (render_all_queue (sort compare (e :: q))
                    (set_renderQueue (sort compare (e :: q)) (set_deferredRender None r))
                    (flush_cancel r w)) as [_ D].
      destruct (render_all _ _ _) as [[[u|x] r2] w2]; [|discriminate].
      inversion E; subst. simpl in D. simpl. now rewrite D. }
  destruct H as [Q D]. rewrite flushDeferred_eq. unfold flushDeferred_steps, flush_cancel.
  rewrite Q, D. destruct r'; simpl in *. now subst.
Qed.

(** C2, at the input where the code departs from it.  Two [normal] renders
    are deferred during typing, the second of which raises.  The first
    [flushDeferred] calls both and leaves with the exception, before the
    statement that empties the queue; the second [flushDeferred] finds both
    entries still queued and calls them again. *)
Theorem deferred_entry_runs_again_after_raise :
  let fa := mkRenderFn 1 false in
  let fb := mkRenderFn 2 true in
  let r0 := mk 50 200 100 0 0 None [] false None (mkMetrics 0 0 0 (inject_Z 0) 0) in
  let w0 := mkWorld (fun _ => 1000) 0 [] 0 [] [] in
  new noOptions w0 = (Ok r0, w0)
  /\ exists r1 w1 r2 w2 r3 w3 r4 w4 r5 w5,
       onInput r0 w0 = (Ok tt, r1, w1)
       /\ requestRender fa None r1 w1 = (Ok tt, r2, w2)
       /\ requestRender fb None r2 w2 = (Ok tt, r3, w3)
       /\ renderLog w3 = []
       /\ renderQueue r3 = [mkEntry fa normal 1000; mkEntry fb normal 1000]
       /\ flushDeferred r3 w3 = (Throw 2, r4, w4)
       /\ renderLog w4 = [1%nat; 2%nat]
       /\ renderQueue r4 = [mkEntry fa normal 1000; mkEntry fb normal 1000]
       /\ flushDeferred r4 w4 = (Throw 2, r5, w5)
       /\ renderLog w5 = [1%nat; 2%nat; 1%nat; 2%nat]
       /\ count_occ Nat.eq_dec (renderLog w5) 1%nat = 2%nat.
Proof.
  cbv zeta. split; [reflexivity|].
  eexists _, _, _, _, _, _, _, _, _, _.
  repeat (split; [cbv; reflexivity|]). cbv; reflexivity.
Qed.

End SchedulerFacts.

(** ** The buffer inside the system *)

Module SystemFacts.
Import System.

Lemma buf_on_rend {A} (m : M AdaptiveRenderer.t A) s : buf (on_rend m s) = buf s.
Proof. unfold on_rend. destruct (m (rend s) (world s)) as [[r' x] w']. reflexivity. Qed.

Lemma rend_on_buf {A} (m : M InputBuffer.t A) s : rend (on_buf m s) = rend s.
Proof. unfold on_buf. destruct (m (buf s) (world s)) as [[r' x] w']. reflexivity. Qed.

Lemma fire_queued h s : queued (fire h s) = queued s.
Proof.
  unfold fire, queued.
  destruct (find _ _) as [t|]; [|reflexivity].
  destruct (kind t); [reflexivity| |]; now rewrite buf_on_rend.
Qed.

Lemma step_queued a s : a <> Flush -> queued (step a s) = queued s ++ pushed a.
Proof.
  intros NF.
  destruct a; cbn [step pushed]; try rewrite app_nil_r;
    try (unfold queued; now rewrite buf_on_rend);
    try reflexivity.
  - unfold queued, on_buf. rewrite BufferFacts.push_eq.
    cbn. now rewrite map_app, BufferFacts.stamped_chars.
  - unfold queued, on_buf.
    destruct (BufferFacts.pushBatch_chars inputs (buf s) (world s)) as (b' & w' & E & C).
    rewrite E. exact C.
  - congruence.
  - apply fire_queued.
Qed.

Lemma run_queued acts : forall s,
  ~ In Flush acts -> queued (run acts s) = queued s ++ flat_map pushed acts.
Proof.
  induction acts as [|a acts IH]; intros s NF.
  - simpl. now rewrite app_nil_r.
  - cbn [run fold_left flat_map]. fold (run acts (step a s)).
    rewrite IH by (intros H; apply NF; now right).
    rewrite step_queued by (intros ->; apply NF; now left).
    now rewrite app_assoc.
Qed.

(** C1. Whatever is pushed, by [push] or [pushBatch], between two flushes,
    and whatever else happens in between ([peek], the other read-only
    methods, [resetMetrics], the scheduler's methods, timers firing),
    [flush] returns the contents of the units in the order they were
    pushed, each once (after whatever the queue held before), and leaves
    the queue empty.  [peek] returns the same string and leaves the object
    and the world as they are, so calling it again gives the same value. *)
Theorem flush_returns_pushes_in_order (s : Sys) (acts : list Action) :
  ~ In Flush acts ->
  let s' := run acts s in
  queued s' = queued s ++ flat_map pushed acts
  /\ (exists r b' w',
        InputBuffer.flush (buf s') (world s') = (Ok r, b', w')
        /\ InputBuffer.chars r = InputBuffer.join (queued s ++ flat_map pushed acts)
        /\ InputBuffer.buffer b' = [])
  /\ (forall b w,
        InputBuffer.peek b w
        = (Ok (InputBuffer.join (map InputBuffer.char (InputBuffer.buffer b))), b, w))
  /\ step Peek s' = s'
  /\ InputBuffer.peek (buf s') (world s')
     = (Ok (InputBuffer.join (queued s ++ flat_map pushed acts)), buf s', world s').
Proof.
  intros NF s'.
  assert (Q : queued s' = queued s ++ flat_map pushed acts)
    by (apply run_queued; exact NF).
  split; [exact Q|]. split; [|split; [|split]].
  - eexists _, _, _. rewrite BufferFacts.flush_eq.
    split; [reflexivity|]. split; [|reflexivity].
    cbn. fold (queued s'). now rewrite Q.
  - intros b w. reflexivity.
  - destruct s'; reflexivity.
  - rewrite BufferFacts.peek_eq. fold (queued s'). now rewrite Q.
Qed.

(** A fresh buffer, ["ab"] and ["c"] pushed with peeks around them: the
    flush returns ["abc"]. *)
Lemma flush_returns_pushes_in_order_witness :
  exists s0 r b' w',
    boot InputBuffer.noOptions AdaptiveRenderer.noOptions (fun _ => 1000) = Some s0
    /\ (let s' := run [Push (InputBuffer.Str "ab") None; Peek;
                       Push (InputBuffer.Str "c") None; Peek; Peek] s0 in
        InputBuffer.flush (buf s') (world s') = (Ok r, b', w'))
    /\ InputBuffer.chars r = "abc"%string.
Proof.
  eexists.
  destruct (flush_returns_pushes_in_order
              (mkSys (InputBuffer.mk [] 1000 50 InputBuffer.zeroMetrics false 0 None 100)
                     (AdaptiveRenderer.mk 50 200 100 0 0 None [] false None
                        (AdaptiveRenderer.mkMetrics 0 0 0 (inject_Z 0) 0))
                     (mkWorld (fun _ => 1000) 1 [] 0 [] []))
              [Push (InputBuffer.Str "ab") None; Peek;
               Push (InputBuffer.Str "c") None; Peek; Peek])
    as (_ & (r & b' & w' & E & C & _) & _).
  - simpl. intuition discriminate.
  - exists r, b', w'. split; [reflexivity|]. split; [exact E|exact C].
Defined.

(** *** What every action preserves of the scheduler *)

Section SchedulerInvariant.

Variable P : AdaptiveRenderer.t -> Prop.
Hypothesis P_execute : forall r w, P r -> P (SchedulerSteps.execute_this r w).
Hypothesis P_defer : forall f p r w, P r -> P (SchedulerSteps.defer_this f p r w).
Hypothesis P_onInput : forall r w, P r -> P (SchedulerSteps.onInput_this r w).
Hypothesis P_deferredRender :
  forall r, P r -> P (AdaptiveRenderer.set_deferredRender None r).
Hypothesis P_renderQueue :
  forall q r, P r -> P (AdaptiveRenderer.set_renderQueue q r).
Hypothesis P_isTyping : forall r, P r -> P (AdaptiveRenderer.set_isTyping false r).

Lemma flushDeferred_keeps r w :
  P r -> P (snd (fst (AdaptiveRenderer.flushDeferred r w))).
Proof.
  intros H. rewrite SchedulerFacts.flushDeferred_eq.
  unfold SchedulerSteps.flushDeferred_steps.
  destruct (AdaptiveRenderer.renderQueue r) as [|e q]; [now apply P_deferredRender|].
  match goal with
  | |- context [SchedulerSteps.render_all ?es ?r1 ?w1] =>
      pose proof (SchedulerFacts.render_all_preserves (fun r' _ => P r')
                    (fun f r0 w0 H0 => P_execute r0 w0 H0) es r1 w1) as R;
      destruct (SchedulerSteps.render_all es r1 w1) as [[[u|x] r2] w2]
  end; simpl in *.
  - apply P_renderQueue, R, P_renderQueue, P_deferredRender, H.
  - apply R, P_renderQueue, P_deferredRender, H.
Qed.

Lemma requestRender_keeps f o r w :
  P r -> P (snd (fst (AdaptiveRenderer.requestRender f o r w))).
Proof.
  intros H. rewrite SchedulerFacts.requestRender_eq.
  destruct (nullish o AdaptiveRenderer.normal);
    [| destruct (SchedulerSteps.typing r _) | destruct (SchedulerSteps.typing r _)];
    rewrite ?SchedulerFacts.executeRender_eq, ?SchedulerFacts.deferRender_eq; simpl;
    auto.
Qed.

Lemma step_keeps a s : P (rend s) -> P (rend (step a s)).
Proof.
  intros H. destruct a; cbn [step]; try (now rewrite rend_on_buf).
  - unfold on_rend. rewrite SchedulerFacts.onInput_eq. simpl. auto.
  - unfold on_rend. pose proof (requestRender_keeps f p (rend s) (world s) H) as K.
    destruct (AdaptiveRenderer.requestRender _ _ _ _) as [[x r'] w']. exact K.
  - unfold on_rend. rewrite SchedulerFacts.deferRender_eq. simpl. auto.
  - unfold on_rend. rewrite SchedulerFacts.executeRender_eq. simpl. auto.
  - unfold on_rend. pose proof (flushDeferred_keeps (rend s) (world s) H) as K.
    destruct (AdaptiveRenderer.flushDeferred _ _) as [[x r'] w']. exact K.
  - exact H.
  - exact H.
  - unfold fire. destruct (find _ _) as [t|]; [|exact H].
    destruct (kind t).
    + now rewrite rend_on_buf.
    + unfold on_rend, AdaptiveRenderer.idleElapsed. simpl.
      unfold bind at 1. simpl.
      pose proof (flushDeferred_keeps
                    (AdaptiveRenderer.set_isTyping false (rend s))
                    (world_cancel h (world s)) (P_isTyping _ H)) as K.
      destruct (AdaptiveRenderer.flushDeferred _ _) as [[x r'] w']. exact K.
    + unfold on_rend, AdaptiveRenderer.maxDeferElapsed. simpl.
      pose proof (flushDeferred_keeps (rend s) (world_cancel h (world s)) H) as K.
      destruct (AdaptiveRenderer.flushDeferred _ _) as [[x r'] w']. exact K.
Qed.

Lemma run_keeps acts : forall s, P (rend s) -> P (rend (run acts s)).
Proof.
  induction acts as [|a acts IH]; intros s H; [exact H|].
  apply IH, step_keeps, H.
Qed.

End SchedulerInvariant.

(** C10. In every state the system reaches, [immediateRenders] equals
    [totalRenders]: the two are incremented together by [executeRender], which
    [flushDeferred] also uses for the deferred entries.  So [totalRenders] is
    never the sum of [immediateRenders] and a positive number of deferred
    renders executed. *)
Theorem immediateRenders_is_totalRenders (s : Sys) :
  reachable s ->
  AdaptiveRenderer.immediateRenders (AdaptiveRenderer.metrics (rend s))
  = AdaptiveRenderer.totalRenders (AdaptiveRenderer.metrics (rend s))
  /\ forall d : nat,
       (0 < d)%nat ->
       AdaptiveRenderer.totalRenders (AdaptiveRenderer.metrics (rend s))
       <> (d + AdaptiveRenderer.immediateRenders (AdaptiveRenderer.metrics (rend s)))%nat.
Proof.
  intros (bo & ro & clk & s0 & acts & B & ->).
  assert (E : AdaptiveRenderer.immediateRenders
                (AdaptiveRenderer.metrics (rend (run acts s0)))
              = AdaptiveRenderer.totalRenders
                  (AdaptiveRenderer.metrics (rend (run acts s0)))).
  { apply (run_keeps
             (fun r => AdaptiveRenderer.immediateRenders (AdaptiveRenderer.metrics r)
                       = AdaptiveRenderer.totalRenders (AdaptiveRenderer.metrics r))).
    - intros r w H. simpl. now rewrite H.
    - intros f p r w H. exact H.
    - intros r w H. exact H.
    - intros r H. exact H.
    - intros q r H. exact H.
    - intros r H. exact H.
    - unfold boot in B. inversion B. reflexivity. }
  split; [exact E|]. intros d Hd. rewrite E. lia.
Qed.

(** One render deferred during typing and flushed, one executed at once:
    both counters read 2. *)
Lemma immediateRenders_is_totalRenders_witness :
  exists s,
    s = run [OnInput; RequestRender (mkRenderFn 1 false) None; FlushDeferred;
             RequestRender (mkRenderFn 2 false) (Some AdaptiveRenderer.high)]
            (mkSys (InputBuffer.mk [] 1000 50 InputBuffer.zeroMetrics false 0 None 100)
                   (AdaptiveRenderer.mk 50 200 100 0 0 None [] false None
                      (AdaptiveRenderer.mkMetrics 0 0 0 (inject_Z 0) 0))
                   (mkWorld (fun _ => 1000) 1 [] 0 [] []))
    /\ AdaptiveRenderer.deferredRenders (AdaptiveRenderer.metrics (rend s)) = 1%nat
    /\ AdaptiveRenderer.totalRenders (AdaptiveRenderer.metrics (rend s)) = 2%nat
    /\ AdaptiveRenderer.immediateRenders (AdaptiveRenderer.metrics (rend s))
       = AdaptiveRenderer.totalRenders (AdaptiveRenderer.metrics (rend s)).
Proof.
  eexists. split; [reflexivity|]. split; [reflexivity|]. split; [reflexivity|].
  apply immediateRenders_is_totalRenders.
  exists InputBuffer.noOptions, AdaptiveRenderer.noOptions, (fun _ => 1000).
  eexists. eexists. split; reflexivity.
Defined.

(** *** Delay events over a run *)

Lemma push_delays d ts b w :
  BufferSteps.delays_accounted b w ->
  BufferSteps.delays_accounted (BufferSteps.push_this d ts b w)
                               (BufferSteps.push_world d ts b w).
Proof.
  unfold BufferSteps.delays_accounted, BufferSteps.push_world.
  destruct ts, (InputBuffer.typingModeTimeout b); exact (fun H => H).
Qed.

Lemma pushBatch_delays inputs : forall b w,
  BufferSteps.delays_accounted b w ->
  BufferSteps.delays_accounted
    (snd (fst (InputBuffer.pushBatch inputs b w)))
    (snd (InputBuffer.pushBatch inputs b w)).
Proof.
  induction inputs as [|i inputs IH]; intros b w H; [exact H|].
  unfold InputBuffer.pushBatch in *. cbn [for_of].
  erewrite bind_Ok by apply BufferFacts.push_eq.
  apply IH. now apply push_delays.
Qed.

Lemma flushDeferred_delayLog r w :
  delayLog (snd (AdaptiveRenderer.flushDeferred r w)) = delayLog w.
Proof.
  rewrite SchedulerFacts.flushDeferred_eq. unfold SchedulerSteps.flushDeferred_steps.
  assert (C : delayLog (SchedulerSteps.flush_cancel r w) = delayLog w)
    by (unfold SchedulerSteps.flush_cancel;
        destruct (AdaptiveRenderer.deferredRender r); reflexivity).
  destruct (AdaptiveRenderer.renderQueue r) as [|e q]; [exact C|].
  match goal with
  | |- context [SchedulerSteps.render_all ?es ?r1 ?w1] =>
      pose proof (SchedulerFacts.render_all_preserves
                    (fun _ w' => delayLog w' = delayLog w)
                    (fun f r0 w0 H0 => H0) es r1 w1 C) as R;
      destruct (SchedulerSteps.render_all es r1 w1) as [[[u|x] r2] w2]
  end; exact R.
Qed.

Lemma requestRender_delayLog f o r w :
  delayLog (snd (AdaptiveRenderer.requestRender f o r w)) = delayLog w.
Proof.
  rewrite SchedulerFacts.requestRender_eq.
  destruct (nullish o AdaptiveRenderer.normal);
    [| destruct (SchedulerSteps.typing r _) | destruct (SchedulerSteps.typing r _)];
    rewrite ?SchedulerFacts.executeRender_eq, ?SchedulerFacts.deferRender_eq;
    try reflexivity;
    unfold SchedulerSteps.defer_world;
    destruct (AdaptiveRenderer.deferredRender r); reflexivity.
Qed.

Lemma step_delays a s :
  a <> ResetMetrics ->
  BufferSteps.delays_accounted (buf s) (world s) ->
  BufferSteps.delays_accounted (buf (step a s)) (world (step a s)).
Proof.
  intros NR H. destruct s as [b r w]. cbn [buf world] in H.
  destruct a; cbn [step]; try exact H; try congruence.
  - unfold on_buf. cbn [buf rend world]. rewrite BufferFacts.push_eq.
    now apply push_delays.
  - unfold on_buf. cbn [buf rend world].
    pose proof (pushBatch_delays inputs b w H) as K.
    destruct (InputBuffer.pushBatch inputs b w) as [[x b'] w']. exact K.
  - unfold on_buf. cbn [buf rend world].
    rewrite BufferFacts.flush_eq. now apply BufferFacts.flush_keeps_accounted.
  - unfold on_rend. cbn [buf rend world]. rewrite SchedulerFacts.onInput_eq.
    unfold SchedulerSteps.onInput_world.
    destruct (AdaptiveRenderer.typingTimeout r); exact H.
  - unfold on_rend. cbn [buf rend world].
    pose proof (requestRender_delayLog f p r w) as K.
    destruct (AdaptiveRenderer.requestRender f p r w) as [[x r'] w'].
    unfold BufferSteps.delays_accounted in *. cbn [buf world snd] in *. now rewrite K.
  - unfold on_rend. cbn [buf rend world]. rewrite SchedulerFacts.deferRender_eq.
    unfold SchedulerSteps.defer_world.
    destruct (AdaptiveRenderer.deferredRender r); exact H.
  - unfold on_rend. cbn [buf rend world].
    pose proof (flushDeferred_delayLog r w) as K.
    destruct (AdaptiveRenderer.flushDeferred r w) as [[x r'] w'].
    unfold BufferSteps.delays_accounted in *. cbn [buf world snd] in *. now rewrite K.
  - unfold fire. destruct (find _ _) as [t|]; [|exact H]. cbn [buf rend world].
    destruct (kind t); [exact H| |].
    + unfold on_rend. cbn [buf rend world]. rewrite SchedulerFacts.idleElapsed_eq.
      pose proof (flushDeferred_delayLog (AdaptiveRenderer.set_isTyping false r)
                    (world_cancel h w)) as K.
      destruct (AdaptiveRenderer.flushDeferred _ _) as [[x r'] w'].
      unfold BufferSteps.delays_accounted in *. cbn [buf world snd] in *. now rewrite K.
    + unfold on_rend, AdaptiveRenderer.maxDeferElapsed. cbn [buf rend world].
      pose proof (flushDeferred_delayLog r (world_cancel h w)) as K.
      destruct (AdaptiveRenderer.flushDeferred _ _) as [[x r'] w'].
      unfold BufferSteps.delays_accounted in *. cbn [buf world snd] in *. now rewrite K.
Qed.

(** As long as the metrics are not reset, [delayEvents] is the number of
    delay notifications since construction and [maxDelay] the largest delay
    notified. *)
Lemma run_delays bo ro clk s0 acts :
  boot bo ro clk = Some s0 ->
  ~ In ResetMetrics acts ->
  BufferSteps.delays_accounted (buf (run acts s0)) (world (run acts s0)).
Proof.
  intros B NR.
  assert (H : BufferSteps.delays_accounted (buf s0) (world s0))
    by (unfold boot in B; inversion B; split; reflexivity).
  clear B. revert s0 H.
  induction acts as [|a acts IH]; intros s0 H; [exact H|].
  cbn [run fold_left]. apply IH.
  - intros K. apply NR. now right.
  - apply step_delays; [|exact H]. intros ->. apply NR. now left.
Qed.

(** *** Timers *)

Lemma TimerKind_eqb_eq a b : TimerKind_eqb a b = true <-> a = b.
Proof. destruct a, b; simpl; split; intros H; try reflexivity; discriminate. Qed.

Lemma TimerKind_eqb_refl a : TimerKind_eqb a a = true.
Proof. now apply TimerKind_eqb_eq. Qed.

Lemma TimerKind_eqb_neq a b : a <> b -> TimerKind_eqb a b = false.
Proof.
  intros H. destruct (TimerKind_eqb a b) eqn:E; [|reflexivity].
  apply TimerKind_eqb_eq in E. contradiction.
Qed.

Lemma NoDup_map_filter {A B} (f : A -> B) (p : A -> bool) l :
  NoDup (map f l) -> NoDup (map f (filter p l)).
Proof.
  induction l as [|a l IH]; simpl; intros H; [constructor|].
  inversion H as [|? ? Hn Hl]; subst.
  destruct (p a); simpl; [constructor|]; auto.
  intros Hin. apply Hn. apply in_map_iff in Hin as (x & Hx & Hin).
  apply in_map_iff. exists x. split; [exact Hx|]. now apply filter_In in Hin.
Qed.

Lemma filter_none {A} (p : A -> bool) l :
  (forall a, In a l -> p a = false) -> filter p l = [].
Proof.
  induction l as [|a l IH]; simpl; intros H; [reflexivity|].
  rewrite (H a) by now left. apply IH. intros b Hb. apply H. now right.
Qed.

Lemma same_key_short {A B} (f : A -> B) l :
  NoDup (map f l) -> (forall a b, In a l -> In b l -> f a = f b) ->
  (List.length l <= 1)%nat.
Proof.
  destruct l as [|a [|b l]]; simpl; intros N H; try lia.
  exfalso. inversion N as [|? ? Hn _]; subst. apply Hn. left.
  symmetry. apply H; [now left | right; now left].
Qed.

Section Tracked.

Variable h : TimerKind -> option nat.
Variable l : list Timer.
Variable n : nat.
Hypothesis T : tracked h l n.

Lemma tracked_ext h' : (forall k, h' k = h k) -> tracked h' l n.
Proof.
  destruct T as (T1 & T2 & T3 & T4). intros E. repeat split.
  - intros t Ht. rewrite E. now apply T1.
  - exact T2.
  - intros k x. rewrite E. apply T3.
  - intros k k' x. rewrite !E. apply T4.
Qed.

Lemma tracked_cancel x : tracked h (filter (fun t => negb (Nat.eqb (tid t) x)) l) n.
Proof.
  destruct T as (T1 & T2 & T3 & T4). repeat split; try assumption.
  - intros t Ht. apply filter_In in Ht. now apply T1.
  - now apply NoDup_map_filter.
Qed.

Lemma cancelled_kind k x :
  h k = Some x ->
  forall t, In t (filter (fun t => negb (Nat.eqb (tid t) x)) l) -> kind t <> k.
Proof.
  destruct T as (T1 & _). intros Hk t Ht Kt.
  apply filter_In in Ht as [Hin Hne]. apply T1 in Hin. rewrite Kt, Hk in Hin.
  inversion Hin; subst. now rewrite Nat.eqb_refl in Hne.
Qed.

Lemma unarmed_kind k : h k = None -> forall t, In t l -> kind t <> k.
Proof.
  destruct T as (T1 & _). intros Hk t Hin Kt.
  apply T1 in Hin. rewrite Kt, Hk in Hin. discriminate.
Qed.

Lemma tracked_arm k d :
  (forall t, In t l -> kind t <> k) ->
  tracked (upd h k (Some n)) (l ++ [mkTimer n k d]) (S n).
Proof.
  destruct T as (T1 & T2 & T3 & T4). intros Hk. unfold upd. repeat split.
  - intros t Ht. apply in_app_or in Ht as [Ht|[<-|[]]].
    + rewrite TimerKind_eqb_neq by now apply Hk. now apply T1.
    + simpl. now rewrite TimerKind_eqb_refl.
  - rewrite map_app. simpl.
    eapply Permutation_NoDup; [apply Permutation_cons_append|].
    constructor; [|exact T2].
    intros Hin. apply in_map_iff in Hin as (t & Ht & Hin).
    apply T1, T3 in Hin. lia.
  - intros k0 x. destruct (TimerKind_eqb k0 k).
    + intros H; inversion H; lia.
    + intros H; apply T3 in H; lia.
  - intros k0 k1 x.
    destruct (TimerKind_eqb k0 k) eqn:E0, (TimerKind_eqb k1 k) eqn:E1.
    + apply TimerKind_eqb_eq in E0, E1. congruence.
    + intros H0 H1. inversion H0; subst. apply T3 in H1. lia.
    + intros H0 H1. inversion H1; subst. apply T3 in H0. lia.
    + apply T4.
Qed.

Lemma tracked_null k :
  (forall t, In t l -> kind t <> k) -> tracked (upd h k None) l n.
Proof.
  destruct T as (T1 & T2 & T3 & T4). intros Hk. unfold upd. repeat split.
  - intros t Ht. rewrite TimerKind_eqb_neq by now apply Hk. now apply T1.
  - exact T2.
  - intros k0 x. destruct (TimerKind_eqb k0 k); [discriminate|apply T3].
  - intros k0 k1 x.
    destruct (TimerKind_eqb k0 k), (TimerKind_eqb k1 k); try discriminate. apply T4.
Qed.

Lemma tracked_count k :
  (List.length (filter (fun t => TimerKind_eqb (kind t) k) l) <= 1)%nat.
Proof.
  destruct T as (T1 & T2 & _).
  apply (same_key_short tid); [now apply NoDup_map_filter|].
  intros a b Ha Hb. apply filter_In in Ha as [Ha Ka], Hb as [Hb Kb].
  apply TimerKind_eqb_eq in Ka, Kb. apply T1 in Ha, Hb.
  rewrite Ka in Ha. rewrite Kb in Hb. congruence.
Qed.

End Tracked.

Lemma pending_armed k d l n :
  (forall t, In t l -> kind t <> k) ->
  filter (fun t => TimerKind_eqb (kind t) k) (l ++ [mkTimer n k d]) = [mkTimer n k d].
Proof.
  intros H. rewrite filter_app, filter_none; simpl.
  - now rewrite TimerKind_eqb_refl.
  - intros t Ht. apply TimerKind_eqb_neq. now apply H.
Qed.

Lemma boot_tracked bo ro clk s0 : boot bo ro clk = Some s0 -> tracked_sys s0.
Proof.
  unfold boot. simpl. intros H. inversion H; subst. unfold tracked_sys, tracked. simpl.
  repeat split.
  - intros t [].
  - constructor.
  - intros [] x; discriminate.
  - intros [] k' x; discriminate.
Qed.

(** [push] cancels the timer it holds the handle of and arms a fresh one. *)
Lemma push_tracked d ts b r w :
  tracked_sys (mkSys b r w) ->
  tracked_sys (mkSys (BufferSteps.push_this d ts b w) r (BufferSteps.push_world d ts b w))
  /\ pending TypingModeOff (BufferSteps.push_world d ts b w)
     = [mkTimer (nextTimer w) TypingModeOff (InputBuffer.typingModeDelayMs b)].
Proof.
  unfold tracked_sys. cbn [world buf rend]. intros T.
  set (l1 := match InputBuffer.typingModeTimeout b with
             | Some x => filter (fun t => negb (Nat.eqb (tid t) x)) (timers w)
             | None => timers w
             end).
  assert (E : timers (BufferSteps.push_world d ts b w)
              = l1 ++ [mkTimer (nextTimer w) TypingModeOff (InputBuffer.typingModeDelayMs b)])
    by (unfold BufferSteps.push_world, l1;
        destruct ts, (InputBuffer.typingModeTimeout b); reflexivity).
  assert (N : nextTimer (BufferSteps.push_world d ts b w) = S (nextTimer w))
    by (unfold BufferSteps.push_world;
        destruct ts, (InputBuffer.typingModeTimeout b); reflexivity).
  assert (T1 : tracked (fun k => handle k (mkSys b r w)) l1 (nextTimer w))
    by (unfold l1; destruct (InputBuffer.typingModeTimeout b);
        [apply tracked_cancel|]; exact T).
  assert (K : forall t, In t l1 -> kind t <> TypingModeOff).
  { unfold l1. destruct (InputBuffer.typingModeTimeout b) eqn:H.
    - apply (cancelled_kind _ _ _ T TypingModeOff). exact H.
    - apply (unarmed_kind _ _ _ T TypingModeOff). exact H. }
  split.
  - rewrite E, N.
    apply (tracked_ext _ _ _
             (tracked_arm _ _ _ T1 TypingModeOff (InputBuffer.typingModeDelayMs b) K)).
    intros []; reflexivity.
  - unfold pending. rewrite E. now apply pending_armed.
Qed.

Lemma pushBatch_tracked inputs : forall b r w,
  tracked_sys (mkSys b r w) ->
  tracked_sys (on_buf (InputBuffer.pushBatch inputs) (mkSys b r w)).
Proof.
  induction inputs as [|i inputs IH]; intros b r w T; [exact T|].
  unfold on_buf, InputBuffer.pushBatch in *. cbn [buf world rend for_of] in *.
  erewrite bind_Ok by apply BufferFacts.push_eq.
  apply IH. now apply push_tracked.
Qed.

(** [onInput] cancels the timer it holds the handle of and arms a fresh one. *)
Lemma onInput_tracked b r w :
  tracked_sys (mkSys b r w) ->
  tracked_sys (mkSys b (SchedulerSteps.onInput_this r w) (SchedulerSteps.onInput_world r w))
  /\ pending IdleElapsed (SchedulerSteps.onInput_world r w)
     = [mkTimer (nextTimer w) IdleElapsed (AdaptiveRenderer.idleThresholdMs r)].
Proof.
  unfold tracked_sys. cbn [world buf rend]. intros T.
  set (l1 := match AdaptiveRenderer.typingTimeout r with
             | Some x => filter (fun t => negb (Nat.eqb (tid t) x)) (timers w)
             | None => timers w
             end).
  assert (E : timers (SchedulerSteps.onInput_world r w)
              = l1 ++ [mkTimer (nextTimer w) IdleElapsed (AdaptiveRenderer.idleThresholdMs r)])
    by (unfold SchedulerSteps.onInput_world, l1;
        destruct (AdaptiveRenderer.typingTimeout r); reflexivity).
  assert (N : nextTimer (SchedulerSteps.onInput_world r w) = S (nextTimer w))
    by (unfold SchedulerSteps.onInput_world;
        destruct (AdaptiveRenderer.typingTimeout r); reflexivity).
  assert (T1 : tracked (fun k => handle k (mkSys b r w)) l1 (nextTimer w))
    by (unfold l1; destruct (AdaptiveRenderer.typingTimeout r);
        [apply tracked_cancel|]; exact T).
  assert (K : forall t, In t l1 -> kind t <> IdleElapsed).
  { unfold l1. destruct (AdaptiveRenderer.typingTimeout r) eqn:H.
    - apply (cancelled_kind _ _ _ T IdleElapsed). exact H.
    - apply (unarmed_kind _ _ _ T IdleElapsed). exact H. }
  split.
  - rewrite E, N.
    apply (tracked_ext _ _ _
             (tracked_arm _ _ _ T1 IdleElapsed (AdaptiveRenderer.idleThresholdMs r) K)).
    intros []; reflexivity.
  - unfold pending. rewrite E. now apply pending_armed.
Qed.

(** [deferRender] arms a timer only when it holds no handle, and then no
    timer of the kind is pending. *)
Lemma deferRender_tracked f p b r w :
  tracked_sys (mkSys b r w) ->
  tracked_sys (mkSys b (SchedulerSteps.defer_this f p r w) (SchedulerSteps.defer_world r w))
  /\ (pending MaxDeferElapsed (SchedulerSteps.defer_world r w) = pending MaxDeferElapsed w
      \/ (pending MaxDeferElapsed w = []
          /\ pending MaxDeferElapsed (SchedulerSteps.defer_world r w)
             = [mkTimer (nextTimer w) MaxDeferElapsed (AdaptiveRenderer.maxDeferMs r)])).
Proof.
  unfold tracked_sys. cbn [world buf rend]. intros T.
  unfold SchedulerSteps.defer_world.
  destruct (AdaptiveRenderer.deferredRender r) as [x|] eqn:H.
  - split; [|left; reflexivity].
    apply (tracked_ext _ _ _ T). intros []; simpl; try reflexivity. now rewrite H.
  - pose proof (unarmed_kind _ _ _ T MaxDeferElapsed H) as K.
    split.
    + apply (tracked_ext _ _ _
               (tracked_arm _ _ _ T MaxDeferElapsed (AdaptiveRenderer.maxDeferMs r) K)).
      intros []; simpl; try reflexivity. now rewrite H.
    + right. split.
      * apply filter_none. intros t Ht. apply TimerKind_eqb_neq. now apply K.
      * unfold pending. simpl. now apply pending_armed.
Qed.

(** [flushDeferred] cancels the timer whose handle it holds and drops the
    handle; after it no max-defer timer is pending. *)
Lemma flushDeferred_tracked b r w :
  tracked_sys (mkSys b r w) ->
  tracked_sys (on_rend AdaptiveRenderer.flushDeferred (mkSys b r w))
  /\ pending MaxDeferElapsed (world (on_rend AdaptiveRenderer.flushDeferred (mkSys b r w)))
     = [].
Proof.
  intros T. unfold on_rend. cbn [buf rend world].
  rewrite SchedulerFacts.flushDeferred_eq. unfold SchedulerSteps.flushDeferred_steps.
  set (r1 := AdaptiveRenderer.set_deferredRender None r).
  set (w1 := SchedulerSteps.flush_cancel r w).
  assert (T1 : tracked_sys (mkSys b r1 w1) /\ pending MaxDeferElapsed w1 = []).
  { unfold tracked_sys in *. cbn [world buf rend] in *.
    unfold w1, SchedulerSteps.flush_cancel.
    destruct (AdaptiveRenderer.deferredRender r) as [x|] eqn:H.
    - pose proof (cancelled_kind _ _ _ T MaxDeferElapsed x H) as K.
      split.
      + apply (tracked_ext _ _ _ (tracked_null _ _ _ (tracked_cancel _ _ _ T x) _ K)).
        intros []; reflexivity.
      + apply filter_none. intros t Ht. apply TimerKind_eqb_neq. now apply K.
    - pose proof (unarmed_kind _ _ _ T MaxDeferElapsed H) as K.
      split.
      + apply (tracked_ext _ _ _ (tracked_null _ _ _ T _ K)).
        intros []; reflexivity.
      + apply filter_none. intros t Ht. apply TimerKind_eqb_neq. now apply K. }
  destruct (AdaptiveRenderer.renderQueue r) as [|e q]; [exact T1|].
  match goal with
  | |- context [SchedulerSteps.render_all ?es ?r2 ?w2] =>
      pose proof (SchedulerFacts.render_all_preserves
                    (fun r' w' => tracked_sys (mkSys b r' w')
                                  /\ pending MaxDeferElapsed w' = [])
                    (fun f r0 w0 H0 => H0) es r2 w2 T1) as R;
      destruct (SchedulerSteps.render_all es r2 w2) as [[[u|x] r3] w3]
  end; exact R.
Qed.

Lemma requestRender_tracked f o b r w :
  tracked_sys (mkSys b r w) ->
  tracked_sys (on_rend (AdaptiveRenderer.requestRender f o) (mkSys b r w)).
Proof.
  intros T. unfold on_rend. cbn [buf rend world].
  rewrite SchedulerFacts.requestRender_eq.
  destruct (nullish o AdaptiveRenderer.normal);
    [| destruct (SchedulerSteps.typing r _) | destruct (SchedulerSteps.typing r _)];
    rewrite ?SchedulerFacts.executeRender_eq, ?SchedulerFacts.deferRender_eq;
    try exact T;
    apply (deferRender_tracked f _ b r (world_tick w)); exact T.
Qed.

Lemma fire_tracked h s : tracked_sys s -> tracked_sys (fire h s).
Proof.
  intros T. unfold fire. destruct (find _ _) as [t|]; [|exact T].
  assert (C : tracked_sys (mkSys (buf s) (rend s) (world_cancel h (world s))))
    by (apply (tracked_cancel _ _ _ T h)).
  destruct (kind t).
  - exact C.
  - unfold on_rend, AdaptiveRenderer.idleElapsed. cbn [buf rend world].
    unfold bind at 1. cbn [modify].
    apply (flushDeferred_tracked (buf s)
             (AdaptiveRenderer.set_isTyping false (rend s))
             (world_cancel h (world s))).
    exact C.
  - apply (flushDeferred_tracked (buf s) (rend s) (world_cancel h (world s))). exact C.
Qed.

Lemma step_tracked a s : tracked_sys s -> tracked_sys (step a s).
Proof.
  intros T. destruct s as [b r w].
  destruct a; cbn [step]; try exact T.
  - unfold on_buf. cbn [buf rend world]. rewrite BufferFacts.push_eq.
    now apply push_tracked.
  - now apply pushBatch_tracked.
  - unfold on_buf. cbn [buf rend world]. rewrite BufferFacts.flush_eq. exact T.
  - unfold on_rend. cbn [buf rend world]. rewrite SchedulerFacts.onInput_eq.
    now apply onInput_tracked.
  - now apply requestRender_tracked.
  - unfold on_rend. cbn [buf rend world]. rewrite SchedulerFacts.deferRender_eq.
    now apply deferRender_tracked.
  - now apply flushDeferred_tracked.
  - now apply fire_tracked.
Qed.

Lemma reachable_tracked s : reachable s -> tracked_sys s.
Proof.
  intros (bo & ro & clk & s0 & acts & B & ->).
  apply boot_tracked in B. revert s0 B.
  induction acts as [|a acts IH]; intros s0 B; [exact B|].
  apply IH, step_tracked, B.
Qed.

Lemma reachable_step a s : reachable s -> reachable (step a s).
Proof.
  intros (bo & ro & clk & s0 & acts & B & ->).
  exists bo, ro, clk, s0, (acts ++ [a]). split; [exact B|].
  unfold run. now rewrite fold_left_app.
Qed.

(** C8. In every state the system reaches, at most one timer of each kind
    is pending, and every action keeps it so.  After [push] the one pending
    typing-mode-off timer is the one just armed, and after [onInput] the one
    pending idle timer is: the previous one is cancelled.  [deferRender] arms
    a max-defer timer only when none is pending.  After [flushDeferred] no
    max-defer timer is pending. *)
Theorem one_timer_of_each_kind (s : Sys) :
  reachable s ->
  (forall k, (List.length (pending k (world s)) <= 1)%nat)
  /\ (forall a k, (List.length (pending k (world (step a s))) <= 1)%nat)
  /\ (forall d ts,
        pending TypingModeOff (world (step (Push d ts) s))
        = [mkTimer (nextTimer (world s)) TypingModeOff
                   (InputBuffer.typingModeDelayMs (buf s))])
  /\ pending IdleElapsed (world (step OnInput s))
     = [mkTimer (nextTimer (world s)) IdleElapsed
                (AdaptiveRenderer.idleThresholdMs (rend s))]
  /\ (forall f p,
        pending MaxDeferElapsed (world (step (DeferRender f p) s))
        = pending MaxDeferElapsed (world s)
        \/ (pending MaxDeferElapsed (world s) = []
            /\ pending MaxDeferElapsed (world (step (DeferRender f p) s))
               = [mkTimer (nextTimer (world s)) MaxDeferElapsed
                          (AdaptiveRenderer.maxDeferMs (rend s))]))
  /\ pending MaxDeferElapsed (world (step FlushDeferred s)) = [].
Proof.
  intros R. pose proof (reachable_tracked s R) as T.
  split; [intros k; apply (tracked_count _ _ _ T)|].
  split; [intros a k;
          apply (tracked_count _ _ _ (reachable_tracked _ (reachable_step a s R)))|].
  destruct s as [b r w].
  split; [|split; [|split]].
  - intros d ts. cbn [step]. unfold on_buf. cbn [buf rend world].
    rewrite BufferFacts.push_eq. cbn [world].
    apply (push_tracked d ts b r w T).
  - cbn [step]. unfold on_rend. cbn [buf rend world].
    rewrite SchedulerFacts.onInput_eq. cbn [world].
    apply (onInput_tracked b r w T).
  - intros f p. cbn [step]. unfold on_rend. cbn [buf rend world].
    rewrite SchedulerFacts.deferRender_eq. cbn [world].
    apply (deferRender_tracked f p b r w T).
  - apply (flushDeferred_tracked b r w T).
Qed.

(** Two pushes, two inputs and two deferred renders: three timers are
    pending, one of each kind, the latest armed of each. *)
Lemma one_timer_of_each_kind_witness :
  exists s,
    s = run [Push (InputBuffer.Str "a") None; Push (InputBuffer.Str "b") None;
             OnInput; OnInput;
             DeferRender (mkRenderFn 1 false) AdaptiveRenderer.normal;
             DeferRender (mkRenderFn 2 false) AdaptiveRenderer.low]
            (mkSys (InputBuffer.mk [] 1000 50 InputBuffer.zeroMetrics false 0 None 100)
                   (AdaptiveRenderer.mk 50 200 100 0 0 None [] false None
                      (AdaptiveRenderer.mkMetrics 0 0 0 (inject_Z 0) 0))
                   (mkWorld (fun _ => 1000) 1 [] 0 [] []))
    /\ timers (world s)
       = [mkTimer 1 TypingModeOff 100; mkTimer 3 IdleElapsed 50;
          mkTimer 4 MaxDeferElapsed 200]
    /\ forall k, (List.length (pending k (world s)) <= 1)%nat.
Proof.
  eexists. split; [reflexivity|]. split; [reflexivity|].
  refine (proj1 (one_timer_of_each_kind _ _)).
  exists InputBuffer.noOptions, AdaptiveRenderer.noOptions, (fun _ => 1000).
  eexists. eexists. split; reflexivity.
Defined.

End SystemFacts.

(** ** The constructors *)

Module ConstructorFacts.

(** C5, at negative thresholds: both constructors return, and the objects
    hold the negative values as given. *)
Lemma negative_thresholds_accepted :
  InputBuffer.new (InputBuffer.mkOptions (Some (-1)) (Some (-1)))
                  (mkWorld (fun _ => 1000) 0 [] 0 [] [])
  = (Ok (InputBuffer.mk [] 1000 (-1) InputBuffer.zeroMetrics false 0 None (-1)),
     mkWorld (fun _ => 1000) 1 [] 0 [] [])
  /\ AdaptiveRenderer.new (AdaptiveRenderer.mkOptions (Some (-1)) (Some (-1)) (Some (-1)))
                          (mkWorld (fun _ => 1000) 1 [] 0 [] [])
     = (Ok (AdaptiveRenderer.mk (-1) (-1) (-1) 0 0 None [] false None
              (AdaptiveRenderer.mkMetrics 0 0 0 (inject_Z 0) 0)),
        mkWorld (fun _ => 1000) 1 [] 0 [] [])
  /\ ~ (exists e w',
          InputBuffer.new (InputBuffer.mkOptions (Some (-1)) (Some (-1)))
                          (mkWorld (fun _ => 1000) 0 [] 0 [] [])
          = (Throw e, w'))
  /\ ~ (exists e w',
          AdaptiveRenderer.new
            (AdaptiveRenderer.mkOptions (Some (-1)) (Some (-1)) (Some (-1)))
            (mkWorld (fun _ => 1000) 1 [] 0 [] [])
          = (Throw e, w')).
Proof.
  split; [reflexivity|]. split; [reflexivity|].
  split; intros (e & w' & H); discriminate H.
Qed.

(** C5, amended.  The constructors never raise.  Each option that is given
    is stored as it is, negative or not, and each option that is missing
    takes its default: 50, 100, 50, 200 and 100. *)
Theorem constructors_store_options
  (bo : InputBuffer.Options) (ro : AdaptiveRenderer.Options) (w : World) :
  exists b w1 r w2,
    InputBuffer.new bo w = (Ok b, w1)
    /\ AdaptiveRenderer.new ro w1 = (Ok r, w2)
    /\ InputBuffer.delayThresholdMs b
       = match InputBuffer.opt_delayThresholdMs bo with Some v => v | None => 50 end
    /\ InputBuffer.typingModeDelayMs b
       = match InputBuffer.opt_typingModeDelayMs bo with Some v => v | None => 100 end
    /\ AdaptiveRenderer.idleThresholdMs r
       = match AdaptiveRenderer.opt_idleThresholdMs ro with Some v => v | None => 50 end
    /\ AdaptiveRenderer.maxDeferMs r
       = match AdaptiveRenderer.opt_maxDeferMs ro with Some v => v | None => 200 end
    /\ AdaptiveRenderer.minRenderIntervalMs r
       = match AdaptiveRenderer.opt_minRenderIntervalMs ro with
         | Some v => v
         | None => 100
         end.
Proof.
  eexists _, _, _, _. split; [reflexivity|]. split; [reflexivity|].
  repeat split.
Qed.

End ConstructorFacts.

(** * Further properties *)

(** ** More on the input buffer *)

Module BufferMore.
Import InputBuffer BufferSteps.

Lemma append_assoc (a b c : string) : ((a ++ b) ++ c = a ++ (b ++ c))%string.
Proof. induction a as [|x a IH]; simpl; [reflexivity|]. now rewrite IH. Qed.

Lemma append_nil_r (a : string) : (a ++ "" = a)%string.
Proof. induction a as [|x a IH]; simpl; [reflexivity|]. now rewrite IH. Qed.

Lemma length_append (a b : string) :
  String.length (a ++ b) = (String.length a + String.length b)%nat.
Proof. induction a as [|x a IH]; simpl; [reflexivity|]. now rewrite IH. Qed.

Lemma delayed_empty b now : buffer b = [] -> delayed b now = false.
Proof. intros H. unfold delayed. rewrite H. apply andb_false_r. Qed.

Lemma flush_on_empty b w :
  buffer b = [] ->
  chars (flush_value b w) = ""%string
  /\ count (flush_value b w) = 0
  /\ avgQueueTime (flush_value b w) = Finite 0
  /\ delayEvents (metrics (flush_this b w)) = delayEvents (metrics b)
  /\ maxDelay (metrics (flush_this b w)) = maxDelay (metrics b)
  /\ delayLog (flush_world b w) = delayLog w.
Proof.
  intros H. unfold flush_value, flush_this, flush_world, flush_metrics. cbv zeta.
  rewrite (delayed_empty b _ H), H. repeat split.
Qed.

(** X2. A [flush] right after a [flush] finds nothing: it returns the
    empty string, a count of 0 and an average queue time of 0, reports no
    delay whatever the time between the two, and its [delay] is the time
    since the first flush read the clock. *)
Theorem flush_then_flush (b : t) (w : World) :
  exists r1 b1 w1 r2 b2 w2,
    flush b w = (Ok r1, b1, w1)
    /\ flush b1 w1 = (Ok r2, b2, w2)
    /\ chars r2 = ""%string
    /\ count r2 = 0
    /\ avgQueueTime r2 = Finite 0
    /\ delay r2 = clock w (S (S (ticks w))) - clock w (ticks w)
    /\ delayEvents (metrics b2) = delayEvents (metrics b1)
    /\ maxDelay (metrics b2) = maxDelay (metrics b1)
    /\ delayLog w2 = delayLog w1
    /\ buffer b2 = [].
Proof.
  eexists _, _, _, _, _, _.
  split; [apply BufferFacts.flush_eq|]. split; [apply BufferFacts.flush_eq|].
  destruct (flush_on_empty (flush_this b w) (flush_world b w) eq_refl)
    as (H1 & H2 & H3 & H4 & H5 & H6).
  repeat split; assumption.
Qed.

(** *** The average queue time *)

Lemma sum_between (l : list Z) (lo hi : Z) :
  Forall (fun x => lo <= x <= hi) l ->
  forall acc,
    acc + Z.of_nat (List.length l) * lo <= fold_left Z.add l acc
    <= acc + Z.of_nat (List.length l) * hi.
Proof.
  induction 1 as [|x l Hx _ IH]; intros acc; [cbn; lia|].
  cbn [fold_left]. specialize (IH (acc + x)).
  rewrite length_cons, Nat2Z.inj_succ. nia.
Qed.

Lemma quotient_between (a n lo hi : Z) :
  0 < n -> n * lo <= a <= n * hi ->
  exists q, js_div a n = Finite q /\ (inject_Z lo <= q <= inject_Z hi)%Q.
Proof.
  intros Hn [Hlo Hhi]. unfold js_div.
  destruct (n =? 0) eqn:E; [apply Z.eqb_eq in E; lia|].
  eexists. split; [reflexivity|].
  assert (Pn : (0 < inject_Z n)%Q)
    by (change 0%Q with (inject_Z 0); rewrite <- Zlt_Qlt; exact Hn).
  rewrite Qred_correct. split.
  - apply Qle_shift_div_l; [exact Pn|].
    rewrite <- inject_Z_mult, <- Zle_Qle. lia.
  - apply Qle_shift_div_r; [exact Pn|].
    rewrite <- inject_Z_mult, <- Zle_Qle. lia.
Qed.

Lemma avgQueueTime_bounds (b : t) (w : World) (lo hi : Z) :
  buffer b <> [] ->
  Forall (fun u => lo <= Runs.queueTime u <= hi) (buffer b) ->
  exists q,
    avgQueueTime (flush_value b w) = Finite q /\ (inject_Z lo <= q <= inject_Z hi)%Q.
Proof.
  intros NE F. unfold flush_value. cbn [avgQueueTime].
  set (qs := map (fun u => queuedAt u - receivedAt u) (buffer b)).
  assert (L : 0 < Z.of_nat (List.length qs)).
  { unfold qs. rewrite length_map. destruct (buffer b); [congruence|cbn; lia]. }
  assert (Fq : Forall (fun x => lo <= x <= hi) qs)
    by (unfold qs; apply Forall_map; exact F).
  destruct (0 <? Z.of_nat (List.length qs)) eqn:E; [|apply Z.ltb_ge in E; lia].
  apply quotient_between; [exact L|].
  pose proof (sum_between qs lo hi Fq 0). lia.
Qed.

End BufferMore.

(** ** More on the render scheduler *)

Module SchedulerMore.
Import AdaptiveRenderer SchedulerSteps.

(** X12. A request runs at once, before [requestRender] returns, when its
    priority is [high], whatever the typing state, and for any priority when
    the scheduler is not typing or the last input is at least
    [idleThresholdMs] old: the render function is called once, nothing is
    queued, no timer is armed, and an exception it raises leaves
    [requestRender]. *)
Theorem requestRender_runs_at_once (f : RenderFn) (o : option Priority) (r : t) (w : World) :
  nullish o normal = high
  \/ isTyping r = false
  \/ idleThresholdMs r <= clock w (ticks w) - lastInputTime r ->
  exists r' w',
    requestRender f o r w = ((if raises f then Throw (label f) else Ok tt), r', w')
    /\ renderLog w' = renderLog w ++ [label f]
    /\ renderQueue r' = renderQueue r
    /\ timers w' = timers w
    /\ deferredRenders (metrics r') = deferredRenders (metrics r)
    /\ totalRenders (metrics r') = S (totalRenders (metrics r)).
Proof.
  intros H. rewrite SchedulerFacts.requestRender_eq.
  assert (E : nullish o normal = high \/ typing r (clock w (ticks w)) = false).
  { destruct H as [H|[H|H]]; [now left| |]; right; unfold typing.
    - now rewrite H.
    - apply andb_false_iff. right. now apply Z.ltb_ge. }
  assert (X : exists r' w',
             executeRender f r (world_tick w)
             = ((if raises f then Throw (label f) else Ok tt), r', w')
             /\ renderLog w' = renderLog w ++ [label f]
             /\ renderQueue r' = renderQueue r
             /\ timers w' = timers w
             /\ deferredRenders (metrics r') = deferredRenders (metrics r)
             /\ totalRenders (metrics r') = S (totalRenders (metrics r))).
  { eexists _, _. rewrite SchedulerFacts.executeRender_eq. repeat split. }
  destruct E as [E|E].
  - rewrite E. exact X.
  - rewrite E. destruct (nullish o normal); exact X.
Qed.

(** A [high] request during typing, 10ms after the last input. *)
Lemma requestRender_runs_at_once_witness :
  exists r' w',
    requestRender (mkRenderFn 7 false) (Some high)
      (mk 50 200 100 1000 0 None [] true None (mkMetrics 0 0 0 (inject_Z 0) 0))
      (mkWorld (fun _ => 1010) 0 [] 0 [] [])
    = (Ok tt, r', w')
    /\ renderLog w' = [7%nat] /\ renderQueue r' = [].
Proof.
  destruct (requestRender_runs_at_once (mkRenderFn 7 false) (Some high)
              (mk 50 200 100 1000 0 None [] true None (mkMetrics 0 0 0 (inject_Z 0) 0))
              (mkWorld (fun _ => 1010) 0 [] 0 [] []))
    as (r' & w' & E & L & Q & _).
  - left. reflexivity.
  - exists r', w'. split; [exact E|]. split; [exact L|exact Q].
Defined.

End SchedulerMore.

(** ** More on the system *)

Module SystemMore.
Import System Runs.

(** *** [pushBatch] *)

Lemma on_buf_pushBatch inputs : forall s,
  on_buf (InputBuffer.pushBatch inputs) s = run (pushes_of inputs) s.
Proof.
  induction inputs as [|i inputs IH]; intros s.
  - destruct s; reflexivity.
  - cbn [pushes_of map run fold_left step]. fold (pushes_of inputs).
    fold (run (pushes_of inputs)
              (on_buf (InputBuffer.push (InputBuffer.input_char i)
                                        (InputBuffer.input_timestamp i)) s)).
    rewrite <- IH. unfold on_buf, InputBuffer.pushBatch. cbn [for_of].
    erewrite bind_Ok by apply BufferFacts.push_eq.
    rewrite BufferFacts.push_eq. reflexivity.
Qed.

(** *** Several flushes *)

Lemma flushed_by_step a s :
  (InputBuffer.join (flushed_by a s) ++ InputBuffer.join (queued (step a s)))%string
  = InputBuffer.join (queued s ++ pushed a).
Proof.
  destruct a; try (cbn [flushed_by InputBuffer.join fold_right String.append];
                   rewrite SystemFacts.step_queued by discriminate; reflexivity).
  cbn [flushed_by step pushed]. unfold on_buf. rewrite BufferFacts.flush_eq.
  cbn. rewrite app_nil_r, !BufferMore.append_nil_r. reflexivity.
Qed.

Lemma flushed_run acts : forall s,
  (InputBuffer.join (flushed acts s) ++ InputBuffer.join (queued (run acts s)))%string
  = InputBuffer.join (queued s ++ flat_map pushed acts).
Proof.
  induction acts as [|a acts IH]; intros s.
  - cbn. now rewrite app_nil_r.
  - cbn [flushed run fold_left flat_map]. fold (run acts (step a s)).
    rewrite BufferFacts.join_app, BufferMore.append_assoc, IH.
    rewrite app_assoc, (BufferFacts.join_app (queued s ++ pushed a)).
    rewrite <- flushed_by_step, BufferFacts.join_app, BufferMore.append_assoc. reflexivity.
Qed.

(** X3. Over any run of the system, with any number of flushes anywhere
    in it, the strings the flushes returned, one after the other, followed by
    what [peek] shows at the end, are what the queue held at the start
    followed by everything pushed, in push order: no unit is returned twice,
    none is lost, none is reordered. *)
Theorem flushes_partition_the_input (acts : list Action) (s : Sys) :
  exists rest b w,
    InputBuffer.peek (buf (run acts s)) (world (run acts s)) = (Ok rest, b, w)
    /\ (InputBuffer.join (flushed acts s) ++ rest)%string
       = InputBuffer.join (queued s ++ flat_map pushed acts).
Proof.
  eexists _, _, _. split; [apply BufferFacts.peek_eq|]. apply flushed_run.
Qed.


(** *** What an action leaves of the queue and of the clock *)

Lemma run_app a b s : run (a ++ b) s = run b (run a s).
Proof. unfold run. apply fold_left_app. Qed.

Lemma run_cons a acts s : run (a :: acts) s = run acts (step a s).
Proof. reflexivity. Qed.

(** Induction over the actions of a run, with [pushBatch] taken as the
    pushes it makes. *)
Lemma run_invariant (P : Sys -> Prop) (ok : Action -> bool) :
  (forall inputs, ok (PushBatch inputs) = true ->
     forallb ok (pushes_of inputs) = true) ->
  (forall a s, (forall inputs, a <> PushBatch inputs) ->
     ok a = true -> P s -> P (step a s)) ->
  forall acts s, forallb ok acts = true -> P s -> P (run acts s).
Proof.
  intros Hb Hs.
  assert (Hp : forall inputs s,
             forallb ok (pushes_of inputs) = true -> P s -> P (run (pushes_of inputs) s)).
  { induction inputs as [|i inputs IH]; intros s Hok H; [exact H|].
    cbn [pushes_of map forallb] in Hok. apply andb_true_iff in Hok as [Hi Hok].
    cbn [pushes_of map]. rewrite run_cons. apply IH; [exact Hok|].
    apply Hs; [discriminate|exact Hi|exact H]. }
  induction acts as [|a acts IH]; intros s Hok H; [exact H|].
  cbn [forallb] in Hok. apply andb_true_iff in Hok as [Ha Hok].
  rewrite run_cons. apply IH; [exact Hok|].
  destruct a; try (apply Hs; [discriminate|exact Ha|exact H]).
  cbn [step]. rewrite on_buf_pushBatch. apply Hp; [now apply Hb|exact H].
Qed.

Lemma flushDeferred_clock r w :
  clock (snd (AdaptiveRenderer.flushDeferred r w)) = clock w.
Proof.
  rewrite SchedulerFacts.flushDeferred_eq. unfold SchedulerSteps.flushDeferred_steps.
  assert (C : clock (SchedulerSteps.flush_cancel r w) = clock w)
    by (unfold SchedulerSteps.flush_cancel;
        destruct (AdaptiveRenderer.deferredRender r); reflexivity).
  destruct (AdaptiveRenderer.renderQueue r) as [|e q]; [exact C|].
  match goal with
  | |- context [SchedulerSteps.render_all ?es ?r1 ?w1] =>
      pose proof (SchedulerFacts.render_all_preserves
                    (fun _ w' => clock w' = clock w)
                    (fun f r0 w0 H0 => H0) es r1 w1 C) as R;
      destruct (SchedulerSteps.render_all es r1 w1) as [[[u|x] r2] w2]
  end; exact R.
Qed.

Lemma step_clock a s :
  (forall inputs, a <> PushBatch inputs) -> clock (world (step a s)) = clock (world s).
Proof.
  intros NB. destruct s as [b r w]. destruct a; cbn [step]; try reflexivity.
  - unfold on_buf. cbn [buf rend world]. rewrite BufferFacts.push_eq.
    unfold BufferSteps.push_world.
    destruct timestamp, (InputBuffer.typingModeTimeout b); reflexivity.
  - exfalso. now apply (NB inputs).
  - unfold on_buf. cbn [buf rend world]. rewrite BufferFacts.flush_eq. reflexivity.
  - unfold on_rend. cbn [buf rend world]. rewrite SchedulerFacts.onInput_eq.
    unfold SchedulerSteps.onInput_world.
    destruct (AdaptiveRenderer.typingTimeout r); reflexivity.
  - unfold on_rend. cbn [buf rend world]. rewrite SchedulerFacts.requestRender_eq.
    destruct (nullish p AdaptiveRenderer.normal);
      [| destruct (SchedulerSteps.typing r _) | destruct (SchedulerSteps.typing r _)];
      rewrite ?SchedulerFacts.executeRender_eq, ?SchedulerFacts.deferRender_eq;
      try reflexivity;
      unfold SchedulerSteps.defer_world;
      destruct (AdaptiveRenderer.deferredRender r); reflexivity.
  - unfold on_rend. cbn [buf rend world]. rewrite SchedulerFacts.deferRender_eq.
    unfold SchedulerSteps.defer_world.
    destruct (AdaptiveRenderer.deferredRender r); reflexivity.
  - unfold on_rend. cbn [buf rend world].
    pose proof (flushDeferred_clock r w) as K.
    destruct (AdaptiveRenderer.flushDeferred r w) as [[x r'] w']. exact K.
  - unfold fire. destruct (find _ _) as [t|]; [|reflexivity]. cbn [buf rend world].
    destruct (kind t); [reflexivity| |].
    + unfold on_rend. cbn [buf rend world]. rewrite SchedulerFacts.idleElapsed_eq.
      pose proof (flushDeferred_clock (AdaptiveRenderer.set_isTyping false r)
                    (world_cancel h w)) as K.
      destruct (AdaptiveRenderer.flushDeferred _ _) as [[x r'] w']. exact K.
    + unfold on_rend, AdaptiveRenderer.maxDeferElapsed. cbn [buf rend world].
      pose proof (flushDeferred_clock r (world_cancel h w)) as K.
      destruct (AdaptiveRenderer.flushDeferred _ _) as [[x r'] w']. exact K.
Qed.

(** The units of the queue, for an action that is neither a push nor a
    flush. *)
Lemma step_buffer a s :
  match a with Push _ _ | PushBatch _ | Flush => False | _ => True end ->
  InputBuffer.buffer (buf (step a s)) = InputBuffer.buffer (buf s).
Proof.
  destruct a; intros H; try contradiction; cbn [step];
    try (now rewrite SystemFacts.buf_on_rend); try reflexivity.
  unfold fire. destruct (find _ _) as [t|]; [|reflexivity].
  destruct (kind t); [reflexivity| |]; now rewrite SystemFacts.buf_on_rend.
Qed.

Lemma step_metrics a s :
  match a with Push _ _ | PushBatch _ | Flush | ResetMetrics => False | _ => True end ->
  InputBuffer.metrics (buf (step a s)) = InputBuffer.metrics (buf s).
Proof.
  destruct a; intros H; try contradiction; cbn [step];
    try (now rewrite SystemFacts.buf_on_rend); try reflexivity.
  unfold fire. destruct (find _ _) as [t|]; [|reflexivity].
  destruct (kind t); [reflexivity| |]; now rewrite SystemFacts.buf_on_rend.
Qed.


(** *** Counting units *)

Lemma join_length cs :
  Forall (fun c => String.length c = 1%nat) cs ->
  String.length (InputBuffer.join cs) = List.length cs.
Proof.
  induction 1 as [|c cs H _ IH]; [reflexivity|].
  cbn [InputBuffer.join fold_right List.length].
  fold (InputBuffer.join cs). rewrite BufferMore.length_append, H, IH. reflexivity.
Qed.

Lemma split_chars_single str :
  Forall (fun c => String.length c = 1%nat) (InputBuffer.split_chars (InputBuffer.Str str)).
Proof.
  cbn [InputBuffer.split_chars]. apply Forall_forall. intros c Hc.
  apply in_map_iff in Hc as (a & <- & _). reflexivity.
Qed.

Lemma pushes_of_ok (ok : Action -> bool) (one : InputBuffer.Input -> bool) inputs :
  (forall i, one i = true ->
     ok (Push (InputBuffer.input_char i) (InputBuffer.input_timestamp i)) = true) ->
  forallb one inputs = true -> forallb ok (pushes_of inputs) = true.
Proof.
  intros H. induction inputs as [|i inputs IH]; [reflexivity|].
  cbn [forallb pushes_of map]. rewrite !andb_true_iff. intros [Hi Hr].
  split; [now apply H|now apply IH].
Qed.

Lemma single_chars_run acts s :
  forallb strings_only acts = true ->
  Forall (fun c => String.length c = 1%nat) (queued s) ->
  Forall (fun c => String.length c = 1%nat) (queued (run acts s)).
Proof.
  apply (run_invariant
           (fun s => Forall (fun c => String.length c = 1%nat) (queued s)) strings_only).
  - intros inputs H. cbn [strings_only] in H.
    apply (pushes_of_ok strings_only
             (fun i => is_string (InputBuffer.input_char i))); [|exact H].
    intros i Hi. exact Hi.
  - intros a s0 NB Ha H.
    destruct (match a with Flush => true | _ => false end) eqn:F.
    + destruct a; try discriminate. cbn [step]. unfold on_buf, queued.
      rewrite BufferFacts.flush_eq. constructor.
    + rewrite SystemFacts.step_queued by (intros ->; discriminate).
      apply Forall_app. split; [exact H|].
      destruct a; try constructor.
      * cbn [strings_only] in Ha. destruct data; [|discriminate].
        apply split_chars_single.
      * exfalso. now apply (NB inputs).
Qed.

(** X4. In a system started by the two constructors in which only strings
    are pushed, the [count] that [flush] returns is the [size()] of the queue
    just before: the number of units it takes out. *)
Theorem count_is_size_for_strings bo ro clk s0 acts :
  boot bo ro clk = Some s0 ->
  forallb strings_only acts = true ->
  let s := run acts s0 in
  exists n b1 w1 r b2 w2,
    InputBuffer.size (buf s) (world s) = (Ok n, b1, w1)
    /\ InputBuffer.flush (buf s) (world s) = (Ok r, b2, w2)
    /\ InputBuffer.count r = n.
Proof.
  intros B Hs s.
  assert (U : Forall (fun c => String.length c = 1%nat) (queued s)).
  { apply single_chars_run; [exact Hs|].
    unfold boot in B. inversion B. constructor. }
  eexists _, _, _, _, _, _. split; [reflexivity|].
  split; [apply BufferFacts.flush_eq|].
  cbn [BufferSteps.flush_value InputBuffer.count]. fold (queued s).
  rewrite (join_length _ U). unfold queued. now rewrite length_map.
Qed.

(** Five characters pushed in two calls: [size()] is 5 and the flush
    counts 5. *)
Lemma count_is_size_for_strings_witness :
  exists s0 n b1 w1 r b2 w2,
    boot InputBuffer.noOptions AdaptiveRenderer.noOptions (fun _ => 1000) = Some s0
    /\ (let s := run [Push (InputBuffer.Str "abc") None; Peek;
                      PushBatch [InputBuffer.mkInput (InputBuffer.Str "de") (Some 990)]]
                     s0 in
        InputBuffer.size (buf s) (world s) = (Ok n, b1, w1)
        /\ InputBuffer.flush (buf s) (world s) = (Ok r, b2, w2))
    /\ InputBuffer.count r = n /\ n = 5.
Proof.
  eexists.
  destruct (count_is_size_for_strings
              InputBuffer.noOptions AdaptiveRenderer.noOptions (fun _ => 1000) _
              [Push (InputBuffer.Str "abc") None; Peek;
               PushBatch [InputBuffer.mkInput (InputBuffer.Str "de") (Some 990)]]
              eq_refl eq_refl)
    as (n & b1 & w1 & r & b2 & w2 & E1 & E2 & C).
  exists n, b1, w1, r, b2, w2. split; [reflexivity|]. split; [split; [exact E1|exact E2]|].
  split; [exact C|]. cbv in E1. now inversion E1.
Defined.

Lemma step_totalInputs a s :
  (forall inputs, a <> PushBatch inputs) -> a <> ResetMetrics ->
  InputBuffer.totalInputs (InputBuffer.metrics (buf (step a s)))
  = InputBuffer.totalInputs (InputBuffer.metrics (buf s))
    + Z.of_nat (List.length (pushed a)).
Proof.
  intros NB NR.
  destruct a; try (rewrite step_metrics by exact I; cbn [pushed List.length]; lia).
  - cbn [step pushed]. unfold on_buf. rewrite BufferFacts.push_eq. reflexivity.
  - exfalso. now apply (NB inputs).
  - cbn [step pushed]. unfold on_buf. rewrite BufferFacts.flush_eq.
    cbn [buf BufferSteps.flush_this InputBuffer.metrics].
    unfold BufferSteps.flush_metrics.
    destruct (BufferSteps.delayed _ _); cbn; lia.
  - congruence.
Qed.

Lemma pushes_totalInputs inputs : forall s,
  InputBuffer.totalInputs (InputBuffer.metrics (buf (run (pushes_of inputs) s)))
  = InputBuffer.totalInputs (InputBuffer.metrics (buf s))
    + Z.of_nat (List.length (pushed (PushBatch inputs))).
Proof.
  induction inputs as [|i inputs IH]; intros s; [cbn; lia|].
  cbn [pushes_of map]. rewrite run_cons. fold (pushes_of inputs).
  rewrite IH, step_totalInputs by discriminate.
  cbn [pushed flat_map]. rewrite length_app. lia.
Qed.

(** X5. As long as the metrics are not reset, [totalInputs] is the number
    of units pushed since the buffer was constructed, flushed or not, and so
    never less than the length of the queue. *)
Theorem totalInputs_counts_pushed_units bo ro clk s0 acts :
  boot bo ro clk = Some s0 ->
  ~ In ResetMetrics acts ->
  InputBuffer.totalInputs (InputBuffer.metrics (buf (run acts s0)))
  = Z.of_nat (List.length (flat_map pushed acts))
  /\ Z.of_nat (List.length (InputBuffer.buffer (buf (run acts s0))))
     <= InputBuffer.totalInputs (InputBuffer.metrics (buf (run acts s0))).
Proof.
  intros B NR.
  assert (T : forall acts s, ~ In ResetMetrics acts ->
            InputBuffer.totalInputs (InputBuffer.metrics (buf (run acts s)))
            = InputBuffer.totalInputs (InputBuffer.metrics (buf s))
              + Z.of_nat (List.length (flat_map pushed acts))).
  { clear. induction acts as [|a acts IH]; intros s NR; [cbn; lia|].
    rewrite run_cons, IH by (intros H; apply NR; now right).
    cbn [flat_map]. rewrite length_app.
    assert (Na : a <> ResetMetrics) by (intros ->; apply NR; now left).
    destruct (match a with PushBatch _ => true | _ => false end) eqn:E.
    - destruct a; try discriminate. cbn [step]. rewrite on_buf_pushBatch.
      rewrite pushes_totalInputs. lia.
    - rewrite step_totalInputs; [lia| |exact Na]. intros inputs ->. discriminate. }
  assert (Q : forall acts s,
            (List.length (queued (run acts s))
             <= List.length (queued s) + List.length (flat_map pushed acts))%nat).
  { clear. induction acts as [|a acts IH]; intros s; [cbn; lia|].
    rewrite run_cons. specialize (IH (step a s)).
    cbn [flat_map]. rewrite length_app.
    destruct (match a with Flush => true | _ => false end) eqn:E.
    - destruct a; try discriminate.
      assert (queued (step Flush s) = []) as Z0
        by (cbn [step]; unfold on_buf, queued; now rewrite BufferFacts.flush_eq).
      rewrite Z0 in IH. cbn in *. lia.
    - rewrite SystemFacts.step_queued in IH by (intros ->; discriminate).
      rewrite length_app in IH. lia. }
  rewrite (T acts s0 NR).
  assert (Z0 : InputBuffer.totalInputs (InputBuffer.metrics (buf s0)) = 0)
    by (unfold boot in B; inversion B; reflexivity).
  assert (Q0 : queued s0 = []) by (unfold boot in B; inversion B; reflexivity).
  split; [lia|].
  specialize (Q acts s0). rewrite Q0 in Q. unfold queued in Q. rewrite length_map in Q.
  cbn in Q. lia.
Qed.

(** Three units pushed, flushed, two more pushed: [totalInputs] is 5 with
    two units queued. *)
Lemma totalInputs_counts_pushed_units_witness :
  exists s0,
    boot InputBuffer.noOptions AdaptiveRenderer.noOptions (fun _ => 1000) = Some s0
    /\ InputBuffer.totalInputs
         (InputBuffer.metrics
            (buf (run [Push (InputBuffer.Str "abc") None; Flush;
                       Push (InputBuffer.Str "de") None] s0))) = 5.
Proof.
  eexists. split; [reflexivity|].
  refine (proj1 (totalInputs_counts_pushed_units
                   InputBuffer.noOptions AdaptiveRenderer.noOptions (fun _ => 1000) _
                   [Push (InputBuffer.Str "abc") None; Flush;
                    Push (InputBuffer.Str "de") None] eq_refl _)).
  simpl. intuition discriminate.
Defined.

(** *** Timestamps *)

Lemma stamped_waits clk t0 cs : forall n,
  monotone clk -> (t0 <= n)%nat ->
  Forall (fun u => 0 <= queueTime u) (BufferSteps.stamped (clk t0) cs clk n).
Proof.
  induction cs as [|c cs IH]; intros n M L; cbn [BufferSteps.stamped]; constructor.
  - unfold queueTime. cbn. specialize (M t0 n L). lia.
  - apply IH; [exact M|lia].
Qed.

Lemma upper_bound (P : InputBuffer.Unit -> Z) l :
  exists hi, Forall (fun u => P u <= hi) l.
Proof.
  induction l as [|u l [hi IH]]; [exists 0; constructor|].
  exists (Z.max hi (P u)). constructor; [lia|].
  eapply Forall_impl; [|exact IH]. cbn. intros; lia.
Qed.

Lemma waits_run clk acts s :
  monotone clk ->
  forallb unstamped acts = true ->
  clock (world s) = clk
  /\ Forall (fun u => 0 <= queueTime u) (InputBuffer.buffer (buf s)) ->
  clock (world (run acts s)) = clk
  /\ Forall (fun u => 0 <= queueTime u) (InputBuffer.buffer (buf (run acts s))).
Proof.
  intros M.
  apply (run_invariant
           (fun s => clock (world s) = clk
                     /\ Forall (fun u => 0 <= queueTime u) (InputBuffer.buffer (buf s)))
           unstamped).
  - intros inputs H. cbn [unstamped] in H.
    apply (pushes_of_ok unstamped
             (fun i => match InputBuffer.input_timestamp i with
                       | None => true
                       | Some _ => false
                       end)); [|exact H].
    intros i Hi. exact Hi.
  - intros a s0 NB Ha [C F]. split; [now rewrite step_clock|].
    destruct a; try (rewrite step_buffer by exact I; exact F).
    + cbn [unstamped] in Ha. destruct timestamp; [discriminate|].
      cbn [step]. unfold on_buf. rewrite BufferFacts.push_eq.
      cbn [buf BufferSteps.push_this InputBuffer.buffer world_tick ticks].
      apply Forall_app. split; [exact F|].
      rewrite C. apply stamped_waits; [exact M|lia].
    + exfalso. now apply (NB inputs).
    + cbn [step]. unfold on_buf. rewrite BufferFacts.flush_eq. constructor.
Qed.

(** X7. When the clock never goes back and every push uses the default
    timestamp, each queued unit has [queuedAt >= receivedAt], and the
    [avgQueueTime] that [flush] returns is not negative. *)
Theorem default_timestamps_never_negative bo ro clk s0 acts :
  monotone clk ->
  boot bo ro clk = Some s0 ->
  forallb unstamped acts = true ->
  let s := run acts s0 in
  Forall (fun u => InputBuffer.receivedAt u <= InputBuffer.queuedAt u)
         (InputBuffer.buffer (buf s))
  /\ exists r b' w' q,
       InputBuffer.flush (buf s) (world s) = (Ok r, b', w')
       /\ InputBuffer.avgQueueTime r = Finite q /\ (0 <= q)%Q.
Proof.
  intros M B U s.
  assert (H : clock (world s) = clk
              /\ Forall (fun u => 0 <= queueTime u) (InputBuffer.buffer (buf s))).
  { apply waits_run; [exact M|exact U|].
    unfold boot in B. inversion B. split; [reflexivity|constructor]. }
  destruct H as [_ F]. split.
  - eapply Forall_impl; [|exact F]. unfold queueTime. intros u Hu. lia.
  - destruct (InputBuffer.buffer (buf s)) as [|u l] eqn:E.
    + eexists _, _, _, _. split; [apply BufferFacts.flush_eq|].
      unfold BufferSteps.flush_value. rewrite E. split; [reflexivity|].
      apply Qle_refl.
    + destruct (upper_bound queueTime (u :: l)) as [hi Hhi].
      destruct (BufferMore.avgQueueTime_bounds (buf s) (world s) 0 hi) as (q & Eq & Bq).
      * rewrite E. discriminate.
      * rewrite E. apply Forall_forall. intros x Hx.
        rewrite Forall_forall in F, Hhi. split; [now apply F|now apply Hhi].
      * eexists _, _, _, q. split; [apply BufferFacts.flush_eq|].
        split; [exact Eq|]. apply Bq.
Qed.

(** A clock that advances by one at each reading, ["ab"] pushed: both
    units waited, and the average is not negative. *)
Lemma default_timestamps_never_negative_witness :
  exists s0 r b' w' q,
    boot InputBuffer.noOptions AdaptiveRenderer.noOptions (fun n => Z.of_nat n) = Some s0
    /\ InputBuffer.flush (buf (run [Push (InputBuffer.Str "ab") None] s0))
                         (world (run [Push (InputBuffer.Str "ab") None] s0))
       = (Ok r, b', w')
    /\ InputBuffer.avgQueueTime r = Finite q /\ (0 <= q)%Q.
Proof.
  eexists.
  destruct (default_timestamps_never_negative
              InputBuffer.noOptions AdaptiveRenderer.noOptions (fun n => Z.of_nat n)
              (mkSys (InputBuffer.mk [] 0 50 InputBuffer.zeroMetrics false 0 None 100)
                     (AdaptiveRenderer.mk 50 200 100 0 0 None [] false None
                        (AdaptiveRenderer.mkMetrics 0 0 0 (inject_Z 0) 0))
                     (mkWorld (fun n => Z.of_nat n) 1 [] 0 [] []))
              [Push (InputBuffer.Str "ab") None])
    as (_ & r & b' & w' & q & E & A & Q).
  - intros i j L. lia.
  - reflexivity.
  - reflexivity.
  - exists r, b', w', q. split; [reflexivity|]. split; [exact E|]. split; assumption.
Defined.

End SystemMore.

(** ** More on timers *)

Module TimerMore.
Import System Runs.

Lemma filter_absorbs {A} (f g : A -> bool) l :
  (forall a, In a l -> f a = true -> g a = true) ->
  filter f (filter g l) = filter f l.
Proof.
  induction l as [|a l IH]; intros H; [reflexivity|].
  cbn [filter]. destruct (g a) eqn:G.
  - cbn [filter]. rewrite IH by (intros x Hx; apply H; now right). reflexivity.
  - destruct (f a) eqn:F.
    + rewrite (H a (or_introl eq_refl) F) in G. discriminate.
    + apply IH. intros x Hx. apply H. now right.
Qed.

Section Pending.

Variable h : TimerKind -> option nat.
Variable l : list Timer.
Variable n : nat.
Hypothesis T : tracked h l n.

(** Cancelling the handle of one kind removes the timers of that kind and
    no other. *)
Lemma pending_cancel k0 x k :
  h k0 = Some x ->
  filter (fun t => TimerKind_eqb (kind t) k)
         (filter (fun t => negb (Nat.eqb (tid t) x)) l)
  = if TimerKind_eqb k k0 then []
    else filter (fun t => TimerKind_eqb (kind t) k) l.
Proof.
  intros Hx. destruct (TimerKind_eqb k k0) eqn:E.
  - apply SystemFacts.TimerKind_eqb_eq in E. subst k0.
    apply SystemFacts.filter_none. intros t Ht.
    apply SystemFacts.TimerKind_eqb_neq.
    exact (SystemFacts.cancelled_kind h l n T k x Hx t Ht).
  - apply filter_absorbs. intros t Ht Kt.
    apply SystemFacts.TimerKind_eqb_eq in Kt.
    destruct T as (T1 & _ & _ & T4).
    destruct (Nat.eqb (tid t) x) eqn:Q; [|reflexivity].
    apply Nat.eqb_eq in Q. specialize (T1 t Ht). rewrite Kt, Q in T1.
    rewrite (T4 k k0 x T1 Hx), SystemFacts.TimerKind_eqb_refl in E. discriminate.
Qed.

Lemma pending_unarmed k : h k = None -> filter (fun t => TimerKind_eqb (kind t) k) l = [].
Proof.
  intros Hk. apply SystemFacts.filter_none. intros t Ht.
  apply SystemFacts.TimerKind_eqb_neq.
  exact (SystemFacts.unarmed_kind h l n T k Hk t Ht).
Qed.

Lemma pending_cancel_opt k0 k :
  filter (fun t => TimerKind_eqb (kind t) k)
         (match h k0 with
          | Some x => filter (fun t => negb (Nat.eqb (tid t) x)) l
          | None => l
          end)
  = if TimerKind_eqb k k0 then []
    else filter (fun t => TimerKind_eqb (kind t) k) l.
Proof.
  destruct (h k0) as [x|] eqn:Hx; [now apply pending_cancel|].
  destruct (TimerKind_eqb k k0) eqn:E; [|reflexivity].
  apply SystemFacts.TimerKind_eqb_eq in E. subst k0. now apply pending_unarmed.
Qed.

End Pending.

Lemma pending_arm k0 d l n k :
  filter (fun t => TimerKind_eqb (kind t) k) (l ++ [mkTimer n k0 d])
  = filter (fun t => TimerKind_eqb (kind t) k) l
    ++ (if TimerKind_eqb k k0 then [mkTimer n k0 d] else []).
Proof.
  rewrite filter_app. cbn [filter kind].
  destruct (TimerKind_eqb k0 k) eqn:E.
  - apply SystemFacts.TimerKind_eqb_eq in E. subst. now rewrite SystemFacts.TimerKind_eqb_refl.
  - destruct (TimerKind_eqb k k0) eqn:E'; [|reflexivity].
    apply SystemFacts.TimerKind_eqb_eq in E'. subst.
    now rewrite SystemFacts.TimerKind_eqb_refl in E.
Qed.

(** The timers pending after [push]. *)
Lemma pending_push d ts b r w k :
  tracked_sys (mkSys b r w) ->
  pending k (BufferSteps.push_world d ts b w)
  = if TimerKind_eqb k TypingModeOff
    then [mkTimer (nextTimer w) TypingModeOff (InputBuffer.typingModeDelayMs b)]
    else pending k w.
Proof.
  intros T. unfold tracked_sys in T. cbn [world] in T.
  assert (E : timers (BufferSteps.push_world d ts b w)
              = (match handle TypingModeOff (mkSys b r w) with
                 | Some x => filter (fun t => negb (Nat.eqb (tid t) x)) (timers w)
                 | None => timers w
                 end)
                ++ [mkTimer (nextTimer w) TypingModeOff (InputBuffer.typingModeDelayMs b)])
    by (unfold BufferSteps.push_world; cbn [handle buf];
        destruct ts, (InputBuffer.typingModeTimeout b); reflexivity).
  unfold pending. rewrite E, pending_arm.
  rewrite (pending_cancel_opt _ _ _ T TypingModeOff k).
  destruct (TimerKind_eqb k TypingModeOff); [reflexivity|apply app_nil_r].
Qed.

(** The timers pending after [onInput]. *)
Lemma pending_onInput b r w k :
  tracked_sys (mkSys b r w) ->
  pending k (SchedulerSteps.onInput_world r w)
  = if TimerKind_eqb k IdleElapsed
    then [mkTimer (nextTimer w) IdleElapsed (AdaptiveRenderer.idleThresholdMs r)]
    else pending k w.
Proof.
  intros T. unfold tracked_sys in T. cbn [world] in T.
  assert (E : timers (SchedulerSteps.onInput_world r w)
              = (match handle IdleElapsed (mkSys b r w) with
                 | Some x => filter (fun t => negb (Nat.eqb (tid t) x)) (timers w)
                 | None => timers w
                 end)
                ++ [mkTimer (nextTimer w) IdleElapsed (AdaptiveRenderer.idleThresholdMs r)])
    by (unfold SchedulerSteps.onInput_world; cbn [handle rend];
        destruct (AdaptiveRenderer.typingTimeout r); reflexivity).
  unfold pending. rewrite E, pending_arm.
  rewrite (pending_cancel_opt _ _ _ T IdleElapsed k).
  destruct (TimerKind_eqb k IdleElapsed); [reflexivity|apply app_nil_r].
Qed.

(** The timers pending after [deferRender]. *)
Lemma pending_defer b r w k :
  tracked_sys (mkSys b r w) ->
  pending k (SchedulerSteps.defer_world r w)
  = if TimerKind_eqb k MaxDeferElapsed
    then match AdaptiveRenderer.deferredRender r with
         | Some _ => pending k w
         | None => [mkTimer (nextTimer w) MaxDeferElapsed (AdaptiveRenderer.maxDeferMs r)]
         end
    else pending k w.
Proof.
  intros T. unfold tracked_sys in T. cbn [world] in T.
  unfold SchedulerSteps.defer_world, pending.
  destruct (AdaptiveRenderer.deferredRender r) as [x|] eqn:D.
  - cbn [world_tick timers]. now destruct (TimerKind_eqb k MaxDeferElapsed).
  - cbn [world_arm world_tick timers nextTimer]. rewrite pending_arm.
    destruct (TimerKind_eqb k MaxDeferElapsed) eqn:E; [|apply app_nil_r].
    apply SystemFacts.TimerKind_eqb_eq in E. subst k.
    rewrite (pending_unarmed _ _ _ T MaxDeferElapsed D). reflexivity.
Qed.

(** What [flushDeferred] leaves of the typing flag, the idle handle and
    the timers. *)
Lemma flushDeferred_frame b r w :
  tracked_sys (mkSys b r w) ->
  AdaptiveRenderer.isTyping (snd (fst (AdaptiveRenderer.flushDeferred r w)))
  = AdaptiveRenderer.isTyping r
  /\ AdaptiveRenderer.deferredRender (snd (fst (AdaptiveRenderer.flushDeferred r w)))
     = None
  /\ forall k,
       pending k (snd (AdaptiveRenderer.flushDeferred r w))
       = if TimerKind_eqb k MaxDeferElapsed then [] else pending k w.
Proof.
  intros T. unfold tracked_sys in T. cbn [world] in T.
  rewrite SchedulerFacts.flushDeferred_eq. unfold SchedulerSteps.flushDeferred_steps.
  set (r1 := AdaptiveRenderer.set_deferredRender None r).
  set (w1 := SchedulerSteps.flush_cancel r w).
  assert (P1 : forall k, pending k w1
                         = if TimerKind_eqb k MaxDeferElapsed then [] else pending k w).
  { intros k. unfold w1, SchedulerSteps.flush_cancel, pending.
    pose proof (pending_cancel_opt _ _ _ T MaxDeferElapsed k) as C.
    cbn [handle rend] in C.
    destruct (AdaptiveRenderer.deferredRender r); exact C. }
  destruct (AdaptiveRenderer.renderQueue r) as [|e q].
  - cbn [fst snd]. split; [reflexivity|]. split; [reflexivity|exact P1].
  - match goal with
    | |- context [SchedulerSteps.render_all ?es ?r2 ?w2] =>
        pose proof (SchedulerFacts.render_all_preserves
                      (fun r' w' =>
                         AdaptiveRenderer.isTyping r' = AdaptiveRenderer.isTyping r
                         /\ AdaptiveRenderer.deferredRender r' = None
                         /\ timers w' = timers w1)
                      (fun f r0 w0 H0 => H0) es r2 w2
                      (conj eq_refl (conj eq_refl eq_refl))) as R;
        destruct (SchedulerSteps.render_all es r2 w2) as [[[u|x] r3] w3]
    end; cbn [fst snd] in *; destruct R as (R1 & R2 & R3);
      (split; [exact R1|]); (split; [exact R2|]);
      intros k; unfold pending in *; rewrite R3; apply P1.
Qed.

(** The timers pending once timer [h] has left the table to fire. *)
Lemma pending_fired h s t k :
  tracked_sys s ->
  find (fun t => Nat.eqb (tid t) h) (timers (world s)) = Some t ->
  pending k (world_cancel h (world s))
  = if TimerKind_eqb k (kind t) then [] else pending k (world s).
Proof.
  intros T F. apply find_some in F as [Hin Ht]. apply Nat.eqb_eq in Ht. subst h.
  unfold pending, world_cancel. cbn [timers].
  apply (pending_cancel _ _ _ T (kind t) (tid t) k).
  destruct T as (T1 & _). now apply T1.
Qed.

(** [flushDeferred] as an action of the system. *)
Lemma on_rend_flushDeferred s :
  tracked_sys s ->
  let s' := on_rend AdaptiveRenderer.flushDeferred s in
  buf s' = buf s
  /\ AdaptiveRenderer.isTyping (rend s') = AdaptiveRenderer.isTyping (rend s)
  /\ AdaptiveRenderer.deferredRender (rend s') = None
  /\ forall k, pending k (world s')
               = if TimerKind_eqb k MaxDeferElapsed then [] else pending k (world s).
Proof.
  intros T. destruct s as [b r w]. cbv zeta.
  destruct (flushDeferred_frame b r w T) as (F1 & F2 & F3).
  unfold on_rend. cbn [buf rend world].
  destruct (AdaptiveRenderer.flushDeferred r w) as [[x r'] w'].
  cbn [fst snd buf rend world] in *. repeat split; assumption.
Qed.

(** *** A typing mode always has the timer that ends it *)

Lemma step_flags_armed a s :
  (forall inputs, a <> PushBatch inputs) ->
  tracked_sys s -> flags_armed s -> flags_armed (step a s).
Proof.
  intros NB T A. destruct s as [b r w]. unfold flags_armed in *.
  destruct a; cbn [step]; try exact A.
  - unfold on_buf. cbn [buf rend world]. rewrite BufferFacts.push_eq.
    intros k Hk. cbn [world]. rewrite (pending_push _ _ b r w k T).
    destruct k; cbn in *; [discriminate|now apply (A IdleElapsed)|discriminate].
  - exfalso. now apply (NB inputs).
  - unfold on_buf. cbn [buf rend world]. rewrite BufferFacts.flush_eq.
    intros k Hk. apply (A k). destruct k; exact Hk.
  - unfold on_rend. cbn [buf rend world]. rewrite SchedulerFacts.onInput_eq.
    intros k Hk. cbn [world]. rewrite (pending_onInput b r w k T).
    destruct k; cbn in *; [now apply (A TypingModeOff)|discriminate|discriminate].
  - unfold on_rend. cbn [buf rend world]. rewrite SchedulerFacts.requestRender_eq.
    destruct (nullish p AdaptiveRenderer.normal);
      [| destruct (SchedulerSteps.typing r _) | destruct (SchedulerSteps.typing r _)];
      rewrite ?SchedulerFacts.executeRender_eq, ?SchedulerFacts.deferRender_eq;
      try exact A;
      intros k Hk; cbn [world];
      rewrite (pending_defer b r (world_tick w) k T);
      (destruct k; [now apply (A TypingModeOff)|now apply (A IdleElapsed)|discriminate]).
  - unfold on_rend. cbn [buf rend world]. rewrite SchedulerFacts.deferRender_eq.
    intros k Hk. cbn [world]. rewrite (pending_defer b r w k T).
    destruct k; [now apply (A TypingModeOff)|now apply (A IdleElapsed)|discriminate].
  - destruct (on_rend_flushDeferred (mkSys b r w) T) as (F0 & F1 & _ & F3).
    intros k Hk. rewrite F3.
    destruct k; cbn in *;
      [apply (A TypingModeOff); now rewrite F0 in Hk
      |apply (A IdleElapsed); now rewrite F1 in Hk
      |discriminate].
  - unfold fire. destruct (find _ _) as [t|] eqn:F; [|exact A]. cbn [buf rend world].
    pose proof (fun k => pending_fired h (mkSys b r w) t k T F) as C. cbn [world] in C.
    assert (Tc : tracked_sys (mkSys b r (world_cancel h w)))
      by (apply (SystemFacts.tracked_cancel _ _ _ T h)).
    destruct (kind t) eqn:K.
    + intros k Hk. cbn [on_buf buf rend world InputBuffer.typingModeOff modify].
      cbn [world]. rewrite C.
      destruct k; cbn in *; [discriminate|now apply (A IdleElapsed)|discriminate].
    + unfold on_rend. cbn [buf rend world].
      rewrite SchedulerFacts.idleElapsed_eq.
      destruct (on_rend_flushDeferred
                  (mkSys b (AdaptiveRenderer.set_isTyping false r) (world_cancel h w)) Tc)
        as (F0 & F1 & _ & F3).
      unfold on_rend in F0, F1, F3. cbn [buf rend world] in F0, F1, F3.
      destruct (AdaptiveRenderer.flushDeferred _ _) as [[x r'] w'].
      cbn [buf rend world] in *.
      intros k Hk. rewrite F3, C.
      destruct k; cbn in *;
        [now apply (A TypingModeOff)|rewrite F1 in Hk; discriminate|discriminate].
    + unfold AdaptiveRenderer.maxDeferElapsed.
      destruct (on_rend_flushDeferred (mkSys b r (world_cancel h w)) Tc)
        as (F0 & F1 & _ & F3).
      intros k Hk. rewrite F3, C.
      destruct k; cbn in *;
        [apply (A TypingModeOff); now rewrite F0 in Hk
        |apply (A IdleElapsed); now rewrite F1 in Hk
        |discriminate].
Qed.

Lemma reachable_flags_armed s : reachable s -> tracked_sys s /\ flags_armed s.
Proof.
  intros (bo & ro & clk & s0 & acts & B & ->).
  apply (SystemMore.run_invariant (fun s => tracked_sys s /\ flags_armed s)
           (fun _ => true)).
  - intros inputs _. induction inputs as [|i inputs IH]; [reflexivity|exact IH].
  - intros a s NB _ [T A]. split; [now apply SystemFacts.step_tracked|].
    now apply step_flags_armed.
  - induction acts as [|a acts IH]; [reflexivity|exact IH].
  - split; [now apply (SystemFacts.boot_tracked bo ro clk)|].
    unfold boot in B. inversion B. intros k Hk. destruct k; discriminate.
Qed.

Lemma pending_single k s :
  tracked_sys s -> pending k (world s) <> [] -> exists t, pending k (world s) = [t].
Proof.
  intros T NE. pose proof (SystemFacts.tracked_count _ _ _ T k) as C.
  fold (pending k (world s)) in C.
  destruct (pending k (world s)) as [|t [|t' l]]; [congruence|now exists t|].
  cbn in C. lia.
Qed.

(** The event loop finds a pending timer by its handle, and it is of the
    kind it was armed for. *)
Lemma find_pending k s t :
  tracked_sys s -> In t (pending k (world s)) ->
  exists t', find (fun x => Nat.eqb (tid x) (tid t)) (timers (world s)) = Some t'
             /\ kind t' = k.
Proof.
  intros T Hin. apply filter_In in Hin as [Hin Kt].
  apply SystemFacts.TimerKind_eqb_eq in Kt.
  destruct (find (fun x => Nat.eqb (tid x) (tid t)) (timers (world s))) as [t'|] eqn:F.
  - exists t'. split; [reflexivity|].
    apply find_some in F as [Hin' E]. apply Nat.eqb_eq in E.
    destruct T as (T1 & _ & _ & T4).
    apply (T4 (kind t') k (tid t)).
    + rewrite <- E. now apply T1.
    + rewrite <- Kt. now apply T1.
  - exfalso. apply (find_none _ _ F t) in Hin. now rewrite Nat.eqb_refl in Hin.
Qed.

(** X8. In every state the system reaches, a typing mode that is on has
    exactly one pending timer to end it: while the buffer's [typingMode] is
    true a typing-mode-off timer is pending, and when it fires [isTyping()]
    is false; while the scheduler's [isTyping] is true an idle timer is
    pending, and when it fires [isTyping] is false. *)
Theorem typing_modes_end_by_timer (s : Sys) :
  reachable s ->
  (InputBuffer.typingMode (buf s) = true ->
   exists t, pending TypingModeOff (world s) = [t]
             /\ InputBuffer.typingMode (buf (step (Fire (tid t)) s)) = false)
  /\ (AdaptiveRenderer.isTyping (rend s) = true ->
      exists t, pending IdleElapsed (world s) = [t]
                /\ AdaptiveRenderer.isTyping (rend (step (Fire (tid t)) s)) = false).
Proof.
  intros R. destruct (reachable_flags_armed s R) as [T A]. split.
  - intros H. destruct (pending_single TypingModeOff s T (A TypingModeOff H)) as [t E].
    exists t. split; [exact E|].
    destruct (find_pending TypingModeOff s t T) as (t' & F & K);
      [rewrite E; now left|].
    cbn [step]. unfold fire. rewrite F, K. reflexivity.
  - intros H. destruct (pending_single IdleElapsed s T (A IdleElapsed H)) as [t E].
    exists t. split; [exact E|].
    destruct (find_pending IdleElapsed s t T) as (t' & F & K);
      [rewrite E; now left|].
    cbn [step]. unfold fire. rewrite F, K.
    assert (Tc : tracked_sys (mkSys (buf s)
                                (AdaptiveRenderer.set_isTyping false (rend s))
                                (world_cancel (tid t) (world s))))
      by (apply (SystemFacts.tracked_cancel _ _ _ T (tid t))).
    destruct (on_rend_flushDeferred _ Tc) as (_ & F1 & _).
    unfold on_rend in *. cbn [buf rend world] in *.
    rewrite SchedulerFacts.idleElapsed_eq.
    destruct (AdaptiveRenderer.flushDeferred _ _) as [[x r'] w'].
    cbn [rend] in *. exact F1.
Qed.

(** After a push and an input both modes are on; firing the two timers
    turns them off. *)
Lemma typing_modes_end_by_timer_witness :
  exists s,
    s = run [Push (InputBuffer.Str "a") None; OnInput]
            (mkSys (InputBuffer.mk [] 1000 50 InputBuffer.zeroMetrics false 0 None 100)
                   (AdaptiveRenderer.mk 50 200 100 0 0 None [] false None
                      (AdaptiveRenderer.mkMetrics 0 0 0 (inject_Z 0) 0))
                   (mkWorld (fun _ => 1000) 1 [] 0 [] []))
    /\ (exists t, pending TypingModeOff (world s) = [t]
                  /\ InputBuffer.typingMode (buf (step (Fire (tid t)) s)) = false)
    /\ (exists t, pending IdleElapsed (world s) = [t]
                  /\ AdaptiveRenderer.isTyping (rend (step (Fire (tid t)) s)) = false).
Proof.
  eexists. split; [reflexivity|].
  match goal with
  | |- (exists t, pending _ (world ?s) = _ /\ _) /\ _ =>
      assert (R : reachable s)
  end.
  { exists InputBuffer.noOptions, AdaptiveRenderer.noOptions, (fun _ => 1000).
    eexists. eexists. split; reflexivity. }
  destruct (typing_modes_end_by_timer _ R) as [A B].
  split; [apply A; reflexivity|apply B; reflexivity].
Defined.

(** *** Re-arming *)

(** X9. A push turns typing mode on and moves its end to the timer armed
    by that push: typing mode goes off when that timer fires, and stays on
    when any other handle fires, the handle of an earlier push included. *)
Theorem push_rearms_typing_mode (s : Sys) (d : InputBuffer.Data) (ts : option Z) :
  reachable s ->
  let s' := step (Push d ts) s in
  let fresh := nextTimer (world s) in
  InputBuffer.typingMode (buf s') = true
  /\ InputBuffer.typingMode (buf (step (Fire fresh) s')) = false
  /\ forall h, h <> fresh -> InputBuffer.typingMode (buf (step (Fire h) s')) = true.
Proof.
  intros R s' fresh.
  pose proof (SystemFacts.reachable_tracked s R) as T.
  pose proof (SystemFacts.step_tracked (Push d ts) s T) as T'. fold s' in T'.
  assert (P : pending TypingModeOff (world s')
              = [mkTimer fresh TypingModeOff (InputBuffer.typingModeDelayMs (buf s))]).
  { destruct s as [b r w]. unfold s'. cbn [step]. unfold on_buf. cbn [buf rend world].
    rewrite BufferFacts.push_eq. cbn [world].
    now rewrite (pending_push d ts b r w TypingModeOff T). }
  assert (M : InputBuffer.typingMode (buf s') = true).
  { unfold s'. cbn [step]. unfold on_buf. rewrite BufferFacts.push_eq. reflexivity. }
  split; [exact M|]. split.
  - destruct (find_pending TypingModeOff s'
                (mkTimer fresh TypingModeOff (InputBuffer.typingModeDelayMs (buf s))) T')
      as (t' & F & K); [rewrite P; now left|].
    cbn [tid] in F. cbn [step]. unfold fire. rewrite F, K. reflexivity.
  - intros h Hh. cbn [step]. unfold fire.
    destruct (find _ _) as [t'|] eqn:F; [|exact M].
    destruct (kind t') eqn:K.
    + exfalso. apply find_some in F as [Hin E]. apply Nat.eqb_eq in E.
      assert (Hp : In t' (pending TypingModeOff (world s')))
        by (apply filter_In; split; [exact Hin|now rewrite K]).
      rewrite P in Hp. destruct Hp as [<-|[]]. cbn in E. congruence.
    + rewrite SystemFacts.buf_on_rend. exact M.
    + rewrite SystemFacts.buf_on_rend. exact M.
Qed.

(** Two pushes: the timer of the first (handle 0) no longer ends typing
    mode, the timer of the second (handle 1) does. *)
Lemma push_rearms_typing_mode_witness :
  exists s s',
    s = run [Push (InputBuffer.Str "a") None]
            (mkSys (InputBuffer.mk [] 1000 50 InputBuffer.zeroMetrics false 0 None 100)
                   (AdaptiveRenderer.mk 50 200 100 0 0 None [] false None
                      (AdaptiveRenderer.mkMetrics 0 0 0 (inject_Z 0) 0))
                   (mkWorld (fun _ => 1000) 1 [] 0 [] []))
    /\ s' = step (Push (InputBuffer.Str "b") None) s
    /\ InputBuffer.typingMode (buf (step (Fire 0%nat) s')) = true
    /\ InputBuffer.typingMode (buf (step (Fire 1%nat) s')) = false.
Proof.
  eexists. eexists. split; [reflexivity|]. split; [reflexivity|].
  match goal with
  | |- InputBuffer.typingMode (buf (step _ (step _ ?s))) = _ /\ _ =>
      assert (R : reachable s)
  end.
  { exists InputBuffer.noOptions, AdaptiveRenderer.noOptions, (fun _ => 1000).
    eexists. eexists. split; reflexivity. }
  destruct (push_rearms_typing_mode _ (InputBuffer.Str "b") None R) as (_ & A & B).
  split; [apply B; discriminate|exact A].
Defined.

(** X10. [onInput] turns the scheduler's typing mode on and moves its end
    to the idle timer armed by that call: [isTyping] goes off when that timer
    fires, and stays on when any other handle fires. *)
Theorem onInput_rearms_idle_timer (s : Sys) :
  reachable s ->
  let s' := step OnInput s in
  let fresh := nextTimer (world s) in
  AdaptiveRenderer.isTyping (rend s') = true
  /\ AdaptiveRenderer.isTyping (rend (step (Fire fresh) s')) = false
  /\ forall h, h <> fresh -> AdaptiveRenderer.isTyping (rend (step (Fire h) s')) = true.
Proof.
  intros R s' fresh.
  pose proof (SystemFacts.reachable_tracked s R) as T.
  pose proof (SystemFacts.step_tracked OnInput s T) as T'. fold s' in T'.
  assert (P : pending IdleElapsed (world s')
              = [mkTimer fresh IdleElapsed (AdaptiveRenderer.idleThresholdMs (rend s))]).
  { destruct s as [b r w]. unfold s'. cbn [step]. unfold on_rend. cbn [buf rend world].
    rewrite SchedulerFacts.onInput_eq. cbn [world].
    now rewrite (pending_onInput b r w IdleElapsed T). }
  assert (M : AdaptiveRenderer.isTyping (rend s') = true).
  { unfold s'. cbn [step]. unfold on_rend. rewrite SchedulerFacts.onInput_eq. reflexivity. }
  assert (Off : forall h,
             AdaptiveRenderer.isTyping
               (rend (on_rend AdaptiveRenderer.idleElapsed
                        (mkSys (buf s') (rend s') (world_cancel h (world s'))))) = false).
  { intros h.
    assert (Tc : tracked_sys (mkSys (buf s')
                                (AdaptiveRenderer.set_isTyping false (rend s'))
                                (world_cancel h (world s'))))
      by (apply (SystemFacts.tracked_cancel _ _ _ T' h)).
    destruct (on_rend_flushDeferred _ Tc) as (_ & F1 & _).
    unfold on_rend in *. cbn [buf rend world] in *.
    rewrite SchedulerFacts.idleElapsed_eq.
    destruct (AdaptiveRenderer.flushDeferred _ _) as [[x r'] w'].
    cbn [rend] in *. exact F1. }
  split; [exact M|]. split.
  - destruct (find_pending IdleElapsed s'
                (mkTimer fresh IdleElapsed (AdaptiveRenderer.idleThresholdMs (rend s))) T')
      as (t' & F & K); [rewrite P; now left|].
    cbn [tid] in F. cbn [step]. unfold fire. rewrite F, K. apply Off.
  - intros h Hh. cbn [step]. unfold fire.
    destruct (find _ _) as [t'|] eqn:F; [|exact M].
    destruct (kind t') eqn:K.
    + rewrite SystemFacts.rend_on_buf. exact M.
    + exfalso. apply find_some in F as [Hin E]. apply Nat.eqb_eq in E.
      assert (Hp : In t' (pending IdleElapsed (world s')))
        by (apply filter_In; split; [exact Hin|now rewrite K]).
      rewrite P in Hp. destruct Hp as [<-|[]]. cbn in E. congruence.
    + assert (Tc : tracked_sys (mkSys (buf s') (rend s') (world_cancel h (world s'))))
        by (apply (SystemFacts.tracked_cancel _ _ _ T' h)).
      destruct (on_rend_flushDeferred _ Tc) as (_ & F1 & _).
      unfold AdaptiveRenderer.maxDeferElapsed. cbn [rend] in F1. now rewrite F1.
Qed.

(** Two inputs: the idle timer of the first (handle 0) no longer ends
    typing, the one of the second (handle 1) does. *)
Lemma onInput_rearms_idle_timer_witness :
  exists s s',
    s = run [OnInput]
            (mkSys (InputBuffer.mk [] 1000 50 InputBuffer.zeroMetrics false 0 None 100)
                   (AdaptiveRenderer.mk 50 200 100 0 0 None [] false None
                      (AdaptiveRenderer.mkMetrics 0 0 0 (inject_Z 0) 0))
                   (mkWorld (fun _ => 1000) 1 [] 0 [] []))
    /\ s' = step OnInput s
    /\ AdaptiveRenderer.isTyping (rend (step (Fire 0%nat) s')) = true
    /\ AdaptiveRenderer.isTyping (rend (step (Fire 1%nat) s')) = false.
Proof.
  eexists. eexists. split; [reflexivity|]. split; [reflexivity|].
  match goal with
  | |- AdaptiveRenderer.isTyping (rend (step _ (step _ ?s))) = _ /\ _ =>
      assert (R : reachable s)
  end.
  { exists InputBuffer.noOptions, AdaptiveRenderer.noOptions, (fun _ => 1000).
    eexists. eexists. split; reflexivity. }
  destruct (onInput_rearms_idle_timer _ R) as (_ & A & B).
  split; [apply B; discriminate|exact A].
Defined.

(** *** Deferred work always has its timer *)

Lemma on_rend_flushDeferred_quiet s :
  tracked_sys s ->
  Forall (fun e => raises (AdaptiveRenderer.renderFn e) = false)
         (AdaptiveRenderer.renderQueue (rend s)) ->
  let s' := on_rend AdaptiveRenderer.flushDeferred s in
  AdaptiveRenderer.renderQueue (rend s') = []
  /\ AdaptiveRenderer.deferredRender (rend s') = None
  /\ renderLog (world s')
     = renderLog (world s)
       ++ map (fun e => label (AdaptiveRenderer.renderFn e))
              (AdaptiveRenderer.sort AdaptiveRenderer.compare
                 (AdaptiveRenderer.renderQueue (rend s))).
Proof.
  intros T Q. destruct s as [b r w]. cbv zeta. cbn [rend world] in *.
  destruct (SchedulerFacts.flushDeferred_returns r w Q) as (r' & w' & E & Q' & D').
  pose proof (SchedulerFacts.flushDeferred_log r w) as L.
  unfold on_rend. cbn [buf rend world]. rewrite E in *. cbn [rend world snd] in *.
  split; [exact Q'|]. split; [exact D'|].
  rewrite L, SchedulerFacts.reached_all; [reflexivity|].
  eapply Permutation_Forall; [symmetry; apply SchedulerFacts.sort_perm|exact Q].
Qed.

Lemma queue_armed_empty b r w :
  AdaptiveRenderer.renderQueue r = [] ->
  AdaptiveRenderer.deferredRender r = None ->
  queue_armed (mkSys b r w).
Proof.
  intros Q D. unfold queue_armed. cbn [rend world]. rewrite Q, D.
  split; [constructor|]. split; intros H; congruence.
Qed.

Lemma step_queue_armed a s :
  (forall inputs, a <> PushBatch inputs) -> quiet a = true ->
  tracked_sys s -> queue_armed s -> queue_armed (step a s).
Proof.
  intros NB Qa T A. destruct s as [b r w].
  assert (Defer : forall f p w0,
             timers w0 = timers w -> nextTimer w0 = nextTimer w ->
             raises f = false ->
             queue_armed (mkSys b (SchedulerSteps.defer_this f p r w0)
                                (SchedulerSteps.defer_world r w0))).
  { intros f p w0 E1 E2 Rf. destruct A as (A1 & A2 & A3). cbn [rend world] in *.
    assert (T0 : tracked_sys (mkSys b r w0))
      by (unfold tracked_sys in *; cbn [world] in *; now rewrite E1, E2).
    unfold queue_armed. cbn [rend world SchedulerSteps.defer_this
                             AdaptiveRenderer.renderQueue AdaptiveRenderer.deferredRender].
    split; [|split].
    - apply Forall_app. split; [exact A1|]. constructor; [exact Rf|constructor].
    - intros _. rewrite (pending_defer b r w0 MaxDeferElapsed T0). cbn.
      destruct (AdaptiveRenderer.deferredRender r) eqn:D; [|discriminate].
      unfold pending. rewrite E1. apply A2. discriminate.
    - intros _. destruct (AdaptiveRenderer.deferredRender r); discriminate. }
  destruct a; cbn [step]; try exact A.
  - unfold on_buf. cbn [buf rend world]. rewrite BufferFacts.push_eq.
    destruct A as (A1 & A2 & A3). split; [exact A1|]. split; [|exact A3].
    cbn [rend world] in *. intros H.
    rewrite (pending_push _ _ b r w MaxDeferElapsed T). now apply A2.
  - exfalso. now apply (NB inputs).
  - unfold on_buf. cbn [buf rend world]. rewrite BufferFacts.flush_eq. exact A.
  - unfold on_rend. cbn [buf rend world]. rewrite SchedulerFacts.onInput_eq.
    destruct A as (A1 & A2 & A3). split; [exact A1|]. split; [|exact A3].
    cbn [rend world] in *. intros H.
    rewrite (pending_onInput b r w MaxDeferElapsed T). now apply A2.
  - cbn [quiet] in Qa. apply negb_true_iff in Qa.
    unfold on_rend. cbn [buf rend world]. rewrite SchedulerFacts.requestRender_eq.
    destruct (nullish p AdaptiveRenderer.normal);
      [| destruct (SchedulerSteps.typing r _) | destruct (SchedulerSteps.typing r _)];
      rewrite ?SchedulerFacts.executeRender_eq, ?SchedulerFacts.deferRender_eq;
      try exact A; now apply Defer.
  - cbn [quiet] in Qa. apply negb_true_iff in Qa.
    unfold on_rend. cbn [buf rend world]. rewrite SchedulerFacts.deferRender_eq.
    now apply Defer.
  - destruct A as (A1 & _).
    destruct (on_rend_flushDeferred_quiet (mkSys b r w) T A1) as (Q' & D' & _).
    destruct (on_rend AdaptiveRenderer.flushDeferred (mkSys b r w)) as [b' r' w'].
    now apply queue_armed_empty.
  - unfold fire. destruct (find _ _) as [t|] eqn:F; [|exact A]. cbn [buf rend world].
    pose proof (pending_fired h (mkSys b r w) t MaxDeferElapsed T F) as C.
    cbn [world] in C.
    assert (Tc : tracked_sys (mkSys b r (world_cancel h w)))
      by (apply (SystemFacts.tracked_cancel _ _ _ T h)).
    destruct A as (A1 & A2 & A3). cbn [rend world] in *.
    destruct (kind t) eqn:K.
    + split; [exact A1|]. split; [|exact A3].
      cbn [on_buf buf rend world InputBuffer.typingModeOff modify]. intros H.
      rewrite C. now apply A2.
    + unfold on_rend. cbn [buf rend world]. rewrite SchedulerFacts.idleElapsed_eq.
      destruct (on_rend_flushDeferred_quiet
                  (mkSys b (AdaptiveRenderer.set_isTyping false r) (world_cancel h w))
                  Tc A1) as (Q' & D' & _).
      unfold on_rend in Q', D'. cbn [buf rend world] in Q', D'.
      destruct (AdaptiveRenderer.flushDeferred _ _) as [[x r'] w'].
      now apply queue_armed_empty.
    + unfold AdaptiveRenderer.maxDeferElapsed.
      destruct (on_rend_flushDeferred_quiet (mkSys b r (world_cancel h w)) Tc A1)
        as (Q' & D' & _).
      destruct (on_rend AdaptiveRenderer.flushDeferred _) as [b' r' w'].
      now apply queue_armed_empty.
Qed.

(** X11. In a system started by the two constructors in which no deferred
    render function raises, a deferred queue that is not empty always has
    exactly one max-defer timer pending; when that timer fires, every queued
    render function is called, in priority order, and the queue is empty. *)
Theorem deferred_work_has_its_timer bo ro clk s0 acts :
  boot bo ro clk = Some s0 ->
  forallb quiet acts = true ->
  let s := run acts s0 in
  AdaptiveRenderer.renderQueue (rend s) <> [] ->
  exists t,
    pending MaxDeferElapsed (world s) = [t]
    /\ AdaptiveRenderer.renderQueue (rend (step (Fire (tid t)) s)) = []
    /\ renderLog (world (step (Fire (tid t)) s))
       = renderLog (world s)
         ++ map (fun e => label (AdaptiveRenderer.renderFn e))
                (AdaptiveRenderer.sort AdaptiveRenderer.compare
                   (AdaptiveRenderer.renderQueue (rend s))).
Proof.
  intros B Q s NE.
  assert (I : tracked_sys s /\ queue_armed s).
  { apply (SystemMore.run_invariant (fun s => tracked_sys s /\ queue_armed s) quiet).
    - intros inputs _. induction inputs as [|i inputs IH]; [reflexivity|exact IH].
    - intros a s1 NB Qa [T A]. split; [now apply SystemFacts.step_tracked|].
      now apply step_queue_armed.
    - exact Q.
    - split; [now apply (SystemFacts.boot_tracked bo ro clk)|].
      unfold boot in B. inversion B. now apply queue_armed_empty. }
  destruct I as [T (A1 & A2 & A3)].
  destruct (pending_single MaxDeferElapsed s T (A2 (A3 NE))) as [t E].
  exists t. split; [exact E|].
  destruct (find_pending MaxDeferElapsed s t T) as (t' & F & K);
    [rewrite E; now left|].
  cbn [step]. unfold fire. rewrite F, K. unfold AdaptiveRenderer.maxDeferElapsed.
  assert (Tc : tracked_sys (mkSys (buf s) (rend s) (world_cancel (tid t) (world s))))
    by (apply (SystemFacts.tracked_cancel _ _ _ T (tid t))).
  destruct (on_rend_flushDeferred_quiet _ Tc A1) as (Q' & _ & L').
  split; [exact Q'|exact L'].
Qed.

(** A low and a normal render deferred during typing: one max-defer timer
    is pending, and when it fires the normal one is called first. *)
Lemma deferred_work_has_its_timer_witness :
  exists s0 s t,
    boot InputBuffer.noOptions AdaptiveRenderer.noOptions (fun _ => 1000) = Some s0
    /\ s = run [OnInput;
                RequestRender (mkRenderFn 1 false) (Some AdaptiveRenderer.low);
                RequestRender (mkRenderFn 2 false) None] s0
    /\ pending MaxDeferElapsed (world s) = [t]
    /\ AdaptiveRenderer.renderQueue (rend (step (Fire (tid t)) s)) = []
    /\ renderLog (world (step (Fire (tid t)) s)) = [2%nat; 1%nat].
Proof.
  eexists. eexists.
  destruct (deferred_work_has_its_timer
              InputBuffer.noOptions AdaptiveRenderer.noOptions (fun _ => 1000)
              (mkSys (InputBuffer.mk [] 1000 50 InputBuffer.zeroMetrics false 0 None 100)
                     (AdaptiveRenderer.mk 50 200 100 0 0 None [] false None
                        (AdaptiveRenderer.mkMetrics 0 0 0 (inject_Z 0) 0))
                     (mkWorld (fun _ => 1000) 1 [] 0 [] []))
              [OnInput;
               RequestRender (mkRenderFn 1 false) (Some AdaptiveRenderer.low);
               RequestRender (mkRenderFn 2 false) None]
              eq_refl eq_refl)
    as (t & E & Q & L).
  - discriminate.
  - exists t. split; [reflexivity|]. split; [reflexivity|]. split; [exact E|].
    split; [exact Q|exact L].
Defined.

End TimerMore.

(** ** The scheduler's counters *)

Module CounterMore.
Import System Runs.

Lemma flushDeferred_counted b r w :
  renders_counted (mkSys b r w) ->
  renders_counted (on_rend AdaptiveRenderer.flushDeferred (mkSys b r w)).
Proof.
  unfold renders_counted, on_rend. cbn [buf rend world]. intros [C1 C2].
  rewrite SchedulerFacts.flushDeferred_eq. unfold SchedulerSteps.flushDeferred_steps.
  assert (L : renderLog (SchedulerSteps.flush_cancel r w) = renderLog w)
    by apply SchedulerFacts.flush_cancel_log.
  assert (Step : forall f r0 w0,
             AdaptiveRenderer.totalRenders (AdaptiveRenderer.metrics r0)
             = List.length (renderLog w0)
             /\ AdaptiveRenderer.deferredRenders (AdaptiveRenderer.metrics r0)
                = AdaptiveRenderer.deferredRenders (AdaptiveRenderer.metrics r) ->
             AdaptiveRenderer.totalRenders
               (AdaptiveRenderer.metrics (SchedulerSteps.execute_this r0 w0))
             = List.length (renderLog (SchedulerSteps.execute_world f w0))
             /\ AdaptiveRenderer.deferredRenders
                  (AdaptiveRenderer.metrics (SchedulerSteps.execute_this r0 w0))
                = AdaptiveRenderer.deferredRenders (AdaptiveRenderer.metrics r)).
  { intros f r0 w0 [H1 H2]. split; [|exact H2].
    cbn. rewrite length_app, H1. cbn. lia. }
  destruct (AdaptiveRenderer.renderQueue r) as [|e q] eqn:Q.
  - cbn [rend world]. rewrite L. split; [exact C1|]. cbn. rewrite Q. cbn. lia.
  - match goal with
    | |- context [SchedulerSteps.render_all ?es ?r1 ?w1] =>
        pose proof (SchedulerFacts.render_all_preserves _ Step es r1 w1) as R;
        pose proof (SchedulerFacts.render_all_queue es r1 w1) as [RQ _];
        destruct (SchedulerSteps.render_all es r1 w1) as [[[u|x] r2] w2]
    end; cbn [fst snd rend world] in *;
      (destruct R as (R1 & R2); [rewrite L; split; [exact C1|reflexivity]|]).
    + split; [exact R1|]. cbn. lia.
    + split; [exact R1|].
      change (AdaptiveRenderer.renderQueue r2
              = AdaptiveRenderer.sort AdaptiveRenderer.compare (e :: q)) in RQ.
      rewrite RQ, R2.
      rewrite (Permutation_length (SchedulerFacts.sort_perm (e :: q))). exact C2.
Qed.

Lemma step_counted a s :
  (forall inputs, a <> PushBatch inputs) ->
  renders_counted s -> renders_counted (step a s).
Proof.
  intros NB C. destruct s as [b r w].
  assert (Exec : forall f w0, renderLog w0 = renderLog w ->
             renders_counted (mkSys b (SchedulerSteps.execute_this r w0)
                                    (SchedulerSteps.execute_world f w0))).
  { intros f w0 E. destruct C as [C1 C2]. unfold renders_counted in *.
    cbn [rend world] in *. split; [|exact C2].
    cbn. rewrite E, length_app, C1. cbn. lia. }
  assert (Defer : forall f p w0, renderLog w0 = renderLog w ->
             renders_counted (mkSys b (SchedulerSteps.defer_this f p r w0)
                                    (SchedulerSteps.defer_world r w0))).
  { intros f p w0 E. destruct C as [C1 C2]. unfold renders_counted in *.
    cbn [rend world] in *. split.
    - unfold SchedulerSteps.defer_world.
      destruct (AdaptiveRenderer.deferredRender r); cbn; now rewrite E.
    - cbn. rewrite length_app. cbn. lia. }
  destruct a; cbn [step]; try exact C.
  - unfold on_buf. cbn [buf rend world]. rewrite BufferFacts.push_eq.
    unfold renders_counted in *. cbn [rend world] in *.
    unfold BufferSteps.push_world.
    destruct timestamp, (InputBuffer.typingModeTimeout b); exact C.
  - exfalso. now apply (NB inputs).
  - unfold on_buf. cbn [buf rend world]. rewrite BufferFacts.flush_eq. exact C.
  - unfold on_rend. cbn [buf rend world]. rewrite SchedulerFacts.onInput_eq.
    unfold renders_counted in *. cbn [rend world] in *.
    unfold SchedulerSteps.onInput_world.
    destruct (AdaptiveRenderer.typingTimeout r); exact C.
  - unfold on_rend. cbn [buf rend world]. rewrite SchedulerFacts.requestRender_eq.
    destruct (nullish p AdaptiveRenderer.normal);
      [| destruct (SchedulerSteps.typing r _) | destruct (SchedulerSteps.typing r _)];
      rewrite ?SchedulerFacts.executeRender_eq, ?SchedulerFacts.deferRender_eq;
      first [now apply Exec | now apply Defer].
  - unfold on_rend. cbn [buf rend world]. rewrite SchedulerFacts.deferRender_eq.
    now apply Defer.
  - unfold on_rend. cbn [buf rend world]. rewrite SchedulerFacts.executeRender_eq.
    now apply Exec.
  - now apply flushDeferred_counted.
  - unfold fire. destruct (find _ _) as [t|]; [|exact C]. cbn [buf rend world].
    destruct (kind t); [exact C| |].
    + unfold on_rend at 1. cbn [buf rend world]. rewrite SchedulerFacts.idleElapsed_eq.
      apply (flushDeferred_counted b (AdaptiveRenderer.set_isTyping false r)
               (world_cancel h w)). exact C.
    + apply (flushDeferred_counted b r (world_cancel h w)). exact C.
Qed.

(** X14. In every state the system reaches, [totalRenders] is the number
    of calls of render functions made so far, those that raised included,
    and [deferredRenders] is at least the length of the deferred queue. *)
Theorem totalRenders_counts_calls (s : Sys) :
  reachable s ->
  AdaptiveRenderer.totalRenders (AdaptiveRenderer.metrics (rend s))
  = List.length (renderLog (world s))
  /\ (List.length (AdaptiveRenderer.renderQueue (rend s))
      <= AdaptiveRenderer.deferredRenders (AdaptiveRenderer.metrics (rend s)))%nat.
Proof.
  intros (bo & ro & clk & s0 & acts & B & ->).
  apply (SystemMore.run_invariant renders_counted (fun _ => true)).
  - intros inputs _. induction inputs as [|i inputs IH]; [reflexivity|exact IH].
  - intros a s NB _ C. now apply step_counted.
  - induction acts as [|a acts IH]; [reflexivity|exact IH].
  - unfold boot in B. inversion B. split; [reflexivity|]. cbn. lia.
Qed.

(** A render that raises, one deferred and flushed, and one still queued:
    two calls, two counted. *)
Lemma totalRenders_counts_calls_witness :
  exists s,
    s = run [ExecuteRender (mkRenderFn 1 true); OnInput;
             RequestRender (mkRenderFn 2 false) None; FlushDeferred;
             RequestRender (mkRenderFn 3 false) None]
            (mkSys (InputBuffer.mk [] 1000 50 InputBuffer.zeroMetrics false 0 None 100)
                   (AdaptiveRenderer.mk 50 200 100 0 0 None [] false None
                      (AdaptiveRenderer.mkMetrics 0 0 0 (inject_Z 0) 0))
                   (mkWorld (fun _ => 1000) 1 [] 0 [] []))
    /\ renderLog (world s) = [1%nat; 2%nat]
    /\ AdaptiveRenderer.totalRenders (AdaptiveRenderer.metrics (rend s))
       = List.length (renderLog (world s)).
Proof.
  eexists. split; [reflexivity|]. split; [reflexivity|].
  refine (proj1 (totalRenders_counts_calls _ _)).
  exists InputBuffer.noOptions, AdaptiveRenderer.noOptions, (fun _ => 1000).
  eexists. eexists. split; reflexivity.
Defined.

End CounterMore.

(** ** The capture thread *)

Module WorkerFacts.
Import InputWorker.

Lemma delivered_post m st :
  delivered (postMessage m st)
  = delivered st ++ match m with InputBatch inputs _ => inputs | _ => [] end.
Proof.
  unfold delivered, postMessage. cbn [posted].
  rewrite flat_map_app. cbn [flat_map]. now rewrite app_nil_r.
Qed.

Lemma flushBuffer_content st :
  delivered (flushBuffer st) ++ inputBuffer (flushBuffer st)
  = delivered st ++ inputBuffer st
  /\ exited (flushBuffer st) = exited st.
Proof.
  unfold flushBuffer. destruct (inputBuffer st) as [|i l] eqn:E; cbn [List.length Nat.eqb].
  - rewrite E. now split.
  - cbn [set_module inputBuffer exited]. rewrite app_nil_r. split; [|reflexivity].
    unfold delivered. cbn [posted postMessage tick set_module].
    rewrite flat_map_app. cbn [flat_map inputBuffer]. now rewrite app_nil_r.
Qed.

Lemma flushBuffer_empties st : inputBuffer (flushBuffer st) = [].
Proof.
  unfold flushBuffer. destruct (inputBuffer st) as [|i l] eqn:E; cbn [List.length Nat.eqb].
  - exact E.
  - reflexivity.
Qed.

Lemma onData_content chunk st :
  delivered (onData chunk st) = delivered st
  /\ map char (inputBuffer (onData chunk st))
     = map char (inputBuffer st) ++ chars_of chunk
  /\ exited (onData chunk st) = exited st.
Proof.
  unfold onData. cbv zeta.
  set (st2 := if 0 <? lastInputTime (tick st) then _ else tick st).
  assert (H : delivered st2 = delivered st /\ inputBuffer st2 = inputBuffer st
              /\ exited st2 = exited st).
  { unfold st2. destruct (0 <? _); [|now repeat split].
    destruct (_ && _); [|now repeat split].
    rewrite delivered_post. cbn. rewrite app_nil_r. now repeat split. }
  destruct H as (H1 & H2 & H3).
  unfold scheduleFlush. cbn [flushTimeout set_module].
  destruct (flushTimeout st2);
    (split; [exact H1|]); (split; [|exact H3]);
    cbn [inputBuffer set_module]; rewrite map_app, H2, map_map; cbn [char];
    now rewrite map_id.
Qed.

Lemma handle_content e st :
  exited st = None -> is_shutdown e = false ->
  map char (delivered (handle e st) ++ inputBuffer (handle e st))
  = map char (delivered st ++ inputBuffer st)
    ++ match e with Data chunk => chars_of chunk | _ => [] end
  /\ exited (handle e st) = None.
Proof.
  intros X NS. unfold handle. rewrite X. destruct e as [chunk|type|h].
  - destruct (onData_content chunk st) as (D & B & E).
    rewrite !map_app, D, B, E, X. now rewrite app_assoc.
  - cbn [is_shutdown] in NS. unfold onMessage. rewrite NS, app_nil_r. now split.
  - rewrite app_nil_r. destruct (existsb _ _); [|now split].
    match goal with
    | |- context [flushBuffer ?s] => destruct (flushBuffer_content s) as [C E]
    end.
    rewrite C, E. now split.
Qed.

Lemma flushBuffer_stdin st :
  isTTY (flushBuffer st) = isTTY st /\ rawMode (flushBuffer st) = rawMode st.
Proof. unfold flushBuffer. destruct (Nat.eqb _ _); split; reflexivity. Qed.

Lemma handle_stdin e st :
  is_shutdown e = false ->
  isTTY (handle e st) = isTTY st /\ rawMode (handle e st) = rawMode st.
Proof.
  intros NS. unfold handle. destruct (exited st); [now split|].
  destruct e as [chunk|type|h].
  - unfold onData, scheduleFlush. cbv zeta.
    destruct (0 <? _); [destruct (_ && _)|];
      cbn [flushTimeout set_module postMessage tick];
      destruct (flushTimeout st); split; reflexivity.
  - cbn [is_shutdown] in NS. unfold onMessage. rewrite NS. now split.
  - destruct (existsb _ _); [|now split].
    match goal with
    | |- context [flushBuffer ?s] => destruct (flushBuffer_stdin s) as [A B]
    end.
    rewrite A, B. now split.
Qed.

Lemma run_stdin evs : forall st,
  forallb (fun e => negb (is_shutdown e)) evs = true ->
  isTTY (run evs st) = isTTY st /\ rawMode (run evs st) = rawMode st.
Proof.
  induction evs as [|e evs IH]; intros st NS; [now split|].
  cbn [forallb] in NS. apply andb_true_iff in NS as [Ne NS].
  apply negb_true_iff in Ne. cbn [run fold_left]. fold (run evs (handle e st)).
  destruct (IH (handle e st) NS) as [A B]. destruct (handle_stdin e st Ne) as [A' B'].
  split; congruence.
Qed.

Lemma worker_run_app a b st : run (a ++ b) st = run b (run a st).
Proof. unfold run. apply fold_left_app. Qed.

Lemma run_content evs : forall st,
  exited st = None -> forallb (fun e => negb (is_shutdown e)) evs = true ->
  map char (delivered (run evs st) ++ inputBuffer (run evs st))
  = map char (delivered st ++ inputBuffer st) ++ captured evs
  /\ exited (run evs st) = None.
Proof.
  induction evs as [|e evs IH]; intros st X NS.
  - cbn. now rewrite app_nil_r.
  - cbn [forallb] in NS. apply andb_true_iff in NS as [Ne NS].
    apply negb_true_iff in Ne.
    destruct (handle_content e st X Ne) as [C E].
    cbn [run fold_left]. fold (run evs (handle e st)).
    destruct (IH (handle e st) E NS) as [C' E'].
    split; [|exact E']. rewrite C', C. cbn [captured flat_map].
    now rewrite <- app_assoc.
Qed.

Lemma run_exited evs : forall st c, exited st = Some c -> run evs st = st.
Proof.
  induction evs as [|e evs IH]; intros st c X; [reflexivity|].
  cbn [run fold_left]. unfold handle at 2. rewrite X. now apply (IH st c).
Qed.

(** X15. Until it is told to shut down, the worker neither drops nor
    reorders input: the characters of the batches it has posted, in posting
    order, followed by the characters still buffered, are the characters of
    every chunk it received, in arrival order. *)
Theorem worker_keeps_every_character (tty : bool) (clk : nat -> Z) (evs : list Event) :
  forallb (fun e => negb (is_shutdown e)) evs = true ->
  let st := run evs (start tty clk) in
  map char (delivered st ++ inputBuffer st) = captured evs.
Proof.
  intros NS st.
  destruct (run_content evs (start tty clk) eq_refl NS) as [C _]. exact C.
Qed.

(** Two chunks, the timer between them, and one more chunk: the batch
    holds ["a"; "b"], the buffer ["c"]. *)
Lemma worker_keeps_every_character_witness :
  let st := run [Data "ab"; Timer_ 0; Data "c"] (start true (fun _ => 1000)) in
  map char (delivered st) = ["a"; "b"]%string
  /\ map char (inputBuffer st) = ["c"]%string
  /\ map char (delivered st ++ inputBuffer st) = ["a"; "b"; "c"]%string.
Proof.
  cbv zeta. split; [reflexivity|]. split; [reflexivity|].
  apply (worker_keeps_every_character true (fun _ => 1000)
           [Data "ab"; Timer_ 0; Data "c"]).
  reflexivity.
Defined.

Lemma after_shutdown (tty : bool) (clk : nat -> Z)
  (before after : list Event) :
  forallb (fun e => negb (is_shutdown e)) before = true ->
  let st := run (before ++ Message_ "shutdown" :: after) (start tty clk) in
  map char (delivered st) = captured before
  /\ inputBuffer st = []
  /\ exited st = Some 0
  /\ rawMode st = false
  /\ flowing st = false
  /\ st = run (before ++ [Message_ "shutdown"]) (start tty clk).
Proof.
  intros NS st.
  destruct (run_content before (start tty clk) eq_refl NS) as [C X].
  set (st1 := run before (start tty clk)) in *.
  destruct (run_stdin before (start tty clk) NS) as [R1 R2]. fold st1 in R1, R2.
  cbn [start isTTY rawMode] in R1, R2.
  assert (S1 : run (before ++ [Message_ "shutdown"]) (start tty clk)
               = handle (Message_ "shutdown") st1)
    by (rewrite worker_run_app; reflexivity).
  assert (S2 : st = handle (Message_ "shutdown") st1).
  { unfold st. change (before ++ Message_ "shutdown" :: after)
                 with (before ++ [Message_ "shutdown"] ++ after).
    rewrite app_assoc, worker_run_app, S1.
    apply (run_exited after _ 0). unfold handle. rewrite X. reflexivity. }
  rewrite S1, S2. unfold handle. rewrite X. unfold onMessage. cbn [String.eqb Ascii.eqb Bool.eqb].
  cbn [inputBuffer exited rawMode flowing].
  destruct (flushBuffer_content st1) as [F _].
  pose proof (flushBuffer_empties st1) as E.
  assert (D : delivered
                (mk (lastInputTime (flushBuffer st1)) (inputBuffer (flushBuffer st1))
                    (flushTimeout (flushBuffer st1)) (readings (flushBuffer st1))
                    (consumed (flushBuffer st1)) (scheduled (flushBuffer st1))
                    (nextHandle (flushBuffer st1)) (posted (flushBuffer st1))
                    (isTTY (flushBuffer st1))
                    (if isTTY (flushBuffer st1) then false else rawMode (flushBuffer st1))
                    false (Some 0))
              = delivered (flushBuffer st1)) by reflexivity.
  rewrite D. rewrite E, app_nil_r in F. rewrite F, C.
  split; [reflexivity|]. split; [exact E|]. split; [reflexivity|].
  split; [|split; reflexivity].
  destruct (flushBuffer_stdin st1) as [I1 I2]. rewrite I1, I2, R1, R2.
  destruct tty; reflexivity.
Qed.

(** X16. On [shutdown] the worker posts what is buffered before it exits:
    everything received before the message has been posted, in order, the
    buffer is empty, stdin is paused and out of raw mode, the exit code is 0,
    and nothing that arrives later is handled. *)
Theorem shutdown_flushes_the_buffer (tty : bool) (clk : nat -> Z)
  (before after : list Event) :
  forallb (fun e => negb (is_shutdown e)) before = true ->
  let st := run (before ++ Message_ "shutdown" :: after) (start tty clk) in
  map char (delivered st) = captured before
  /\ inputBuffer st = []
  /\ exited st = Some 0
  /\ rawMode st = false
  /\ flowing st = false
  /\ st = run (before ++ [Message_ "shutdown"]) (start tty clk).
Proof. apply after_shutdown. Qed.

(** ["hi"] received, then [shutdown], then a chunk that is never read. *)
Lemma shutdown_flushes_the_buffer_witness :
  let st := run [Data "hi"; Message_ "shutdown"; Data "late"]
                (start true (fun _ => 1000)) in
  map char (delivered st) = ["h"; "i"]%string /\ inputBuffer st = []
  /\ exited st = Some 0.
Proof.
  cbv zeta.
  destruct (shutdown_flushes_the_buffer true (fun _ => 1000) [Data "hi"] [Data "late"])
    as (A & B & C & _); [reflexivity|].
  split; [exact A|]. split; [exact B|exact C].
Defined.

(** *** The flush timer *)

Lemma chars_of_nonempty chunk :
  Nat.eqb (String.length chunk) 0 = false -> chars_of chunk <> [].
Proof. destruct chunk; [discriminate|]. intros _. discriminate. Qed.

Lemma onData_scheduled chunk st :
  Nat.eqb (String.length chunk) 0 = false ->
  flush_scheduled st -> flush_scheduled (onData chunk st).
Proof.
  intros NE [S B]. pose proof (chars_of_nonempty chunk NE) as C.
  unfold onData. cbv zeta.
  set (st2 := if 0 <? lastInputTime (tick st) then _ else tick st).
  assert (H : scheduled st2 = scheduled st /\ flushTimeout st2 = flushTimeout st).
  { unfold st2. destruct (0 <? _); [|now split]. destruct (_ && _); now split. }
  destruct H as [H1 H2].
  unfold scheduleFlush, flush_scheduled. cbn [flushTimeout set_module]. rewrite H2.
  destruct (flushTimeout st) as [h|] eqn:F;
    cbn [scheduled flushTimeout inputBuffer set_module]; rewrite ?H1, ?S.
  - split; [reflexivity|]. split; [discriminate|].
    intros _ E. apply app_eq_nil in E as [_ E]. apply map_eq_nil in E. contradiction.
  - split; [reflexivity|]. split; [discriminate|].
    intros _ E. apply app_eq_nil in E as [_ E]. apply map_eq_nil in E. contradiction.
Qed.

Lemma timer_scheduled h st :
  exited st = None -> flush_scheduled st ->
  flush_scheduled (handle (Timer_ h) st)
  /\ (In h (scheduled st) ->
      inputBuffer st <> []
      /\ posted (handle (Timer_ h) st)
         = posted st ++ [InputBatch (inputBuffer st) (now st)]
      /\ inputBuffer (handle (Timer_ h) st) = []
      /\ scheduled (handle (Timer_ h) st) = []).
Proof.
  intros X [S B]. unfold handle. rewrite X.
  destruct (existsb (Nat.eqb h) (scheduled st)) eqn:E.
  - apply existsb_exists in E as (x & Hx & Ex). apply Nat.eqb_eq in Ex. subst x.
    destruct (flushTimeout st) as [h'|] eqn:F; [|rewrite S in Hx; contradiction].
    rewrite S in Hx. destruct Hx as [->|[]].
    assert (NE : inputBuffer st <> []) by (apply B; discriminate).
    unfold flushBuffer. cbn [inputBuffer].
    destruct (inputBuffer st) as [|i l] eqn:I; [congruence|].
    cbn [List.length Nat.eqb]. rewrite S. cbn [filter]. rewrite Nat.eqb_refl. cbn [negb].
    split; [|intros _; repeat split; discriminate].
    unfold flush_scheduled. cbn. split; [reflexivity|]. split; intros H; congruence.
  - split; [now split|]. intros Hin. exfalso.
    assert (existsb (Nat.eqb h) (scheduled st) = true)
      by (apply existsb_exists; exists h; split; [exact Hin|apply Nat.eqb_refl]).
    congruence.
Qed.

Lemma run_scheduled evs : forall st,
  exited st = None -> flush_scheduled st ->
  forallb (fun e => negb (is_shutdown e)) evs = true ->
  forallb no_empty_chunk evs = true ->
  flush_scheduled (run evs st) /\ exited (run evs st) = None.
Proof.
  induction evs as [|e evs IH]; intros st X J NS NE; [now split|].
  cbn [forallb] in NS, NE.
  apply andb_true_iff in NS as [Ns NS]. apply andb_true_iff in NE as [Ne NE].
  apply negb_true_iff in Ns.
  cbn [run fold_left]. fold (run evs (handle e st)).
  destruct (handle_content e st X Ns) as [_ X'].
  apply IH; [exact X'| |exact NS|exact NE].
  destruct e as [chunk|type|h].
  - unfold handle. rewrite X. cbn [no_empty_chunk] in Ne. apply negb_true_iff in Ne.
    now apply onData_scheduled.
  - unfold handle. rewrite X. cbn [is_shutdown] in Ns. unfold onMessage. now rewrite Ns.
  - now apply timer_scheduled.
Qed.

(** X17. While the worker runs and no chunk is empty, buffered input
    always has its flush scheduled: exactly one timer is pending when the
    buffer holds input and none when it is empty, and when the timer fires
    the whole buffer is posted as one batch, in order, and the buffer is
    empty. *)
Theorem buffered_input_is_scheduled (tty : bool) (clk : nat -> Z) (evs : list Event) :
  forallb (fun e => negb (is_shutdown e)) evs = true ->
  forallb no_empty_chunk evs = true ->
  let st := run evs (start tty clk) in
  (inputBuffer st = [] -> scheduled st = [])
  /\ (inputBuffer st <> [] ->
      exists h,
        scheduled st = [h]
        /\ posted (handle (Timer_ h) st)
           = posted st ++ [InputBatch (inputBuffer st) (now st)]
        /\ inputBuffer (handle (Timer_ h) st) = []
        /\ scheduled (handle (Timer_ h) st) = []).
Proof.
  intros NS NE st.
  assert (J0 : flush_scheduled (start tty clk))
    by (split; [reflexivity|]; split; intros H; exfalso; now apply H).
  destruct (run_scheduled evs (start tty clk) eq_refl J0 NS NE) as [J X].
  fold st in J, X. pose proof J as [S B]. split.
  - intros E. destruct (flushTimeout st) as [h|] eqn:F; [|exact S].
    exfalso. assert (inputBuffer st <> []) by (apply B; discriminate). contradiction.
  - intros E. destruct (flushTimeout st) as [h|] eqn:F;
      [|exfalso; now apply (proj1 B E)].
    exists h. split; [exact S|].
    destruct (timer_scheduled h st X J) as [_ T].
    destruct T as (_ & T1 & T2 & T3); [rewrite S; now left|].
    repeat split; assumption.
Qed.

(** Two chunks before the timer fires: one timer (handle 0), and firing it
    posts the three characters as one batch. *)
Lemma buffered_input_is_scheduled_witness :
  let st := run [Data "ab"; Data "c"] (start true (fun _ => 1000)) in
  exists h,
    scheduled st = [h]
    /\ posted (handle (Timer_ h) st)
       = [Ready;
          InputBatch [mkInput "a" 1000 true; mkInput "b" 1000 true; mkInput "c" 1000 false]
                     1000]
    /\ inputBuffer (handle (Timer_ h) st) = [].
Proof.
  cbv zeta.
  destruct (buffered_input_is_scheduled true (fun _ => 1000) [Data "ab"; Data "c"]
              eq_refl eq_refl) as [_ H].
  destruct H as (h & S & P & B & _); [discriminate|].
  exists h. split; [exact S|]. split; [|exact B]. rewrite P. reflexivity.
Defined.

(** *** What is posted *)

Lemma flushBuffer_posts st rest :
  posted st = Ready :: rest -> Forall well_formed rest ->
  exists rest', posted (flushBuffer st) = Ready :: rest' /\ Forall well_formed rest'.
Proof.
  intros P F. unfold flushBuffer.
  destruct (inputBuffer st) as [|i l] eqn:E; cbn [List.length Nat.eqb].
  - now exists rest.
  - exists (rest ++ [InputBatch (i :: l) (now st)]). cbn. rewrite P. split; [reflexivity|].
    apply Forall_app. split; [exact F|]. constructor; [discriminate|constructor].
Qed.

Lemma handle_posts e st rest :
  posted st = Ready :: rest -> Forall well_formed rest ->
  exists rest', posted (handle e st) = Ready :: rest' /\ Forall well_formed rest'.
Proof.
  intros P F. unfold handle. destruct (exited st); [now exists rest|].
  destruct e as [chunk|type|h].
  - unfold onData, scheduleFlush. cbv zeta.
    destruct (0 <? lastInputTime (tick st)).
    + destruct (DELAY_WARNING_THRESHOLD_MS <? _) eqn:G; cbn [andb].
      * destruct (0 <? Z.of_nat _).
        -- apply Z.ltb_lt in G.
           exists (rest ++ [DelayWarning
                              (now st - lastInputTime (tick st))
                              ("Input processing delayed by "
                               ++ decimal (now st - lastInputTime (tick st)) ++ "ms ("
                               ++ decimal (Z.of_nat (List.length (inputBuffer (tick st))))
                               ++ " chars buffered)")%string]).
           split; [|apply Forall_app; split; [exact F|]; constructor; [exact G|constructor]].
           unfold set_module, postMessage, tick; cbn [flushTimeout].
           destruct (flushTimeout st); cbn [posted]; rewrite P; reflexivity.
        -- exists rest. unfold set_module, tick; cbn [flushTimeout].
           destruct (flushTimeout st); (split; [exact P|exact F]).
      * exists rest. unfold set_module, tick; cbn [flushTimeout].
        destruct (flushTimeout st); (split; [exact P|exact F]).
    + exists rest. unfold set_module, tick; cbn [flushTimeout].
      destruct (flushTimeout st); (split; [exact P|exact F]).
  - unfold onMessage. destruct (String.eqb _ _); [|now exists rest].
    destruct (flushBuffer_posts st rest P F) as (rest' & P' & F').
    exists rest'. now split.
  - destruct (existsb _ _); [|now exists rest].
    match goal with
    | |- context [flushBuffer ?s] => apply (flushBuffer_posts s rest P F)
    end.
Qed.

(** X23. Whatever it receives, the worker posts [ready] first and only
    once, never posts a batch without inputs, and only warns about gaps above
    50ms. *)
Theorem worker_posts_only_full_batches (tty : bool) (clk : nat -> Z) (evs : list Event) :
  exists rest,
    posted (run evs (start tty clk)) = Ready :: rest /\ Forall well_formed rest.
Proof.
  assert (G : forall evs st rest,
             posted st = Ready :: rest -> Forall well_formed rest ->
             exists rest', posted (run evs st) = Ready :: rest' /\ Forall well_formed rest').
  { clear. induction evs as [|e evs IH]; intros st rest P F; [now exists rest|].
    destruct (handle_posts e st rest P F) as (rest' & P' & F').
    cbn [run fold_left]. now apply (IH (handle e st) rest'). }
  apply (G evs (start tty clk) []); [reflexivity|constructor].
Qed.

End WorkerFacts.

(** ** From the capture thread to the flush *)

Module PipelineFacts.
Import System.

Lemma join_chars_of chunk : InputBuffer.join (InputWorker.chars_of chunk) = chunk.
Proof.
  induction chunk as [|a chunk IH]; [reflexivity|].
  change (String a (InputBuffer.join (InputWorker.chars_of chunk)) = String a chunk).
  now rewrite IH.
Qed.

Lemma join_captured evs :
  InputBuffer.join (InputWorker.captured evs) = InputWorker.typed evs.
Proof.
  induction evs as [|e evs IH]; [reflexivity|].
  cbn [InputWorker.captured InputWorker.typed flat_map fold_right].
  fold (InputWorker.captured evs). fold (InputWorker.typed evs).
  rewrite BufferFacts.join_app, IH.
  destruct e; [now rewrite join_chars_of| |]; reflexivity.
Qed.

Lemma captured_single evs :
  Forall (fun c => exists a, c = String a EmptyString) (InputWorker.captured evs).
Proof.
  apply Forall_forall. intros c Hc. unfold InputWorker.captured in Hc.
  apply in_flat_map in Hc as (e & _ & Hc). destruct e; try contradiction.
  unfold InputWorker.chars_of in Hc. apply in_map_iff in Hc as (a & <- & _). now exists a.
Qed.

(** The batch as [pushBatch] reads it. *)
Lemma pushed_batch inputs :
  Forall (fun c => exists a, c = String a EmptyString) (map InputWorker.char inputs) ->
  pushed (PushBatch
            (map (fun i => InputBuffer.mkInput (InputBuffer.Str (InputWorker.char i))
                                               (Some (InputWorker.timestamp i))) inputs))
  = map InputWorker.char inputs.
Proof.
  induction inputs as [|i inputs IH]; intros F; [reflexivity|].
  inversion F as [|? ? [a Ha] Fr]; subst.
  cbn [pushed map flat_map InputBuffer.input_char] in *.
  rewrite IH by exact Fr. rewrite Ha. reflexivity.
Qed.

Lemma pushed_posted msgs :
  Forall (fun c => exists a, c = String a EmptyString)
         (map InputWorker.char
              (flat_map (fun m => match m with
                                  | InputWorker.InputBatch inputs _ => inputs
                                  | _ => []
                                  end) msgs)) ->
  flat_map pushed (flat_map InputWorker.to_pushBatch msgs)
  = map InputWorker.char
        (flat_map (fun m => match m with
                            | InputWorker.InputBatch inputs _ => inputs
                            | _ => []
                            end) msgs)
  /\ ~ In Flush (flat_map InputWorker.to_pushBatch msgs).
Proof.
  induction msgs as [|m msgs IH]; intros F; [split; [reflexivity|intros []]|].
  cbn [flat_map] in *. rewrite map_app in F. apply Forall_app in F as [Fm Fr].
  destruct (IH Fr) as [E N]. rewrite flat_map_app, map_app, E. split.
  - f_equal. destruct m; try reflexivity.
    cbn [InputWorker.to_pushBatch flat_map]. rewrite app_nil_r. now apply pushed_batch.
  - intros H. apply in_app_or in H as [H|H]; [|now apply N].
    destruct m; cbn in H; try contradiction. destruct H as [H|[]]. discriminate.
Qed.

(** X18. End to end: the worker captures some chunks and is shut down, the
    main thread gives each batch it received to [pushBatch], in order, and
    then calls [flush]: the flush returns exactly the text of the chunks, in
    the order they arrived, whatever the batching was. *)
Theorem captured_text_reaches_the_flush
  (tty : bool) (clk : nat -> Z) (evs : list InputWorker.Event)
  (bo : InputBuffer.Options) (ro : AdaptiveRenderer.Options) (mclk : nat -> Z) (s0 : Sys) :
  forallb (fun e => negb (InputWorker.is_shutdown e)) evs = true ->
  boot bo ro mclk = Some s0 ->
  let st := InputWorker.run (evs ++ [InputWorker.Message_ "shutdown"])
                            (InputWorker.start tty clk) in
  let s := run (flat_map InputWorker.to_pushBatch (InputWorker.posted st)) s0 in
  exists r b' w',
    InputBuffer.flush (buf s) (world s) = (Ok r, b', w')
    /\ InputBuffer.chars r = InputWorker.typed evs.
Proof.
  intros NS B st s.
  destruct (WorkerFacts.after_shutdown tty clk evs [] NS) as (C & _).
  fold st in C.
  assert (F : Forall (fun c => exists a, c = String a EmptyString)
                     (map InputWorker.char (InputWorker.delivered st)))
    by (rewrite C; apply captured_single).
  destruct (pushed_posted (InputWorker.posted st) F) as [P N].
  pose proof (SystemFacts.run_queued
                (flat_map InputWorker.to_pushBatch (InputWorker.posted st)) s0 N) as Q.
  fold s in Q.
  assert (Q0 : queued s0 = []) by (unfold boot in B; inversion B; reflexivity).
  rewrite Q0, P in Q. cbn [app] in Q. fold (InputWorker.delivered st) in Q.
  rewrite C in Q.
  eexists _, _, _. split; [apply BufferFacts.flush_eq|].
  cbn [BufferSteps.flush_value InputBuffer.chars]. fold (queued s).
  rewrite Q. apply join_captured.
Qed.

(** ["he"] and ["y"] captured in two batches: the flush returns ["hey"]. *)
Lemma captured_text_reaches_the_flush_witness :
  exists s0 r b' w',
    boot InputBuffer.noOptions AdaptiveRenderer.noOptions (fun _ => 2000) = Some s0
    /\ (let st := InputWorker.run
                    [InputWorker.Data "he"; InputWorker.Timer_ 0; InputWorker.Data "y";
                     InputWorker.Message_ "shutdown"]
                    (InputWorker.start true (fun _ => 1000)) in
        let s := run (flat_map InputWorker.to_pushBatch (InputWorker.posted st)) s0 in
        InputBuffer.flush (buf s) (world s) = (Ok r, b', w'))
    /\ InputBuffer.chars r = "hey"%string.
Proof.
  eexists.
  destruct (captured_text_reaches_the_flush true (fun _ => 1000)
              [InputWorker.Data "he"; InputWorker.Timer_ 0; InputWorker.Data "y"]
              InputBuffer.noOptions AdaptiveRenderer.noOptions (fun _ => 2000)
              (mkSys (InputBuffer.mk [] 2000 50 InputBuffer.zeroMetrics false 0 None 100)
                     (AdaptiveRenderer.mk 50 200 100 0 0 None [] false None
                        (AdaptiveRenderer.mkMetrics 0 0 0 (inject_Z 0) 0))
                     (mkWorld (fun _ => 2000) 1 [] 0 [] []))
              eq_refl eq_refl)
    as (r & b' & w' & E & C).
  exists r, b', w'. split; [reflexivity|]. split; [exact E|exact C].
Defined.

End PipelineFacts.

(** ** The wrapper *)

Module WrapperFacts.
Import ClaudeWrapper.

Lemma exited_stays evs : forall st c, exited st = Some c -> run evs st = st.
Proof.
  induction evs as [|e evs IH]; intros st c X; [reflexivity|].
  cbn [run fold_left]. fold (run evs (handle e st)).
  assert (H : handle e st = st) by (unfold handle; now rewrite X).
  rewrite H. now apply (IH st c).
Qed.

(** X19. When the child closes, its stdin is closed already, so the
    handler's last flush writes nothing: the input still queued is taken out
    of the buffer and is not forwarded, the interval is cleared, the wrapper
    exits with the child's code (0 if it has none), and nothing that arrives
    later is handled. *)
Theorem close_discards_queued_input (st : t) (code : option Z) (debug : bool) :
  exited st = None ->
  let st' := handle (Close code false debug) st in
  written st' = written st
  /\ InputBuffer.buffer (inputBuffer st') = []
  /\ forwarding st' = false
  /\ exited st' = Some (nullish code 0)
  /\ forall evs, run evs st' = st'.
Proof.
  intros X. cbv zeta.
  assert (H : written (handle (Close code false debug) st) = written st
              /\ InputBuffer.buffer (inputBuffer (handle (Close code false debug) st)) = []
              /\ forwarding (handle (Close code false debug) st) = false
              /\ exited (handle (Close code false debug) st) = Some (nullish code 0)).
  { unfold handle. rewrite X. unfold onClose. rewrite BufferFacts.flush_eq.
    unfold forwardChars. rewrite andb_false_r. now repeat split. }
  destruct H as (H1 & H2 & H3 & H4). repeat (split; [assumption|]).
  intros evs. now apply (exited_stays evs _ (nullish code 0)).
Qed.

(** ["ab"] is queued when the child closes without a code: nothing is
    written, the queue is empty, the wrapper exits with 0 and a later tick
    changes nothing. *)
Lemma close_discards_queued_input_witness :
  let st1 := mk (InputBuffer.mk [InputBuffer.mkUnit "a" 1000 1000;
                                 InputBuffer.mkUnit "b" 1000 1000]
                                1000 100 InputBuffer.zeroMetrics true 1000 (Some 0%nat) 150)
                (mkWorld (fun _ => 1000) 4 [mkTimer 0 TypingModeOff 150] 1 [] [])
                [] [] true None in
  written (handle (Close None false false) st1) = []
  /\ InputBuffer.buffer (inputBuffer (handle (Close None false false) st1)) = []
  /\ exited (handle (Close None false false) st1) = Some 0
  /\ run [Tick true] (handle (Close None false false) st1)
     = handle (Close None false false) st1.
Proof.
  cbv zeta.
  match goal with
  | |- written (handle (Close None false false) ?s) = _ /\ _ =>
      destruct (close_discards_queued_input s None false eq_refl) as (A & B & _ & C & D)
  end.
  split; [exact A|]. split; [exact B|]. split; [exact C|exact (D [Tick true])].
Defined.




(** *** The arguments of the child *)

(** X21. The arguments given to the child are the user's arguments, in
    order, with the skip-permissions flag put in front exactly when the user
    did not pass it and [CLAUDE2_SKIP_PERMS] is ["1"]: the flag is never added
    to arguments that already have it. *)
Theorem childArgs_adds_the_flag_once (argv : list string) (env : option string) :
  let args := skipn 2 argv in
  (In SKIP_FLAG args -> childArgs argv env = args)
  /\ (~ In SKIP_FLAG args -> env = Some "1"%string ->
      childArgs argv env = SKIP_FLAG :: args)
  /\ (env <> Some "1"%string -> childArgs argv env = args)
  /\ (count_occ string_dec (childArgs argv env) SKIP_FLAG
      <= Nat.max 1 (count_occ string_dec args SKIP_FLAG))%nat.
Proof.
  cbv zeta. unfold childArgs.
  set (args := skipn 2 argv).
  destruct (existsb (String.eqb SKIP_FLAG) args) eqn:E; cbn [negb].
  - split; [reflexivity|]. split; [|split; [reflexivity|lia]].
    intros N _. exfalso. apply N.
    apply existsb_exists in E as (x & Hx & Ex). apply String.eqb_eq in Ex. now subst.
  - assert (N : ~ In SKIP_FLAG args).
    { intros H. assert (existsb (String.eqb SKIP_FLAG) args = true)
        by (apply existsb_exists; exists SKIP_FLAG; split; [exact H|apply String.eqb_refl]).
      congruence. }
    split; [intros H; contradiction|].
    split; [intros _ ->; reflexivity|].
    split.
    + intros Ne. destruct env as [v|]; [|reflexivity].
      destruct (String.eqb v "1") eqn:V; [|reflexivity].
      apply String.eqb_eq in V. subst. congruence.
    + destruct (match env with Some v => String.eqb v "1" | None => false end);
        [|lia].
      cbn [count_occ]. destruct (string_dec SKIP_FLAG SKIP_FLAG); [|congruence].
      rewrite (proj1 (count_occ_not_In string_dec args SKIP_FLAG) N). lia.
Qed.

(** With [CLAUDE2_SKIP_PERMS=1]: the flag is added to ["-p"], not to
    arguments that have it. *)
Lemma childArgs_adds_the_flag_once_witness :
  childArgs ["node"; "claude-wrapper.mjs"; "-p"]%string (Some "1"%string)
  = [SKIP_FLAG; "-p"%string]
  /\ childArgs ["node"; "claude-wrapper.mjs"; SKIP_FLAG]%string (Some "1"%string)
     = [SKIP_FLAG].
Proof.
  split.
  - apply (proj1 (proj2 (childArgs_adds_the_flag_once
                           ["node"; "claude-wrapper.mjs"; "-p"]%string (Some "1"%string)))).
    + cbn. unfold SKIP_FLAG. intros [H|[]]. discriminate.
    + reflexivity.
  - apply (proj1 (childArgs_adds_the_flag_once
                    ["node"; "claude-wrapper.mjs"; SKIP_FLAG]%string (Some "1"%string))).
    cbn. now left.
Defined.

End WrapperFacts.

(** ** The stress test *)

Module StressFacts.
Import System StressTest.

Lemma pushed_fires hs : flat_map pushed (map Fire hs) = [].
Proof. induction hs as [|h hs IH]; [reflexivity|exact IH]. Qed.

Lemma pushed_loop flushEvery pauseEvery fires cs : forall i,
  flat_map pushed (loop flushEvery pauseEvery fires cs i)
  = map (fun c => String c EmptyString) cs.
Proof.
  induction cs as [|c cs IH]; intros i; [reflexivity|].
  cbn [loop]. rewrite flat_map_app, IH. unfold turn.
  rewrite !flat_map_app. cbn [flat_map pushed InputBuffer.split_chars
                              list_ascii_of_string map app].
  destruct (_ && _); [rewrite pushed_fires|];
    destruct (Nat.eqb (Nat.modulo i flushEvery) 0); reflexivity.
Qed.

Lemma join_singles str :
  InputBuffer.join (map (fun c => String c EmptyString) (list_ascii_of_string str)) = str.
Proof.
  induction str as [|a str IH]; [reflexivity|].
  cbn [list_ascii_of_string map InputBuffer.join fold_right String.append].
  fold (InputBuffer.join (map (fun c => String c EmptyString) (list_ascii_of_string str))).
  now rewrite IH.
Qed.

Lemma flushes_return_all body s0 :
  queued s0 = [] ->
  processedChars (body ++ [Flush]) s0 = InputBuffer.join (flat_map pushed body).
Proof.
  intros Q0. unfold processedChars.
  pose proof (SystemMore.flushed_run (body ++ [Flush]) s0) as F.
  rewrite Q0, flat_map_app in F. cbn [flat_map pushed app] in F. rewrite app_nil_r in F.
  rewrite <- F.
  assert (E : queued (run (body ++ [Flush]) s0) = []).
  { rewrite SystemMore.run_app. cbn [run fold_left step]. unfold on_buf, queued.
    now rewrite BufferFacts.flush_eq. }
  rewrite E. cbn [InputBuffer.join fold_right]. now rewrite BufferMore.append_nil_r.
Qed.

(** X22. The two buffered loops of the stress test always report that the
    characters match and none is dropped: whatever the input string, the
    clock and the timers that fire during the pauses, the [chars] of the
    flushes, appended in order, are the input string. *)
Theorem stress_test_characters_match
  (bo : InputBuffer.Options) (ro : AdaptiveRenderer.Options) (clk : nat -> Z) (s0 : Sys)
  (fires : nat -> list nat) (fullInput : string) :
  boot bo ro clk = Some s0 ->
  processedChars (testBufferBehavior fires fullInput) s0 = fullInput
  /\ processedChars (testComparison fires fullInput) s0 = fullInput.
Proof.
  intros B.
  assert (Q0 : queued s0 = []) by (unfold boot in B; inversion B; reflexivity).
  unfold testBufferBehavior, testComparison.
  rewrite !flushes_return_all by exact Q0.
  rewrite !pushed_loop, join_singles. now split.
Qed.

(** Test 1 on a string of 12 characters, with the options of the test. *)
Lemma stress_test_characters_match_witness :
  exists s0,
    boot (InputBuffer.mkOptions (Some 20) None) AdaptiveRenderer.noOptions
         (fun n => Z.of_nat n) = Some s0
    /\ processedChars (testBufferBehavior (fun _ => []) "The quick br") s0
       = "The quick br"%string.
Proof.
  eexists. split; [reflexivity|].
  refine (proj1 (stress_test_characters_match
                   (InputBuffer.mkOptions (Some 20) None) AdaptiveRenderer.noOptions
                   (fun n => Z.of_nat n) _ (fun _ => []) "The quick br" eq_refl)).
Defined.

End StressFacts.
